(** * drpcstream: the per-call Stream of the drpc transport

    A shallow embedding of [src/drpc/drpcstream/stream.go].  The stream is a
    record of the fields of the Go struct; every method is a computation in a
    small state monad over that record, written in the order of the Go body
    (including the last-in first-out order of its [defer]s).

    A run of the model is a sequence of steps: method calls, each run to
    completion, the two branches of the monitor goroutine, and the actions of
    the collaborators (demultiplexer, context, whoever holds a signal).  The
    send-path methods other than [RawSend] hold [sendMu] for their whole
    body, [defer]s included, so they are atomic in the program as well;
    [RawSend] takes [sendMu] once per packet and is modelled without another
    call overlapping it. *)

From Stdlib Require Import ZArith Bool String List Lia.
From Stdlib Require Import Sorting.Sorted.
Import ListNotations.
Open Scope Z_scope.

(** ** Errors *)

(** The error values the stream itself creates or passes on.  A Go [error]
    interface value is nil-able: [goerror] is [None] for nil. *)
Inductive error : Type :=
| drpc_Error_New (msg : string)   (* drpc.Error.New(msg) *)
| context_Canceled                (* context.Canceled *)
| io_EOF                          (* io.EOF *)
| external_error (msg : string).  (* an error of the writer, framer or codec *)

Definition goerror : Type := option error.

(** [err != nil] *)
Definition not_nil (err : goerror) : bool :=
  match err with Some _ => true | None => false end.

Definition err_send_after_CloseSend : error := drpc_Error_New "send after CloseSend".
Definition err_stream_terminated : error := drpc_Error_New "stream terminated".
Definition err_stream_closed : error := drpc_Error_New "stream closed".

(** ** drpcwire: packets *)

Module drpcwire.

Definition Data : Type := list Byte.byte.

Inductive PayloadKind : Type :=
| PayloadKind_Message
| PayloadKind_Error
| PayloadKind_Cancel
| PayloadKind_CloseSend.

Record PacketID : Type := mkPacketID { StreamID : Z; MessageID : Z }.

Record Packet : Type := mkPacket
  { pkt_ID : PacketID; pkt_Kind : PayloadKind; pkt_Data : Data }.

Definition is_control (k : PayloadKind) : bool :=
  match k with PayloadKind_Message => false | _ => true end.

Definition PacketID_eq_dec (a b : PacketID) : {a = b} + {a <> b}.
Proof. decide equality; apply Z.eq_dec. Defined.

End drpcwire.
Import drpcwire.

(** ** drpcutil: the one-shot latch and the buffered writer *)

Module drpcutil.

(** Modelled from the spec: [drpcutil.Signal] is not among the sources.  The
    spec's Signal holds an optional error and a "has been set" flag; [Set]
    records its argument if and only if nothing was recorded yet, [Get]
    returns [(value, wasSet)] without blocking, [Err] the recorded value (nil
    when unset).  stream.go only ever passes a non-nil error to [Set], so the
    latch stores an [error]: [None] is "unset". *)
Definition Signal : Type := option error.

Definition NewSignal : Signal := None.

Definition Signal_Set (err : error) (g : Signal) : Signal :=
  match g with
  | None => Some err
  | Some _ => g
  end.

Definition Signal_Get (g : Signal) : goerror * bool :=
  match g with
  | Some e => (Some e, true)
  | None => (None, false)
  end.

Definition Signal_Err (g : Signal) : goerror := g.

Definition Signal_IsSet (g : Signal) : bool :=
  match g with Some _ => true | None => false end.

(** Modelled from the spec: [drpcutil.Buffer] is not among the sources.  The
    spec's writer has two operations that may fail, [write(packet)] and
    [flush()].  The model keeps the history of the calls made on it, oldest
    first; whether a call fails is decided by the environment from that
    history (see [Collaborators]). *)
Inductive Call : Type :=
| CWrite (p : Packet)
| CFlush.

Record Buffer : Type := mkBuffer { calls : list Call }.

Definition written (l : list Call) : list Packet :=
  flat_map (fun c => match c with CWrite p => [p] | CFlush => [] end) l.

End drpcutil.
Import drpcutil.

(** ** The collaborators outside the stream core *)

(** What stream.go uses and does not define: how the framer cuts a payload
    (one or more chunks: the first and the rest), whether a call on the writer
    fails, the text of an error, and the protobuf codec. *)
Class Collaborators : Type := {
  split_payload : PayloadKind -> Data -> Data * list Data;
  Write_result : list Call -> Packet -> goerror;
  Flush_result : list Call -> goerror;
  Error_text : error -> Data;
  Message : Type;
  proto_Marshal : Message -> Data * goerror;
  proto_Unmarshal : Data -> goerror
}.

(** ** The stream *)

(** A Go channel of packets: the buffered items, oldest first, and whether it
    was closed. *)
Record Chan : Type := mkChan { items : list Packet; closed : bool }.

Definition queue_capacity : nat := 100.

Record Stream : Type := mkStream {
  messageID : Z;          (* uint64 *)
  ctx_done : bool;        (* ctx.Done() is closed *)
  streamID : Z;           (* uint64 *)
  buf : Buffer;
  sig : Signal;
  sendSig : Signal;
  recvSig : Signal;
  termSig : Signal;
  queue : Chan;
  monitoring : bool       (* the monitor goroutine still waits in its select *)
}.

Definition set_messageID (v : Z) (s : Stream) : Stream :=
  mkStream v (ctx_done s) (streamID s) (buf s) (sig s) (sendSig s) (recvSig s)
           (termSig s) (queue s) (monitoring s).
Definition set_ctx_done (v : bool) (s : Stream) : Stream :=
  mkStream (messageID s) v (streamID s) (buf s) (sig s) (sendSig s) (recvSig s)
           (termSig s) (queue s) (monitoring s).
Definition set_buf (v : Buffer) (s : Stream) : Stream :=
  mkStream (messageID s) (ctx_done s) (streamID s) v (sig s) (sendSig s) (recvSig s)
           (termSig s) (queue s) (monitoring s).
Definition set_sig (v : Signal) (s : Stream) : Stream :=
  mkStream (messageID s) (ctx_done s) (streamID s) (buf s) v (sendSig s) (recvSig s)
           (termSig s) (queue s) (monitoring s).
Definition set_sendSig (v : Signal) (s : Stream) : Stream :=
  mkStream (messageID s) (ctx_done s) (streamID s) (buf s) (sig s) v (recvSig s)
           (termSig s) (queue s) (monitoring s).
Definition set_recvSig (v : Signal) (s : Stream) : Stream :=
  mkStream (messageID s) (ctx_done s) (streamID s) (buf s) (sig s) (sendSig s) v
           (termSig s) (queue s) (monitoring s).
Definition set_termSig (v : Signal) (s : Stream) : Stream :=
  mkStream (messageID s) (ctx_done s) (streamID s) (buf s) (sig s) (sendSig s) (recvSig s)
           v (queue s) (monitoring s).
Definition set_queue (v : Chan) (s : Stream) : Stream :=
  mkStream (messageID s) (ctx_done s) (streamID s) (buf s) (sig s) (sendSig s) (recvSig s)
           (termSig s) v (monitoring s).
Definition set_monitoring (v : bool) (s : Stream) : Stream :=
  mkStream (messageID s) (ctx_done s) (streamID s) (buf s) (sig s) (sendSig s) (recvSig s)
           (termSig s) (queue s) v.

(** ** A state monad over the stream *)

Definition M (A : Type) : Type := Stream -> A * Stream.

Definition ret {A} (a : A) : M A := fun s => (a, s).

Definition bind {A B} (c : M A) (k : A -> M B) : M B :=
  fun s => let (a, s1) := c s in k a s1.

(** [defer d body]: Go's [defer d] at the head of a function whose remaining
    body is [body].  The result is fixed by [body]; [d] runs afterwards.  Nested
    [defer]s therefore run last-in first-out. *)
Definition defer {A} (d : M unit) (body : M A) : M A :=
  fun s => let (a, s1) := body s in (a, snd (d s1)).

Declare Scope stream_scope.
Delimit Scope stream_scope with stream.
Notation "x <- c ;; k" := (bind c (fun x => k))
  (at level 61, c at next level, right associativity) : stream_scope.
Notation "c ;;; k" := (bind c (fun _ => k))
  (at level 61, right associativity) : stream_scope.
Open Scope stream_scope.

Definition exec {A} (c : M A) (s : Stream) : Stream := snd (c s).
Definition result {A} (c : M A) (s : Stream) : A := fst (c s).

(** 64-bit unsigned addition, as [atomic.AddUint64] computes it. *)
Definition uint64_modulus : Z := 2 ^ 64.
Definition uint64_add (a b : Z) : Z := (a + b) mod uint64_modulus.

Section Stream.

Context {C : Collaborators}.

(** *** The collaborators' operations on the stream's state *)

Definition buf_Write (pkt : Packet) : M goerror := fun s =>
  (Write_result (calls (buf s)) pkt,
   set_buf (mkBuffer (calls (buf s) ++ [CWrite pkt])) s).

Definition buf_Flush : M goerror := fun s =>
  (Flush_result (calls (buf s)),
   set_buf (mkBuffer (calls (buf s) ++ [CFlush])) s).

(** Modelled from the spec: [drpcwire.Split] is not among the sources.
    [split(kind, packetID, data, emit)] partitions [data] into one or more
    packets tagged with [packetID] and [kind], invokes [emit] on each in
    order, and propagates the first error of [emit], emitting nothing
    after it. *)
Definition frame_packets (kind : PayloadKind) (id : PacketID) (data : Data)
  : list Packet :=
  let (d, ds) := split_payload kind data in
  map (mkPacket id kind) (d :: ds).

Fixpoint emit_each (cb : Packet -> M goerror) (pkts : list Packet) : M goerror :=
  match pkts with
  | [] => ret None
  | p :: rest => fun s =>
      let (e, s1) := cb p s in
      match e with
      | Some _ => (e, s1)
      | None => emit_each cb rest s1
      end
  end.

Definition Split (kind : PayloadKind) (id : PacketID) (data : Data)
           (cb : Packet -> M goerror) : M goerror :=
  emit_each cb (frame_packets kind id data).

Definition sig_Set (err : error) : M unit := fun s =>
  (tt, set_sig (Signal_Set err (sig s)) s).
Definition sendSig_Set (err : error) : M unit := fun s =>
  (tt, set_sendSig (Signal_Set err (sendSig s)) s).
Definition recvSig_Set (err : error) : M unit := fun s =>
  (tt, set_recvSig (Signal_Set err (recvSig s)) s).
Definition termSig_Set (err : error) : M unit := fun s =>
  (tt, set_termSig (Signal_Set err (termSig s)) s).

(** *** stream.go *)

Definition New (ctx_cancelled : bool) (streamID : Z) (buf : Buffer) : Stream :=
  mkStream 0 ctx_cancelled streamID buf NewSignal NewSignal NewSignal NewSignal
           (mkChan [] false) true.

Definition Cancel : M unit := fun s => (tt, set_ctx_done true s).

Definition nextPid : M PacketID := fun s =>
  let m := uint64_add (messageID s) 1 in
  (mkPacketID (streamID s) m, set_messageID m s).

Definition pollSend : M (goerror * bool) := fun s =>
  match Signal_Get (sig s) with
  | (err, true) => ((err, false), s)
  | _ =>
    match Signal_Get (termSig s) with
    | (err, true) => ((err, false), s)
    | _ =>
      match Signal_Get (sendSig s) with
      | (err, true) => ((err, true), s)
      | _ => ((None, false), s)
      end
    end
  end.

Definition wireSendFlush (kind : PayloadKind) (data : Data) : M goerror :=
  id <- nextPid ;;
  err <- Split kind id data buf_Write ;;
  match err with
  | Some _ => ret err
  | None => buf_Flush
  end.

(** The closure [RawSend] passes to [Split]. *)
Definition RawSend_emit (pkt : Packet) : M goerror :=
  r <- pollSend ;;
  match fst r with
  | Some e => ret (Some e)
  | None => buf_Write pkt
  end.

Definition RawSend (kind : PayloadKind) (data : Data) : M goerror :=
  id <- nextPid ;;
  err <- Split kind id data RawSend_emit ;;
  match err with
  | Some e => sig_Set e ;;; ret err
  | None => ret None
  end.

Definition RawFlush : M goerror :=
  r <- pollSend ;;
  match fst r with
  | Some e => ret (Some e)
  | None =>
    err <- buf_Flush ;;
    match err with
    | Some e => sig_Set e ;;; ret err
    | None => ret None
    end
  end.

(** The outcome of a receive on the current state: [None] when the call
    blocks (no case of its [select] is ready), otherwise the pair the call
    returns. *)
Definition RecvOutcome : Type := option (option Packet * goerror).

(** The [select] of [RawRecv]: a case may be taken when it is ready; Go picks
    any ready case. *)
Inductive RawRecv_select (s : Stream) : (option Packet * goerror) -> Stream -> Prop :=
| select_sig : forall e,
    sig s = Some e ->
    RawRecv_select s (None, Signal_Err (sig s)) s
| select_packet : forall p rest,
    items (queue s) = p :: rest ->
    RawRecv_select s (Some p, None) (set_queue (mkChan rest (closed (queue s))) s)
| select_closed :
    items (queue s) = [] -> closed (queue s) = true ->
    RawRecv_select s (None, Some io_EOF) s.

Definition RawRecv : M RecvOutcome := fun s =>
  match Signal_Get (sig s) with
  | (err, true) => (Some (None, err), s)
  | _ =>
    (* here the signal is unset, so only the queue can be ready *)
    match items (queue s) with
    | p :: rest => (Some (Some p, None), set_queue (mkChan rest (closed (queue s))) s)
    | [] => if closed (queue s) then (Some (None, Some io_EOF), s) else (None, s)
    end
  end.

(** [err] is not nil: [err.Error()] is called on it, and the monitor passes
    [s.sig.Err()] after [sig] fired. *)
Definition RawError (err : error) : M unit :=
  defer (termSig_Set err_stream_terminated)
    (r <- (fun s => (Signal_Get (termSig s), s)) ;;
     if snd r then ret tt
     else wireSendFlush PayloadKind_Error (Error_text err) ;;; ret tt).

Definition RawCancel : M unit :=
  defer (termSig_Set err_stream_terminated)
    (defer (sig_Set context_Canceled)
      (r <- (fun s => (Signal_Get (termSig s), s)) ;;
       if snd r then ret tt
       else wireSendFlush PayloadKind_Cancel [] ;;; ret tt)).

(** The monitor goroutine waits in one [select]; each case is ready once its
    channel is closed, and taking it ends the goroutine.  [monitor_sig] is the
    case [<-s.sig.Signal()], [monitor_ctx] the case [<-s.ctx.Done()]; a case
    that is not ready, or a goroutine that has ended, does nothing. *)
Definition monitor_sig : M unit := fun s =>
  if monitoring s then
    match Signal_Err (sig s) with
    | Some e => RawError e (set_monitoring false s)
    | None => (tt, s)
    end
  else (tt, s).

Definition monitor_ctx : M unit := fun s =>
  if monitoring s && ctx_done s then RawCancel (set_monitoring false s)
  else (tt, s).

Inductive SelectCase : Type := case_sig | case_ctx.

Definition monitor (ready : SelectCase) : M unit :=
  match ready with
  | case_sig => monitor_sig
  | case_ctx => monitor_ctx
  end.

Definition MsgSend (msg : Message) : M goerror :=
  let (data, err) := proto_Marshal msg in
  match err with
  | Some _ => ret err
  | None =>
    err <- RawSend PayloadKind_Message data ;;
    match err with
    | Some _ => ret err
    | None => RawFlush
    end
  end.

Definition MsgRecv : M (option goerror) :=
  r <- RawRecv ;;
  match r with
  | None => ret None
  | Some (Some p, None) => ret (Some (proto_Unmarshal (pkt_Data p)))
  | Some (_, err) => ret (Some err)
  end.

Definition CloseSend : M goerror :=
  defer (sendSig_Set err_send_after_CloseSend)
    (r <- pollSend ;;
     let (err, sendClosed) := r in
     if sendClosed then ret None
     else match err with
          | Some _ => ret err
          | None => wireSendFlush PayloadKind_CloseSend []
          end).

Definition Close : M goerror :=
  defer (sendSig_Set err_send_after_CloseSend)
    (defer (termSig_Set err_stream_terminated)
      (defer (sig_Set err_stream_closed)
        (r <- pollSend ;;
         let (err, sendClosed) := r in
         if not_nil err && negb sendClosed then ret None
         else wireSendFlush PayloadKind_CloseSend []))).

(** *** Runs of one stream *)

Inductive Which : Type := TheSig | TheSendSig | TheRecvSig | TheTermSig.

(** One step in the life of a stream: a method call of stream.go, a step of
    its monitor goroutine (one branch of the [select] in [monitor]), or an
    action of a collaborator through the exported accessors: the
    demultiplexer feeding or closing [Queue()], someone setting one of the
    four signals, the parent context being cancelled. *)
Inductive Op : Type :=
| CallRawSend (kind : PayloadKind) (data : Data)
| CallRawFlush
| CallRawRecv
| CallRawError (err : error)
| CallRawCancel
| CallMsgSend (msg : Message)
| CallMsgRecv
| CallCloseSend
| CallClose
| CallCancel
| MonitorSig
| MonitorCtx
| Enqueue (p : Packet)
| CloseQueue
| ExternalSet (w : Which) (err : error)
| ParentCancelled.

(** The demultiplexer sends on the queue: the packet is buffered while the
    channel has room.  On a full channel the sender waits, and a send on a
    closed channel is the sender's fault: neither changes the stream. *)
Definition enqueue (p : Packet) : M unit := fun s =>
  if closed (queue s) || (queue_capacity <=? length (items (queue s)))%nat
  then (tt, s)
  else (tt, set_queue (mkChan (items (queue s) ++ [p]) false) s).

Definition close_queue : M unit := fun s =>
  (tt, set_queue (mkChan (items (queue s)) true) s).

Definition external_Set (w : Which) (err : error) : M unit :=
  match w with
  | TheSig => sig_Set err
  | TheSendSig => sendSig_Set err
  | TheRecvSig => recvSig_Set err
  | TheTermSig => termSig_Set err
  end.

Definition step (o : Op) (s : Stream) : Stream :=
  match o with
  | CallRawSend kind data => exec (RawSend kind data) s
  | CallRawFlush => exec RawFlush s
  | CallRawRecv => exec RawRecv s
  | CallRawError err => exec (RawError err) s
  | CallRawCancel => exec RawCancel s
  | CallMsgSend msg => exec (MsgSend msg) s
  | CallMsgRecv => exec MsgRecv s
  | CallCloseSend => exec CloseSend s
  | CallClose => exec Close s
  | CallCancel => exec Cancel s
  | MonitorSig => exec (monitor case_sig) s
  | MonitorCtx => exec (monitor case_ctx) s
  | Enqueue p => exec (enqueue p) s
  | CloseQueue => exec close_queue s
  | ExternalSet w err => exec (external_Set w err) s
  | ParentCancelled => exec Cancel s
  end.

Definition run (ops : list Op) (s : Stream) : Stream :=
  fold_left (fun s o => step o s) ops s.

(** What a step hands to the writer: the calls it appends to the history. *)
Definition appended (s s' : Stream) : list Call :=
  skipn (length (calls (buf s))) (calls (buf s')).

(** The steps that latch [termSig]: [RawError], [RawCancel] (also when run by
    the monitor) and [Close]. *)
Definition is_terminal_op (o : Op) : bool :=
  match o with
  | CallRawError _ | CallRawCancel | CallClose | MonitorSig | MonitorCtx => true
  | _ => false
  end.

(** The number of steps of a run in which a terminal operation handed
    something to the writer. *)
Fixpoint terminal_emissions (ops : list Op) (s : Stream) : nat :=
  match ops with
  | [] => 0%nat
  | o :: rest =>
    ((if is_terminal_op o
      then match appended s (step o s) with [] => 0 | _ :: _ => 1 end
      else 0)
     + terminal_emissions rest (step o s))%nat
  end.

(** The control frames a writer history holds: the distinct packet
    identifiers of its Error, Cancel and CloseSend packets. *)
Definition control_frames (l : list Call) : list PacketID :=
  nodup PacketID_eq_dec
    (map pkt_ID (filter (fun p => is_control (pkt_Kind p)) (written l))).

(** The packets each call of a sequence of [RawSend]s hands to the writer,
    with the call's result. *)
Fixpoint RawSend_trace (msgs : list (PayloadKind * Data)) (s : Stream)
  : list (goerror * list Packet) :=
  match msgs with
  | [] => []
  | (kind, data) :: rest =>
    let (err, s1) := RawSend kind data s in
    (err, written (appended s s1)) :: RawSend_trace rest s1
  end.

End Stream.

(** ** A concrete set of collaborators

    A framer that cuts payloads into packets of at most two bytes, a writer
    that never fails, and an identity codec. *)

Fixpoint chunks (fuel : nat) (d : Data) : list Data :=
  match fuel with
  | O => []
  | S f =>
    match d with
    | [] => []
    | _ => firstn 2 d :: chunks f (skipn 2 d)
    end
  end.

Definition two_byte_framer : Collaborators := {|
  split_payload := fun _ d => (firstn 2 d, chunks (length d) (skipn 2 d));
  Write_result := fun _ _ => None;
  Flush_result := fun _ => None;
  Error_text := fun e =>
    match e with
    | drpc_Error_New m | external_error m => list_byte_of_string m
    | context_Canceled => list_byte_of_string "context canceled"
    | io_EOF => list_byte_of_string "EOF"
    end;
  Message := Data;
  proto_Marshal := fun m => (m, None);
  proto_Unmarshal := fun _ => None
|}.

(** The same framer over a writer whose every call fails. *)
Definition broken_writer : Collaborators := {|
  split_payload := fun _ d => (firstn 2 d, chunks (length d) (skipn 2 d));
  Write_result := fun _ _ => Some (external_error "write failed");
  Flush_result := fun _ => Some (external_error "flush failed");
  Error_text := fun _ => [];
  Message := Data;
  proto_Marshal := fun m => (m, None);
  proto_Unmarshal := fun _ => None
|}.

(** A stream as [New] returns it: identifier 7, an empty writer history. *)
Definition fresh : Stream := New false 7 (mkBuffer []).

(** * Properties *)

Section Facts.

Context {C : Collaborators}.

(** ** The latches *)

Lemma Signal_Set_IsSet err g : Signal_IsSet (Signal_Set err g) = true.
Proof. destruct g; reflexivity. Qed.

Lemma Signal_Set_twice a b g : Signal_Set b (Signal_Set a g) = Signal_Set a g.
Proof. destruct g; reflexivity. Qed.

(** A latch that holds a value keeps it. *)
Definition latched (g g' : Signal) : Prop := forall e, g = Some e -> g' = Some e.

Lemma latched_refl g : latched g g.
Proof. intros e H; exact H. Qed.

Lemma latched_trans g1 g2 g3 : latched g1 g2 -> latched g2 g3 -> latched g1 g3.
Proof. intros H1 H2 e H; auto. Qed.

Lemma latched_Set err g : latched g (Signal_Set err g).
Proof. intros e ->; reflexivity. Qed.

(** ** The poll-send policy *)

Lemma pollSend_pure s : snd (pollSend s) = s.
Proof.
  unfold pollSend.
  destruct (sig s), (termSig s), (sendSig s); reflexivity.
Qed.

Lemma pollSend_eq s : pollSend s = (result pollSend s, s).
Proof.
  unfold result. rewrite <- (pollSend_pure s) at 3.
  destruct (pollSend s); reflexivity.
Qed.

Lemma pollSend_set_buf b s :
  result pollSend (set_buf b s) = result pollSend s.
Proof.
  unfold result, pollSend; simpl.
  destruct (sig s), (termSig s), (sendSig s); reflexivity.
Qed.

Lemma pollSend_set_messageID m s :
  result pollSend (set_messageID m s) = result pollSend s.
Proof.
  unfold result, pollSend; simpl.
  destruct (sig s), (termSig s), (sendSig s); reflexivity.
Qed.

(** ** Writing the packets of a frame *)

Lemma frame_packets_cons kind id data :
  exists d ds,
    frame_packets kind id data = mkPacket id kind d :: map (mkPacket id kind) ds.
Proof.
  unfold frame_packets. destruct (split_payload kind data) as [d ds].
  exists d, ds. reflexivity.
Qed.

Lemma frame_packets_tagged kind id data :
  Forall (fun p => pkt_ID p = id /\ pkt_Kind p = kind) (frame_packets kind id data).
Proof.
  unfold frame_packets. destruct (split_payload kind data) as [d ds].
  apply Forall_forall. intros p Hp. apply in_map_iff in Hp.
  destruct Hp as [x [<- _]]. split; reflexivity.
Qed.

Lemma set_buf_same s : set_buf (mkBuffer (calls (buf s) ++ [])) s = s.
Proof. destruct s as [? ? ? [l] ? ? ? ? ? ?]; simpl. rewrite app_nil_r. reflexivity. Qed.

(** [Split] over [buf.Write] hands the writer a prefix of the frame's
    packets (all of them unless a write fails), at least the first. *)
Lemma emit_each_Write pkts : forall s e s',
  emit_each buf_Write pkts s = (e, s') ->
  exists l r,
    pkts = l ++ r /\
    (pkts <> [] -> l <> []) /\
    (e = None -> r = []) /\
    s' = set_buf (mkBuffer (calls (buf s) ++ map CWrite l)) s.
Proof.
  induction pkts as [|p rest IH]; intros s e s' H; simpl in H.
  - unfold ret in H. inversion H; subst.
    exists [], []. simpl. rewrite set_buf_same. repeat split; congruence.
  - unfold buf_Write in H at 1.
    destruct (Write_result (calls (buf s)) p) as [e1|].
    + inversion H; subst. exists [p], rest. simpl.
      repeat split; congruence.
    + apply IH in H. destruct H as [l [r [Hl [_ [Hr Hs]]]]].
      exists (p :: l), r. simpl in *. subst rest.
      split; [reflexivity|]. split; [congruence|]. split; [exact Hr|].
      rewrite Hs. unfold set_buf; simpl. rewrite <- app_assoc. reflexivity.
Qed.

(** While the policy denies, the closure of [RawSend] stops [Split] at the
    first packet and the writer is not called. *)
Lemma emit_each_denied e p rest s :
  fst (result pollSend s) = Some e ->
  emit_each RawSend_emit (p :: rest) s = (Some e, s).
Proof.
  intros H. simpl. unfold RawSend_emit, bind.
  rewrite pollSend_eq. rewrite H. reflexivity.
Qed.

(** While the policy allows, it keeps allowing during the [Split] (only the
    writer history changes), so every packet goes to [buf.Write]. *)
Lemma emit_each_allowed pkts : forall s,
  fst (result pollSend s) = None ->
  emit_each RawSend_emit pkts s = emit_each buf_Write pkts s.
Proof.
  induction pkts as [|p rest IH]; intros s H; simpl; [reflexivity|].
  unfold RawSend_emit at 1, bind. rewrite pollSend_eq, H.
  unfold buf_Write at 1.
  destruct (Write_result (calls (buf s)) p); [reflexivity|].
  apply IH. rewrite pollSend_set_buf. exact H.
Qed.

Lemma written_app l1 l2 : written (l1 ++ l2) = written l1 ++ written l2.
Proof. unfold written. apply flat_map_app. Qed.

Lemma written_map_CWrite l : written (map CWrite l) = l.
Proof. induction l as [|p l IH]; simpl; [reflexivity|]. f_equal. exact IH. Qed.

Lemma appended_app s s' l :
  calls (buf s') = calls (buf s) ++ l -> appended s s' = l.
Proof.
  intros H. unfold appended. rewrite H.
  rewrite skipn_app, skipn_all, Nat.sub_diag. reflexivity.
Qed.

Lemma appended_same_buf s s' : buf s' = buf s -> appended s s' = [].
Proof.
  intros H. apply appended_app. rewrite H, app_nil_r. reflexivity.
Qed.

(** ** The shape of one frame emission *)

(** [wireSendFlush] draws one identifier and hands the writer at least the
    first packet of the frame; every packet it hands over carries that
    identifier and the frame's kind; nothing else of the stream changes. *)
Lemma wireSendFlush_shape kind data s :
  exists p l,
    exec (wireSendFlush kind data) s =
      set_buf (mkBuffer (calls (buf s) ++ CWrite p :: l))
              (set_messageID (uint64_add (messageID s) 1) s) /\
    Forall (fun q => pkt_ID q = mkPacketID (streamID s) (uint64_add (messageID s) 1)
                     /\ pkt_Kind q = kind)
           (written (CWrite p :: l)).
Proof.
  unfold exec, wireSendFlush, bind, nextPid, Split.
  set (id := mkPacketID (streamID s) (uint64_add (messageID s) 1)).
  set (s1 := set_messageID (uint64_add (messageID s) 1) s).
  destruct (emit_each buf_Write (frame_packets kind id data) s1) as [e s2] eqn:E.
  apply emit_each_Write in E. destruct E as [l [r [Hl [Hne [_ Hs2]]]]].
  pose proof (frame_packets_tagged kind id data) as Htag.
  destruct (frame_packets_cons kind id data) as [d [ds Hfp]].
  destruct l as [|p l]; [exfalso; apply Hne; [rewrite Hfp; discriminate | reflexivity]|].
  rewrite Hl in Htag. apply Forall_app in Htag. destruct Htag as [Htag _].
  destruct e as [e|].
  - exists p, (map CWrite l). split.
    + unfold ret. simpl. rewrite Hs2. reflexivity.
    + change (CWrite p :: map CWrite l) with (map CWrite (p :: l)).
      rewrite written_map_CWrite. exact Htag.
  - exists p, (map CWrite l ++ [CFlush]). split.
    + unfold buf_Flush. simpl. rewrite Hs2. unfold set_buf; simpl.
      rewrite <- app_assoc. reflexivity.
    + change (CWrite p :: map CWrite l ++ [CFlush])
        with (map CWrite (p :: l) ++ [CFlush]).
      rewrite written_app, written_map_CWrite. simpl. rewrite app_nil_r. exact Htag.
Qed.

(** A denied [RawSend] draws an identifier, records the denial in [sig] and
    returns it; the writer is not called. *)
Lemma RawSend_denied kind data s e :
  fst (result pollSend s) = Some e ->
  RawSend kind data s =
    (Some e, set_sig (Signal_Set e (sig s))
                     (set_messageID (uint64_add (messageID s) 1) s)).
Proof.
  intros H. unfold RawSend, bind, nextPid, Split.
  destruct (frame_packets_cons kind
              (mkPacketID (streamID s) (uint64_add (messageID s) 1)) data)
    as [d [ds ->]].
  rewrite emit_each_denied with (e := e).
  - reflexivity.
  - rewrite pollSend_set_messageID. exact H.
Qed.

(** An allowed [RawSend] hands the writer a prefix of the frame's packets,
    at least the first and all of them when it succeeds; a failed write is
    recorded in [sig]. *)
Lemma RawSend_allowed kind data s :
  fst (result pollSend s) = None ->
  exists p l r,
    frame_packets kind (mkPacketID (streamID s) (uint64_add (messageID s) 1)) data
      = (p :: l) ++ r /\
    let s1 := set_buf (mkBuffer (calls (buf s) ++ map CWrite (p :: l)))
                      (set_messageID (uint64_add (messageID s) 1) s) in
    (RawSend kind data s = (None, s1) /\ r = []
     \/ exists e, RawSend kind data s = (Some e, set_sig (Signal_Set e (sig s)) s1)).
Proof.
  intros H. unfold RawSend, bind, nextPid, Split.
  set (id := mkPacketID (streamID s) (uint64_add (messageID s) 1)).
  set (s0 := set_messageID (uint64_add (messageID s) 1) s).
  rewrite emit_each_allowed by (unfold s0; rewrite pollSend_set_messageID; exact H).
  destruct (emit_each buf_Write (frame_packets kind id data) s0) as [e s2] eqn:E.
  apply emit_each_Write in E. destruct E as [l [r [Hl [Hne [Hr Hs2]]]]].
  destruct (frame_packets_cons kind id data) as [d [ds Hfp]].
  destruct l as [|p l]; [exfalso; apply Hne; [rewrite Hfp; discriminate | reflexivity]|].
  exists p, l, r. split; [exact Hl|]. simpl.
  destruct e as [e|].
  - right. exists e. unfold sig_Set, ret. simpl. rewrite Hs2. reflexivity.
  - left. split; [|apply Hr; reflexivity]. unfold ret. rewrite Hs2. reflexivity.
Qed.

(** Once [termSig] (or [sig]) holds a value the policy denies with a hard
    failure. *)
Lemma pollSend_terminated s t :
  termSig s = Some t -> exists e, result pollSend s = (Some e, false).
Proof.
  intros H. unfold result, pollSend. rewrite H.
  destruct (sig s) as [e|]; simpl; eauto.
Qed.

Lemma pollSend_sig s e :
  sig s = Some e -> result pollSend s = (Some e, false).
Proof. intros H. unfold result, pollSend. rewrite H. reflexivity. Qed.

Lemma wireSendFlush_inv kind data s e s1 :
  wireSendFlush kind data s = (e, s1) ->
  exists p l,
    s1 = set_buf (mkBuffer (calls (buf s) ++ CWrite p :: l))
                 (set_messageID (uint64_add (messageID s) 1) s) /\
    Forall (fun q => pkt_ID q = mkPacketID (streamID s) (uint64_add (messageID s) 1)
                     /\ pkt_Kind q = kind)
           (written (CWrite p :: l)).
Proof.
  intros H. destruct (wireSendFlush_shape kind data s) as [p [l [Hs Ht]]].
  exists p, l. split; [|exact Ht].
  unfold exec in Hs. rewrite H in Hs. exact Hs.
Qed.

(** ** What every step preserves *)

(** Latches keep their values, the stream keeps its identifier, and the
    writer history only grows. *)
Record evolves (s s' : Stream) : Prop := mk_evolves {
  ev_sig : latched (sig s) (sig s');
  ev_sendSig : latched (sendSig s) (sendSig s');
  ev_termSig : latched (termSig s) (termSig s');
  ev_streamID : streamID s' = streamID s;
  ev_calls : exists l, calls (buf s') = calls (buf s) ++ l
}.

Lemma evolves_refl s : evolves s s.
Proof.
  constructor; try apply latched_refl; try reflexivity.
  exists []. rewrite app_nil_r. reflexivity.
Qed.

Lemma evolves_trans s1 s2 s3 : evolves s1 s2 -> evolves s2 s3 -> evolves s1 s3.
Proof.
  intros [a1 b1 c1 d1 [l1 e1]] [a2 b2 c2 d2 [l2 e2]].
  constructor; try (eapply latched_trans; eassumption); try congruence.
  exists (l1 ++ l2). rewrite e2, e1, app_assoc. reflexivity.
Qed.

Definition monotone {A} (c : M A) : Prop := forall s, evolves s (snd (c s)).

Lemma monotone_ret {A} (a : A) : monotone (ret a).
Proof. intros s. apply evolves_refl. Qed.

Lemma monotone_bind {A B} (c : M A) (k : A -> M B) :
  monotone c -> (forall a, monotone (k a)) -> monotone (bind c k).
Proof.
  intros Hc Hk s. unfold bind. specialize (Hc s).
  destruct (c s) as [a s1]. eapply evolves_trans; [exact Hc | apply Hk].
Qed.

Lemma monotone_defer {A} (d : M unit) (body : M A) :
  monotone d -> monotone body -> monotone (defer d body).
Proof.
  intros Hd Hb s. unfold defer. specialize (Hb s).
  destruct (body s) as [a s1]. eapply evolves_trans; [exact Hb | apply Hd].
Qed.

Lemma monotone_emit_each cb pkts :
  (forall p, monotone (cb p)) -> monotone (emit_each cb pkts).
Proof.
  intros Hcb. induction pkts as [|p rest IH]; intros s; simpl.
  - apply evolves_refl.
  - specialize (Hcb p s). destruct (cb p s) as [[e|] s1]; [exact Hcb|].
    eapply evolves_trans; [exact Hcb | apply IH].
Qed.

Ltac primitive :=
  intros s; constructor; simpl;
  try apply latched_refl; try apply latched_Set; try reflexivity;
  try (exists []; rewrite app_nil_r; reflexivity);
  try (eexists; reflexivity).

Lemma monotone_nextPid : monotone nextPid.
Proof. primitive. Qed.
Lemma monotone_pollSend : monotone pollSend.
Proof. intros s. rewrite pollSend_pure. apply evolves_refl. Qed.
Lemma monotone_buf_Write p : monotone (buf_Write p).
Proof. primitive. Qed.
Lemma monotone_buf_Flush : monotone buf_Flush.
Proof. primitive. Qed.
Lemma monotone_sig_Set e : monotone (sig_Set e).
Proof. primitive. Qed.
Lemma monotone_sendSig_Set e : monotone (sendSig_Set e).
Proof. primitive. Qed.
Lemma monotone_recvSig_Set e : monotone (recvSig_Set e).
Proof. primitive. Qed.
Lemma monotone_termSig_Set e : monotone (termSig_Set e).
Proof. primitive. Qed.
Lemma monotone_get_termSig :
  monotone (fun s : Stream => (Signal_Get (termSig s), s)).
Proof. intros s. apply evolves_refl. Qed.
Lemma monotone_Cancel : monotone Cancel.
Proof. primitive. Qed.
Lemma monotone_enqueue p : monotone (enqueue p).
Proof.
  intros s. unfold enqueue.
  destruct (closed (queue s) || (queue_capacity <=? length (items (queue s)))%nat);
    [apply evolves_refl | revert s; primitive].
Qed.
Lemma monotone_close_queue : monotone close_queue.
Proof. primitive. Qed.
Lemma monotone_RawRecv : monotone RawRecv.
Proof.
  intros s. unfold RawRecv.
  destruct (sig s); simpl; [apply evolves_refl|].
  destruct (items (queue s)); [destruct (closed (queue s)); apply evolves_refl|].
  revert s. primitive.
Qed.

Create HintDb mono discriminated.
#[local] Hint Resolve monotone_nextPid monotone_pollSend monotone_buf_Write
  monotone_buf_Flush monotone_sig_Set monotone_sendSig_Set monotone_recvSig_Set
  monotone_termSig_Set monotone_get_termSig monotone_Cancel monotone_enqueue
  monotone_close_queue monotone_RawRecv : mono.

(** Walks a method body: sequencing, [defer], [Split] and each branch. *)
Ltac mono :=
  repeat first
    [ apply monotone_ret
    | solve [auto with mono]
    | apply monotone_defer
    | apply monotone_bind; [|intros ?]
    | apply monotone_emit_each; intros ?
    | match goal with
      | |- monotone (match ?x with _ => _ end) => destruct x
      end ].

Lemma monotone_wireSendFlush kind data : monotone (wireSendFlush kind data).
Proof. unfold wireSendFlush, Split. mono. Qed.

Lemma monotone_RawSend kind data : monotone (RawSend kind data).
Proof. unfold RawSend, Split, RawSend_emit. mono. Qed.

Lemma monotone_RawFlush : monotone RawFlush.
Proof. unfold RawFlush. mono. Qed.

#[local] Hint Resolve monotone_wireSendFlush monotone_RawSend monotone_RawFlush : mono.

Lemma monotone_RawError err : monotone (RawError err).
Proof. unfold RawError. mono. Qed.

Lemma monotone_RawCancel : monotone RawCancel.
Proof. unfold RawCancel. mono. Qed.

Lemma monotone_CloseSend : monotone CloseSend.
Proof. unfold CloseSend. mono. Qed.

Lemma monotone_Close : monotone Close.
Proof. unfold Close. mono. Qed.

Lemma monotone_MsgSend msg : monotone (MsgSend msg).
Proof. unfold MsgSend. mono. Qed.

Lemma monotone_MsgRecv : monotone MsgRecv.
Proof. unfold MsgRecv. mono. Qed.

Lemma evolves_set_monitoring b s : evolves s (set_monitoring b s).
Proof. revert s. primitive. Qed.

Lemma monotone_monitor_sig : monotone monitor_sig.
Proof.
  intros s. unfold monitor_sig.
  destruct (monitoring s); [|apply evolves_refl].
  destruct (Signal_Err (sig s)); [|apply evolves_refl].
  eapply evolves_trans; [apply (evolves_set_monitoring false)|apply monotone_RawError].
Qed.

Lemma monotone_monitor_ctx : monotone monitor_ctx.
Proof.
  intros s. unfold monitor_ctx.
  destruct (monitoring s && ctx_done s); [|apply evolves_refl].
  eapply evolves_trans; [apply (evolves_set_monitoring false)|apply monotone_RawCancel].
Qed.

Lemma monotone_external_Set w err : monotone (external_Set w err).
Proof. destruct w; simpl; auto with mono. Qed.

Lemma step_evolves o s : evolves s (step o s).
Proof.
  destruct o; simpl; unfold exec;
    solve [ apply monotone_RawSend | apply monotone_RawFlush | apply monotone_RawRecv
          | apply monotone_RawError | apply monotone_RawCancel | apply monotone_MsgSend
          | apply monotone_MsgRecv | apply monotone_CloseSend | apply monotone_Close
          | apply monotone_Cancel | apply monotone_monitor_sig | apply monotone_monitor_ctx
          | apply monotone_enqueue | apply monotone_close_queue
          | apply monotone_external_Set ].
Qed.

Lemma run_evolves ops : forall s, evolves s (run ops s).
Proof.
  induction ops as [|o ops IH]; intros s; simpl.
  - apply evolves_refl.
  - eapply evolves_trans; [apply step_evolves | apply IH].
Qed.

(** ** Equations of the methods, by the state of the latches *)

Lemma pollSend_table s :
  result pollSend s =
    match sig s, termSig s, sendSig s with
    | Some e, _, _ => (Some e, false)
    | None, Some e, _ => (Some e, false)
    | None, None, Some e => (Some e, true)
    | None, None, None => (None, false)
    end.
Proof.
  unfold result, pollSend.
  destruct (sig s), (termSig s), (sendSig s); reflexivity.
Qed.

(** Splits a call of [wireSendFlush] into its result and the state it
    leaves, the latter in the explicit form of [wireSendFlush_inv]. *)
Ltac emit_frame :=
  match goal with
  | |- context [wireSendFlush ?k ?d ?s] =>
    let e := fresh "e" in let s1 := fresh "s1" in let E := fresh "E" in
    let p := fresh "p" in let l := fresh "l" in
    destruct (wireSendFlush k d s) as [e s1] eqn:E;
    apply wireSendFlush_inv in E; destruct E as [p [l [-> _]]]
  end.

Lemma RawError_terminated err s t :
  termSig s = Some t -> RawError err s = (tt, s).
Proof.
  intros H. destruct s; simpl in H; subst. reflexivity.
Qed.

Lemma RawError_emits err s :
  termSig s = None ->
  RawError err s =
    (tt, set_termSig (Some err_stream_terminated)
           (exec (wireSendFlush PayloadKind_Error (Error_text err)) s)).
Proof.
  intros H. unfold RawError, defer, bind, termSig_Set, ret, exec. simpl.
  rewrite H. simpl. emit_frame. simpl. rewrite H. reflexivity.
Qed.

Lemma RawCancel_terminated s t :
  termSig s = Some t ->
  RawCancel s = (tt, set_sig (Signal_Set context_Canceled (sig s)) s).
Proof.
  intros H. destruct s; simpl in H; subst. reflexivity.
Qed.

Lemma RawCancel_emits s :
  termSig s = None ->
  RawCancel s =
    (tt, set_termSig (Some err_stream_terminated)
           (set_sig (Signal_Set context_Canceled (sig s))
              (exec (wireSendFlush PayloadKind_Cancel []) s))).
Proof.
  intros H. unfold RawCancel, defer, bind, termSig_Set, sig_Set, ret, exec. simpl.
  rewrite H. simpl. emit_frame. simpl. rewrite H. reflexivity.
Qed.

Lemma CloseSend_already_closed s e :
  sig s = None -> termSig s = None -> sendSig s = Some e ->
  CloseSend s = (None, s).
Proof.
  intros H1 H2 H3. destruct s; simpl in H1, H2, H3; subst. reflexivity.
Qed.

Lemma CloseSend_denied s e :
  result pollSend s = (Some e, false) ->
  CloseSend s =
    (Some e, set_sendSig (Signal_Set err_send_after_CloseSend (sendSig s)) s).
Proof.
  intros H. unfold CloseSend, defer, bind, sendSig_Set.
  rewrite pollSend_eq, H. reflexivity.
Qed.

Lemma CloseSend_emits s :
  sig s = None -> termSig s = None -> sendSig s = None ->
  CloseSend s =
    (result (wireSendFlush PayloadKind_CloseSend []) s,
     set_sendSig (Some err_send_after_CloseSend)
       (exec (wireSendFlush PayloadKind_CloseSend []) s)).
Proof.
  intros H1 H2 H3. unfold CloseSend, defer, bind, sendSig_Set, result, exec.
  rewrite pollSend_eq, pollSend_table, H1, H2, H3. simpl.
  emit_frame. simpl. rewrite H3. reflexivity.
Qed.

Lemma Close_denied s e :
  result pollSend s = (Some e, false) ->
  Close s =
    (None,
     set_sendSig (Signal_Set err_send_after_CloseSend (sendSig s))
       (set_termSig (Signal_Set err_stream_terminated (termSig s))
          (set_sig (Signal_Set err_stream_closed (sig s)) s))).
Proof.
  intros H. unfold Close, defer, bind, sendSig_Set, termSig_Set, sig_Set.
  rewrite pollSend_eq, H. reflexivity.
Qed.

Lemma Close_emits s :
  sig s = None -> termSig s = None ->
  Close s =
    (result (wireSendFlush PayloadKind_CloseSend []) s,
     set_sendSig (Signal_Set err_send_after_CloseSend (sendSig s))
       (set_termSig (Some err_stream_terminated)
          (set_sig (Some err_stream_closed)
             (exec (wireSendFlush PayloadKind_CloseSend []) s)))).
Proof.
  intros H1 H2. unfold Close, defer, bind, sendSig_Set, termSig_Set, sig_Set, result, exec.
  rewrite pollSend_eq, pollSend_table, H1, H2.
  destruct (sendSig s) as [e|] eqn:H3; simpl; emit_frame; simpl;
    rewrite H1, H2, H3; reflexivity.
Qed.

Lemma RawFlush_denied s e :
  fst (result pollSend s) = Some e -> RawFlush s = (Some e, s).
Proof.
  intros H. unfold RawFlush, bind. rewrite pollSend_eq. simpl. rewrite H. reflexivity.
Qed.

(** ** Receiving *)

(** With [sig] unset at the first check and still unset at the [select],
    what [RawRecv] returns is the one ready case of the [select]. *)
Lemma RawRecv_is_select s r s' :
  sig s = None -> (RawRecv s = (Some r, s') <-> RawRecv_select s r s').
Proof.
  intros H. unfold RawRecv. rewrite H. simpl. split.
  - destruct (items (queue s)) as [|p rest] eqn:Hq.
    + destruct (closed (queue s)) eqn:Hc; intros E; inversion E; subst.
      apply select_closed; assumption.
    + intros E; inversion E; subst. apply select_packet. exact Hq.
  - intros Hsel. inversion Hsel as [e He | p rest Hq | Hq Hc]; subst.
    + congruence.
    + rewrite Hq. reflexivity.
    + rewrite Hq, Hc. reflexivity.
Qed.

(** ** After the terminal latch *)

Lemma RawRecv_buf s : buf (exec RawRecv s) = buf s.
Proof.
  unfold exec, RawRecv. destruct (sig s); simpl; [reflexivity|].
  destruct (items (queue s)); [destruct (closed (queue s))|]; reflexivity.
Qed.

(** Once [termSig] holds a value no step hands anything to the writer. *)
Lemma step_quiet o s t : termSig s = Some t -> buf (step o s) = buf s.
Proof.
  intros H. destruct (pollSend_terminated s t H) as [e He].
  assert (Hd : fst (result pollSend s) = Some e) by (rewrite He; reflexivity).
  destruct o; simpl; unfold exec.
  - rewrite (RawSend_denied _ _ s e Hd). reflexivity.
  - rewrite (RawFlush_denied s e Hd). reflexivity.
  - apply RawRecv_buf.
  - rewrite (RawError_terminated _ s t H). reflexivity.
  - rewrite (RawCancel_terminated s t H). reflexivity.
  - unfold MsgSend. destruct (proto_Marshal msg) as [data [err|]]; [reflexivity|].
    unfold bind. rewrite (RawSend_denied _ _ s e Hd). reflexivity.
  - unfold MsgRecv, bind. pose proof (RawRecv_buf s) as Hb. unfold exec in Hb.
    destruct (RawRecv s) as [[[[p|] [err|]]|] s1]; exact Hb.
  - rewrite (CloseSend_denied s e He). reflexivity.
  - rewrite (Close_denied s e He). reflexivity.
  - reflexivity.
  - unfold monitor_sig. destruct (monitoring s); [|reflexivity].
    destruct (Signal_Err (sig s)); [|reflexivity].
    rewrite (RawError_terminated _ (set_monitoring false s) t H). reflexivity.
  - unfold monitor_ctx. destruct (monitoring s && ctx_done s); [|reflexivity].
    rewrite (RawCancel_terminated (set_monitoring false s) t H). reflexivity.
  - unfold enqueue.
    destruct (closed (queue s) || (queue_capacity <=? length (items (queue s)))%nat);
      reflexivity.
  - reflexivity.
  - destruct w; reflexivity.
  - reflexivity.
Qed.

Lemma run_quiet ops : forall s t,
  termSig s = Some t ->
  buf (run ops s) = buf s /\ terminal_emissions ops s = 0%nat.
Proof.
  induction ops as [|o ops IH]; intros s t H; simpl; [split; reflexivity|].
  pose proof (step_quiet o s t H) as Hq.
  pose proof (ev_termSig _ _ (step_evolves o s) t H) as Ht.
  destruct (IH _ _ Ht) as [Hb Hn].
  split; [congruence|].
  rewrite Hn, (appended_same_buf _ _ Hq).
  destruct (is_terminal_op o); reflexivity.
Qed.

Lemma Close_latches s :
  sendSig (exec Close s) = Some (match sendSig s with Some e => e
                                 | None => err_send_after_CloseSend end) /\
  termSig (exec Close s) = Some (match termSig s with Some e => e
                                 | None => err_stream_terminated end) /\
  sig (exec Close s) = Some (match sig s with Some e => e
                             | None => err_stream_closed end).
Proof.
  unfold exec.
  destruct (sig s) as [e1|] eqn:H1.
  - rewrite (Close_denied s e1) by (rewrite pollSend_table, H1; reflexivity).
    simpl. rewrite H1. destruct (sendSig s), (termSig s); auto.
  - destruct (termSig s) as [e2|] eqn:H2.
    + rewrite (Close_denied s e2) by (rewrite pollSend_table, H1, H2; reflexivity).
      simpl. rewrite H1, H2. destruct (sendSig s); auto.
    + rewrite (Close_emits s H1 H2). simpl. destruct (sendSig s); auto.
Qed.

(** A terminal step that is not a disabled monitor step leaves [termSig]
    latched. *)
Lemma terminal_step_latches o s :
  is_terminal_op o = true -> step o s = s \/ exists t, termSig (step o s) = Some t.
Proof.
  intros Ho. destruct o; try discriminate Ho; simpl; unfold exec.
  - destruct (termSig s) as [t|] eqn:H.
    + left. rewrite (RawError_terminated _ s t H). reflexivity.
    + right. rewrite (RawError_emits _ s H). simpl. eauto.
  - right. destruct (termSig s) as [t|] eqn:H.
    + rewrite (RawCancel_terminated s t H). simpl. eauto.
    + rewrite (RawCancel_emits s H). simpl. eauto.
  - right. destruct (Close_latches s) as [_ [Ht _]]. unfold exec in Ht. eauto.
  - unfold monitor_sig. destruct (monitoring s); [|left; reflexivity].
    destruct (Signal_Err (sig s)) as [e|]; [|left; reflexivity].
    right. destruct (termSig (set_monitoring false s)) as [t|] eqn:H.
    + rewrite (RawError_terminated _ _ t H). simpl. eauto.
    + rewrite (RawError_emits _ _ H). simpl. eauto.
  - unfold monitor_ctx. destruct (monitoring s && ctx_done s); [|left; reflexivity].
    right. destruct (termSig (set_monitoring false s)) as [t|] eqn:H.
    + rewrite (RawCancel_terminated _ t H). simpl. eauto.
    + rewrite (RawCancel_emits _ H). simpl. eauto.
Qed.

Lemma appended_refl s : appended s s = [].
Proof. apply appended_same_buf. reflexivity. Qed.

(** Whatever a step hands to the writer by one call of [wireSendFlush] are
    packets of the kind passed to it. *)
Lemma appended_frame s s0 s' kind data :
  calls (buf s0) = calls (buf s) ->
  calls (buf s') = calls (buf (exec (wireSendFlush kind data) s0)) ->
  Forall (fun p => pkt_Kind p = kind) (written (appended s s')).
Proof.
  intros H0 H'. destruct (wireSendFlush_shape kind data s0) as [p [l [Hs Ht]]].
  rewrite Hs in H'. simpl in H'. rewrite H0 in H'.
  rewrite (appended_app _ _ _ H'). revert Ht. apply Forall_impl.
  intros q [_ Hq]. exact Hq.
Qed.

Lemma terminal_emissions_le_1 ops : forall s, (terminal_emissions ops s <= 1)%nat.
Proof.
  induction ops as [|o ops IH]; intros s; simpl; [lia|].
  destruct (is_terminal_op o) eqn:Ho; [|apply IH].
  destruct (terminal_step_latches o s Ho) as [Hs | [t Ht]].
  - rewrite Hs, appended_refl. apply IH.
  - destruct (run_quiet ops _ _ Ht) as [_ ->].
    destruct (appended s (step o s)); simpl; lia.
Qed.

Lemma RawError_kind err s :
  Forall (fun p => pkt_Kind p = PayloadKind_Error)
         (written (appended s (exec (RawError err) s))).
Proof.
  destruct (termSig s) as [t|] eqn:H; unfold exec.
  - rewrite (RawError_terminated err s t H). simpl. rewrite appended_refl. constructor.
  - rewrite (RawError_emits err s H). simpl.
    apply appended_frame with (s0 := s) (data := Error_text err); reflexivity.
Qed.

Lemma RawCancel_kind s :
  Forall (fun p => pkt_Kind p = PayloadKind_Cancel)
         (written (appended s (exec RawCancel s))).
Proof.
  destruct (termSig s) as [t|] eqn:H; unfold exec.
  - rewrite (RawCancel_terminated s t H). simpl.
    rewrite appended_same_buf by reflexivity. constructor.
  - rewrite (RawCancel_emits s H). simpl.
    apply appended_frame with (s0 := s) (data := []); reflexivity.
Qed.

Lemma Close_kind s :
  Forall (fun p => pkt_Kind p = PayloadKind_CloseSend)
         (written (appended s (exec Close s))).
Proof.
  unfold exec. pose proof (pollSend_table s) as Ht.
  destruct (sig s) as [e1|] eqn:H1;
    [rewrite (Close_denied s e1 Ht); simpl;
     rewrite appended_same_buf by reflexivity; constructor|].
  destruct (termSig s) as [e2|] eqn:H2;
    [rewrite (Close_denied s e2 Ht); simpl;
     rewrite appended_same_buf by reflexivity; constructor|].
  rewrite (Close_emits s H1 H2). simpl.
  apply appended_frame with (s0 := s) (data := []); reflexivity.
Qed.

End Facts.

(** ** Packet identifiers *)

Section Identifiers.

Context {C : Collaborators}.

Lemma uint64_add_small m :
  0 <= m -> m + 1 < uint64_modulus -> uint64_add m 1 = m + 1.
Proof. intros H1 H2. unfold uint64_add. apply Z.mod_small. lia. Qed.

(** The identifier the next call of [nextPid] returns. *)
Definition tagged_next (s : Stream) (p : Packet) : Prop :=
  pkt_ID p = mkPacketID (streamID s) (uint64_add (messageID s) 1).

(** A step that draws no identifier and hands the writer no packet. *)
Definition silent (s s' : Stream) : Prop :=
  streamID s' = streamID s /\ messageID s' = messageID s /\
  exists l, calls (buf s') = calls (buf s) ++ l /\ written l = [].

(** A step draws at most one identifier; the packets it hands to the writer
    all carry the identifier it drew. *)
Definition footprint (s s' : Stream) : Prop :=
  streamID s' = streamID s /\
  (messageID s' = messageID s \/ messageID s' = uint64_add (messageID s) 1) /\
  exists l, calls (buf s') = calls (buf s) ++ l /\
            Forall (tagged_next s) (written l) /\
            (written l <> [] -> messageID s' = uint64_add (messageID s) 1).

Lemma silent_refl s : silent s s.
Proof.
  repeat split. exists []. rewrite app_nil_r. split; reflexivity.
Qed.

Lemma silent_footprint s s' : silent s s' -> footprint s s'.
Proof.
  intros [H1 [H2 [l [H3 H4]]]]. split; [exact H1|]. split; [left; exact H2|].
  exists l. rewrite H4. repeat split; [exact H3 | constructor | congruence].
Qed.

Lemma silent_then_footprint s s1 s2 :
  silent s s1 -> footprint s1 s2 -> footprint s s2.
Proof.
  intros [H1 [H2 [l [H3 H4]]]] [G1 [G2 [l' [G3 [G4 G5]]]]].
  unfold tagged_next in *. rewrite H1, H2 in *.
  split; [exact G1|]. split; [exact G2|].
  exists (l ++ l'). rewrite G3, H3, written_app, H4, <- app_assoc. simpl.
  split; [reflexivity|]. split; [exact G4 | exact G5].
Qed.

Lemma footprint_then_silent s s1 s2 :
  footprint s s1 -> silent s1 s2 -> footprint s s2.
Proof.
  intros [G1 [G2 [l' [G3 [G4 G5]]]]] [H1 [H2 [l [H3 H4]]]].
  split; [congruence|]. split; [rewrite H2; exact G2|].
  exists (l' ++ l). rewrite H3, G3, written_app, H4, app_nil_r, H2, <- app_assoc.
  split; [reflexivity|]. split; [exact G4 | exact G5].
Qed.

(** The state a frame emission leaves, up to the latches. *)
Lemma footprint_frame s s' l :
  streamID s' = streamID s ->
  messageID s' = uint64_add (messageID s) 1 ->
  calls (buf s') = calls (buf s) ++ l ->
  Forall (fun q => pkt_ID q = mkPacketID (streamID s) (uint64_add (messageID s) 1))
         (written l) ->
  footprint s s'.
Proof.
  intros H1 H2 H3 H4. split; [exact H1|]. split; [right; exact H2|].
  exists l. split; [exact H3|]. split; [exact H4 | intros _; exact H2].
Qed.

Lemma Forall_tag_only {kind} {id} {l : list Packet} :
  Forall (fun q => pkt_ID q = id /\ pkt_Kind q = kind) l ->
  Forall (fun q => pkt_ID q = id) l.
Proof. apply Forall_impl. intros q [H _]. exact H. Qed.

Lemma footprint_wireSendFlush kind data s :
  footprint s (exec (wireSendFlush kind data) s).
Proof.
  destruct (wireSendFlush_shape kind data s) as [p [l [Hs Ht]]].
  rewrite Hs. eapply footprint_frame; try reflexivity.
  exact (Forall_tag_only Ht).
Qed.

(** [RawSend] draws exactly one identifier, and whatever it hands to the
    writer is a prefix of the frame cut for that identifier: the whole
    frame when it succeeds. *)
Lemma RawSend_frame kind data s :
  messageID (exec (RawSend kind data) s) = uint64_add (messageID s) 1 /\
  streamID (exec (RawSend kind data) s) = streamID s /\
  exists l r,
    calls (buf (exec (RawSend kind data) s)) = calls (buf s) ++ map CWrite l /\
    frame_packets kind (result nextPid s) data = l ++ r /\
    (result (RawSend kind data) s = None -> r = []).
Proof.
  unfold result, exec.
  destruct (fst (result pollSend s)) as [e|] eqn:H.
  - rewrite (RawSend_denied kind data s e H). simpl.
    repeat split. exists [], (frame_packets kind (fst (nextPid s)) data). simpl.
    rewrite app_nil_r. repeat split. discriminate.
  - destruct (RawSend_allowed kind data s H) as [p [l [r [Hf [[Hs Hr] | [e Hs]]]]]];
      rewrite Hs; simpl; repeat split; exists (p :: l), r;
      (split; [reflexivity|]); (split; [exact Hf|]); congruence.
Qed.

Lemma footprint_RawSend kind data s : footprint s (exec (RawSend kind data) s).
Proof.
  destruct (RawSend_frame kind data s) as [Hm [Hi [l [r [Hc [Hf _]]]]]].
  eapply footprint_frame; try eassumption.
  rewrite written_map_CWrite.
  pose proof (frame_packets_tagged kind (result nextPid s) data) as Ht.
  rewrite Hf in Ht. apply Forall_app in Ht. destruct Ht as [Ht _].
  exact (Forall_tag_only Ht).
Qed.

Lemma silent_RawFlush s : silent s (exec RawFlush s).
Proof.
  unfold exec. destruct (fst (result pollSend s)) as [e|] eqn:H.
  - rewrite (RawFlush_denied s e H). apply silent_refl.
  - unfold RawFlush, bind, buf_Flush. rewrite pollSend_eq, H.
    destruct (Flush_result (calls (buf s))); simpl;
      repeat split; exists [CFlush]; split; reflexivity.
Qed.

Lemma silent_RawRecv s : silent s (exec RawRecv s).
Proof.
  unfold exec, RawRecv. destruct (sig s); simpl; [apply silent_refl|].
  destruct (items (queue s)); [destruct (closed (queue s)); apply silent_refl|].
  repeat split. exists []. simpl. rewrite app_nil_r. split; reflexivity.
Qed.

Lemma silent_latch s s' :
  streamID s' = streamID s -> messageID s' = messageID s -> buf s' = buf s ->
  silent s s'.
Proof.
  intros H1 H2 H3. split; [exact H1|]. split; [exact H2|].
  exists []. rewrite H3, app_nil_r. split; reflexivity.
Qed.

Lemma footprint_latch s s1 s2 :
  footprint s s1 ->
  streamID s2 = streamID s1 -> messageID s2 = messageID s1 -> buf s2 = buf s1 ->
  footprint s s2.
Proof.
  intros H H1 H2 H3. eapply footprint_then_silent; [exact H|].
  apply silent_latch; assumption.
Qed.

Lemma footprint_RawError err s : footprint s (exec (RawError err) s).
Proof.
  unfold exec. destruct (termSig s) as [t|] eqn:H.
  - rewrite (RawError_terminated err s t H). apply silent_footprint, silent_refl.
  - rewrite (RawError_emits err s H).
    eapply footprint_latch; [apply footprint_wireSendFlush | | |]; reflexivity.
Qed.

Lemma footprint_RawCancel s : footprint s (exec RawCancel s).
Proof.
  unfold exec. destruct (termSig s) as [t|] eqn:H.
  - rewrite (RawCancel_terminated s t H).
    apply silent_footprint, silent_latch; reflexivity.
  - rewrite (RawCancel_emits s H).
    eapply footprint_latch; [apply footprint_wireSendFlush | | |]; reflexivity.
Qed.

Lemma footprint_CloseSend s : footprint s (exec CloseSend s).
Proof.
  unfold exec. pose proof (pollSend_table s) as Ht.
  destruct (sig s) as [e1|] eqn:H1;
    [rewrite (CloseSend_denied s e1 Ht);
     apply silent_footprint, silent_latch; reflexivity|].
  destruct (termSig s) as [e2|] eqn:H2;
    [rewrite (CloseSend_denied s e2 Ht);
     apply silent_footprint, silent_latch; reflexivity|].
  destruct (sendSig s) as [e3|] eqn:H3.
  - rewrite (CloseSend_already_closed s e3 H1 H2 H3).
    apply silent_footprint, silent_refl.
  - rewrite (CloseSend_emits s H1 H2 H3).
    eapply footprint_latch; [apply footprint_wireSendFlush | | |]; reflexivity.
Qed.

Lemma footprint_Close s : footprint s (exec Close s).
Proof.
  unfold exec. pose proof (pollSend_table s) as Ht.
  destruct (sig s) as [e1|] eqn:H1;
    [rewrite (Close_denied s e1 Ht);
     apply silent_footprint, silent_latch; reflexivity|].
  destruct (termSig s) as [e2|] eqn:H2;
    [rewrite (Close_denied s e2 Ht);
     apply silent_footprint, silent_latch; reflexivity|].
  rewrite (Close_emits s H1 H2).
  eapply footprint_latch; [apply footprint_wireSendFlush | | |]; reflexivity.
Qed.

Lemma footprint_MsgSend msg s : footprint s (exec (MsgSend msg) s).
Proof.
  unfold exec, MsgSend.
  destruct (proto_Marshal msg) as [data [err|]];
    [apply silent_footprint, silent_refl|].
  unfold bind. pose proof (footprint_RawSend PayloadKind_Message data s) as H.
  unfold exec in H. destruct (RawSend PayloadKind_Message data s) as [[e|] s1];
    [exact H|].
  eapply footprint_then_silent; [exact H | apply silent_RawFlush].
Qed.

Lemma silent_MsgRecv s : silent s (exec MsgRecv s).
Proof.
  unfold exec, MsgRecv, bind. pose proof (silent_RawRecv s) as H. unfold exec in H.
  destruct (RawRecv s) as [[[[p|] [err|]]|] s1]; exact H.
Qed.

Lemma step_footprint o s : footprint s (step o s).
Proof.
  destruct o; simpl.
  - apply footprint_RawSend.
  - apply silent_footprint, silent_RawFlush.
  - apply silent_footprint, silent_RawRecv.
  - apply footprint_RawError.
  - apply footprint_RawCancel.
  - apply footprint_MsgSend.
  - apply silent_footprint, silent_MsgRecv.
  - apply footprint_CloseSend.
  - apply footprint_Close.
  - apply silent_footprint, silent_latch; reflexivity.
  - unfold exec, monitor_sig. destruct (monitoring s); [|apply silent_footprint, silent_refl].
    destruct (Signal_Err (sig s)); [|apply silent_footprint, silent_refl].
    apply silent_then_footprint with (s1 := set_monitoring false s);
      [apply silent_latch; reflexivity | apply footprint_RawError].
  - unfold exec, monitor_ctx.
    destruct (monitoring s && ctx_done s); [|apply silent_footprint, silent_refl].
    apply silent_then_footprint with (s1 := set_monitoring false s);
      [apply silent_latch; reflexivity | apply footprint_RawCancel].
  - unfold exec, enqueue.
    destruct (closed (queue s) || (queue_capacity <=? length (items (queue s)))%nat);
      apply silent_footprint, silent_latch; reflexivity.
  - apply silent_footprint, silent_latch; reflexivity.
  - destruct w; apply silent_footprint, silent_latch; reflexivity.
  - apply silent_footprint, silent_latch; reflexivity.
Qed.

(** Along a run that cannot wrap the 64-bit counter, the counter only
    grows, by at most one per step, and every packet handed to the writer
    carries the stream's identifier and a message identifier above the
    counter's value at the start of the run. *)
Lemma run_ids ops : forall s,
  0 <= messageID s ->
  messageID s + Z.of_nat (length ops) < uint64_modulus ->
  streamID (run ops s) = streamID s /\
  messageID s <= messageID (run ops s) <= messageID s + Z.of_nat (length ops) /\
  exists l,
    calls (buf (run ops s)) = calls (buf s) ++ l /\
    Forall (fun p => StreamID (pkt_ID p) = streamID s /\
                     messageID s < MessageID (pkt_ID p) <= messageID (run ops s))
           (written l).
Proof.
  induction ops as [|o ops IH]; intros s H0 Hb.
  - simpl. repeat split; try lia. exists []. rewrite app_nil_r. split; [reflexivity|constructor].
  - change (run (o :: ops) s) with (run ops (step o s)).
    change (length (o :: ops)) with (S (length ops)) in *.
    destruct (step_footprint o s) as [G1 [G2 [l1 [G3 [G4 G5]]]]].
    rewrite (uint64_add_small (messageID s)) in * by lia.
    destruct (IH (step o s)) as [I1 [I2 [l2 [I3 I4]]]]; [lia | lia |].
    split; [congruence|]. split; [lia|].
    exists (l1 ++ l2). split; [rewrite I3, G3, app_assoc; reflexivity|].
    rewrite written_app. apply Forall_app. split.
    + destruct (written l1) as [|q ql] eqn:Hw; [constructor|].
      assert (Hm : messageID (step o s) = messageID s + 1) by (apply G5; discriminate).
      revert G4. apply Forall_impl. intros p Hp. unfold tagged_next in Hp.
      rewrite Hp. simpl. rewrite (uint64_add_small (messageID s)) by lia.
      split; [reflexivity | lia].
    + revert I4. apply Forall_impl. intros p [Hp1 Hp2].
      split; [congruence | lia].
Qed.

(** Successful [RawSend]s in a row: call number [i] hands the writer the
    whole frame cut for the identifier [messageID s + i]. *)
Lemma RawSend_trace_ids msgs : forall s,
  0 <= messageID s ->
  messageID s + Z.of_nat (length msgs) < uint64_modulus ->
  Forall (fun t => fst t = None) (RawSend_trace msgs s) ->
  exists ids : list Z,
    Forall (fun m => messageID s < m) ids /\
    StronglySorted Z.lt ids /\
    Forall2 (fun m t =>
               snd t <> [] /\
               Forall (fun p => pkt_ID p = mkPacketID (streamID s) m) (snd t))
            ids (RawSend_trace msgs s) /\
    map snd (RawSend_trace msgs s)
      = map (fun x => frame_packets (fst (snd x))
                        (mkPacketID (streamID s) (fst x)) (snd (snd x)))
            (combine ids msgs).
Proof.
  induction msgs as [|[kind data] rest IH]; intros s H0 Hb Hok.
  - exists []. simpl. repeat split; constructor.
  - change (length ((kind, data) :: rest)) with (S (length rest)) in Hb.
    simpl in Hok |- *.
    destruct (RawSend_frame kind data s) as [Hm [Hi [l [r [Hc [Hf Hr]]]]]].
    unfold result, exec in Hm, Hi, Hc, Hr.
    destruct (RawSend kind data s) as [err s1] eqn:E. simpl in Hm, Hi, Hc, Hr.
    inversion Hok as [|? ? Herr Hok']; subst. simpl in Herr. subst err.
    rewrite (Hr eq_refl), app_nil_r in Hf. clear Hr.
    rewrite (uint64_add_small (messageID s)) in Hm by lia.
    assert (Hw : written (appended s s1) = l)
      by (rewrite (appended_app _ _ _ Hc); apply written_map_CWrite).
    assert (Hid : result nextPid s = mkPacketID (streamID s) (messageID s + 1)).
    { unfold result, nextPid. simpl. rewrite (uint64_add_small (messageID s)) by lia.
      reflexivity. }
    rewrite Hid in Hf.
    destruct (IH s1) as [ids [I1 [I2 [I3 I4]]]]; [lia | lia | exact Hok' |].
    rewrite Hi in I3, I4. rewrite Hm in I1.
    exists ((messageID s + 1) :: ids). split; [|split; [|split]].
    + constructor; [lia|]. revert I1. apply Forall_impl. intros; lia.
    + constructor; [exact I2 | exact I1].
    + constructor; [|exact I3]. simpl. rewrite Hw, <- Hf. split.
      * destruct (frame_packets_cons kind (mkPacketID (streamID s) (messageID s + 1)) data)
          as [d [ds ->]]. discriminate.
      * exact (Forall_tag_only (frame_packets_tagged _ _ _)).
    + simpl. rewrite Hw, I4, <- Hf. reflexivity.
Qed.

Lemma StronglySorted_app {A} (R : A -> A -> Prop) l1 : forall l2,
  StronglySorted R l1 -> StronglySorted R l2 ->
  (forall x y, In x l1 -> In y l2 -> R x y) ->
  StronglySorted R (l1 ++ l2).
Proof.
  induction l1 as [|a l1 IH]; intros l2 H1 H2 Hx; simpl; [exact H2|].
  inversion H1 as [|? ? Hs Hall]; subst. constructor.
  - apply IH; [exact Hs | exact H2 |]. intros x y Hin. apply Hx. right. exact Hin.
  - apply Forall_app. split; [exact Hall|].
    apply Forall_forall. intros y Hy. apply Hx; [left; reflexivity | exact Hy].
Qed.

(** The message identifiers the writer sees, packet by packet. *)
Definition seen_ids (pkts : list Packet) : list Z :=
  map (fun p => MessageID (pkt_ID p)) pkts.

(** Blocks of packets, each block carrying one identifier, the identifiers
    strictly increasing block by block: packet by packet the identifiers
    never decrease. *)
Lemma blocks_nondecreasing sid ids (trace : list (goerror * list Packet)) :
  Forall2 (fun m t =>
             snd t <> [] /\
             Forall (fun p => pkt_ID p = mkPacketID sid m) (snd t)) ids trace ->
  StronglySorted Z.lt ids ->
  StronglySorted Z.le (seen_ids (concat (map snd trace))) /\
  Forall (fun x => In x ids) (seen_ids (concat (map snd trace))).
Proof.
  induction 1 as [|m t ids trace [_ Ht] HF IH]; intros Hs; simpl.
  - split; constructor.
  - inversion Hs as [|? ? Hs' Hall]; subst.
    destruct (IH Hs') as [I1 I2].
    unfold seen_ids in *. rewrite map_app.
    assert (Hblock : Forall (fun x => x = m) (map (fun p => MessageID (pkt_ID p)) (snd t))).
    { apply Forall_forall. intros x Hx. apply in_map_iff in Hx.
      destruct Hx as [p [<- Hp]]. rewrite Forall_forall in Ht.
      rewrite (Ht p Hp). reflexivity. }
    split.
    + apply StronglySorted_app.
      * clear -Hblock. induction Hblock as [|x l Hx Hl IH]; constructor; [exact IH|].
        revert Hl. apply Forall_impl. intros; lia.
      * exact I1.
      * intros x y Hx Hy. rewrite Forall_forall in Hblock, I2, Hall.
        specialize (Hblock x Hx). specialize (Hall y (I2 y Hy)). lia.
    + apply Forall_app. split.
      * revert Hblock. apply Forall_impl. intros x ->. left. reflexivity.
      * revert I2. apply Forall_impl. intros x Hx. right. exact Hx.
Qed.

Lemma StronglySorted_lt_NoDup l : StronglySorted Z.lt l -> NoDup l.
Proof.
  induction 1 as [|a l Hs IH Hall]; constructor; [|exact IH].
  intros Hin. rewrite Forall_forall in Hall. specialize (Hall a Hin). lia.
Qed.

End Identifiers.

(** * Control frames in the writer history *)

Section ControlFrames.

Context {C : Collaborators}.

(** The control packets (Error, Cancel, CloseSend) of a writer history, in
    the order the writer got them. *)
Definition control_packets (l : list Call) : list Packet :=
  filter (fun p => is_control (pkt_Kind p)) (written l).

Definition is_error_or_cancel (p : Packet) : bool :=
  match pkt_Kind p with
  | PayloadKind_Error | PayloadKind_Cancel => true
  | _ => false
  end.

(** The Error and Cancel frames a writer history holds: the distinct packet
    identifiers of its Error and Cancel packets. *)
Definition error_or_cancel_frames (l : list Call) : list PacketID :=
  nodup PacketID_eq_dec (map pkt_ID (filter is_error_or_cancel (written l))).

(** [RawSend] is public and takes any payload kind.  The steps of a run in
    which it is used for messages only. *)
Definition sends_messages_only (o : Op) : bool :=
  match o with
  | CallRawSend kind _ => negb (is_control kind)
  | _ => true
  end.

Lemma Forall_filter_keep {A} (P : A -> Prop) f (l : list A) :
  Forall P l -> Forall P (filter f l).
Proof.
  induction 1 as [|x l Hx _ IH]; simpl; [constructor|].
  destruct (f x); [constructor; assumption|exact IH].
Qed.

Lemma control_packets_app l1 l2 :
  control_packets (l1 ++ l2) = control_packets l1 ++ control_packets l2.
Proof. unfold control_packets. rewrite written_app. apply filter_app. Qed.

Lemma no_control_packets l :
  Forall (fun p => pkt_Kind p = PayloadKind_Message) (written l) ->
  control_packets l = [].
Proof.
  unfold control_packets. induction 1 as [|p w Hp _ IH]; simpl; [reflexivity|].
  rewrite Hp. exact IH.
Qed.

Lemma appended_trans s0 s1 s2 :
  evolves s0 s1 -> evolves s1 s2 ->
  appended s0 s2 = appended s0 s1 ++ appended s1 s2.
Proof.
  intros [_ _ _ _ [l1 H1]] [_ _ _ _ [l2 H2]].
  rewrite (appended_app s0 s1 l1 H1), (appended_app s1 s2 l2 H2).
  apply appended_app. rewrite H2, H1, app_assoc. reflexivity.
Qed.

Lemma latched_IsSet g g' :
  latched g g' -> Signal_IsSet g = true -> Signal_IsSet g' = true.
Proof.
  intros L H. destruct g as [e|]; [|discriminate H]. rewrite (L e eq_refl). reflexivity.
Qed.

(** The packets one step hands to the writer carry the identifier the step
    drew; if they are control packets of one kind they form one frame. *)
Lemma frame_step s s' kind :
  footprint s s' ->
  Forall (fun p => pkt_Kind p = kind) (written (appended s s')) ->
  Forall (fun p => pkt_ID p = result nextPid s /\ pkt_Kind p = kind)
         (control_packets (appended s s')).
Proof.
  intros [_ [_ [l [Hl [Htag _]]]]] Hk.
  rewrite (appended_app s s' l Hl) in *.
  apply Forall_filter_keep.
  apply Forall_forall. intros p Hp. split.
  - exact (proj1 (Forall_forall _ _) Htag p Hp).
  - exact (proj1 (Forall_forall _ _) Hk p Hp).
Qed.

Lemma same_buf_no_control s s' : buf s' = buf s -> control_packets (appended s s') = [].
Proof. intros H. rewrite (appended_same_buf s s' H). reflexivity. Qed.

Lemma silent_no_control s s' : silent s s' -> control_packets (appended s s') = [].
Proof.
  intros [_ [_ [l [Hl Hw]]]]. rewrite (appended_app s s' l Hl).
  unfold control_packets. rewrite Hw. reflexivity.
Qed.

Lemma RawSend_kind kind data s :
  Forall (fun p => pkt_Kind p = kind) (written (appended s (exec (RawSend kind data) s))).
Proof.
  destruct (RawSend_frame kind data s) as [_ [_ [l [r [Hc [Hf _]]]]]].
  rewrite (appended_app _ _ _ Hc), written_map_CWrite.
  pose proof (frame_packets_tagged kind (result nextPid s) data) as Ht.
  rewrite Hf in Ht. apply Forall_app in Ht. destruct Ht as [Ht _].
  revert Ht. apply Forall_impl. intros p [_ Hp]. exact Hp.
Qed.

Lemma MsgSend_kind msg s :
  Forall (fun p => pkt_Kind p = PayloadKind_Message)
         (written (appended s (exec (MsgSend msg) s))).
Proof.
  unfold exec, MsgSend.
  destruct (proto_Marshal msg) as [data [err|]].
  - simpl. rewrite appended_refl. constructor.
  - unfold bind.
    pose proof (RawSend_kind PayloadKind_Message data s) as Hk.
    pose proof (monotone_RawSend PayloadKind_Message data s) as He.
    unfold exec in Hk.
    destruct (RawSend PayloadKind_Message data s) as [[e|] s1]; simpl in *;
      [exact Hk|].
    rewrite (appended_trans s s1 _ He (monotone_RawFlush s1)), written_app.
    apply Forall_app. split; [exact Hk|].
    destruct (silent_RawFlush s1) as [_ [_ [l [Hl Hw]]]].
    unfold exec in Hl. rewrite (appended_app _ _ _ Hl), Hw. constructor.
Qed.

Lemma CloseSend_kind s :
  Forall (fun p => pkt_Kind p = PayloadKind_CloseSend)
         (written (appended s (exec CloseSend s))).
Proof.
  destruct (sig s) as [e|] eqn:Hs; [|destruct (termSig s) as [t|] eqn:Ht;
                                     [|destruct (sendSig s) as [c|] eqn:Hc]].
  - unfold exec. rewrite (CloseSend_denied s e (pollSend_sig s e Hs)).
    rewrite appended_same_buf by reflexivity. constructor.
  - rewrite appended_same_buf by (apply (step_quiet CallCloseSend s t Ht)). constructor.
  - unfold exec. rewrite (CloseSend_already_closed s c Hs Ht Hc).
    rewrite appended_refl. constructor.
  - apply (appended_frame s s _ PayloadKind_CloseSend []); [reflexivity|].
    unfold exec at 1. rewrite (CloseSend_emits s Hs Ht Hc). reflexivity.
Qed.

Lemma CloseSend_latches_sendSig s : Signal_IsSet (sendSig (exec CloseSend s)) = true.
Proof.
  unfold exec, CloseSend, defer.
  match goal with |- context [let (_, _) := ?b s in _] => destruct (b s) as [a s1] end.
  simpl. apply Signal_Set_IsSet.
Qed.

(** What one step adds to the control packets of the writer history: nothing;
    or, with [sendSig] and [termSig] unset before it, one CloseSend frame,
    latching [sendSig]; or, with [termSig] unset before it, one frame of a
    single kind, latching [termSig]. *)
Lemma step_control_packets o s :
  sends_messages_only o = true ->
  control_packets (appended s (step o s)) = [] \/
  (sendSig s = None /\ termSig s = None /\
   Forall (fun p => pkt_ID p = result nextPid s /\ pkt_Kind p = PayloadKind_CloseSend)
          (control_packets (appended s (step o s))) /\
   Signal_IsSet (sendSig (step o s)) = true) \/
  (termSig s = None /\
   (exists kind,
      Forall (fun p => pkt_ID p = result nextPid s /\ pkt_Kind p = kind)
             (control_packets (appended s (step o s)))) /\
   Signal_IsSet (termSig (step o s)) = true).
Proof.
  intros Hm.
  destruct (termSig s) as [t|] eqn:Ht.
  { left. apply same_buf_no_control. exact (step_quiet o s t Ht). }
  pose proof (step_footprint o s) as Hfp.
  destruct o; cbn [step sends_messages_only] in *.
  - left. apply no_control_packets.
    destruct kind; try discriminate Hm. apply RawSend_kind.
  - left. apply silent_no_control, silent_RawFlush.
  - left. apply silent_no_control, silent_RawRecv.
  - right. right. split; [reflexivity|]. split.
    + exists PayloadKind_Error. apply (frame_step _ _ _ Hfp), RawError_kind.
    + unfold exec. rewrite (RawError_emits err s Ht). reflexivity.
  - right. right. split; [reflexivity|]. split.
    + exists PayloadKind_Cancel. apply (frame_step _ _ _ Hfp), RawCancel_kind.
    + unfold exec. rewrite (RawCancel_emits s Ht). reflexivity.
  - left. apply no_control_packets, MsgSend_kind.
  - left. apply silent_no_control, silent_MsgRecv.
  - destruct (sendSig s) as [c|] eqn:Hc.
    + left. apply same_buf_no_control. unfold exec.
      destruct (sig s) as [e|] eqn:Hs.
      * rewrite (CloseSend_denied s e (pollSend_sig s e Hs)). reflexivity.
      * rewrite (CloseSend_already_closed s c Hs Ht Hc). reflexivity.
    + right. left. split; [reflexivity|]. split; [reflexivity|]. split.
      * apply (frame_step _ _ _ Hfp), CloseSend_kind.
      * apply CloseSend_latches_sendSig.
  - right. right. split; [reflexivity|]. split.
    + exists PayloadKind_CloseSend. apply (frame_step _ _ _ Hfp), Close_kind.
    + destruct (Close_latches s) as [_ [H _]]. rewrite H. reflexivity.
  - left. apply same_buf_no_control. reflexivity.
  - unfold exec, monitor, monitor_sig in *.
    destruct (monitoring s); [|left; apply same_buf_no_control; reflexivity].
    destruct (Signal_Err (sig s)) as [e|];
      [|left; apply same_buf_no_control; reflexivity].
    right. right. split; [reflexivity|].
    rewrite (RawError_emits e (set_monitoring false s) Ht) in *. split.
    + exists PayloadKind_Error. apply (frame_step _ _ _ Hfp).
      apply (appended_frame s (set_monitoring false s) _ PayloadKind_Error (Error_text e));
        reflexivity.
    + reflexivity.
  - unfold exec, monitor, monitor_ctx in *.
    destruct (monitoring s && ctx_done s);
      [|left; apply same_buf_no_control; reflexivity].
    right. right. split; [reflexivity|].
    rewrite (RawCancel_emits (set_monitoring false s) Ht) in *. split.
    + exists PayloadKind_Cancel. apply (frame_step _ _ _ Hfp).
      apply (appended_frame s (set_monitoring false s) _ PayloadKind_Cancel []);
        reflexivity.
    + reflexivity.
  - left. apply same_buf_no_control. unfold exec, enqueue.
    destruct (closed (queue s) || (queue_capacity <=? length (items (queue s)))%nat);
      reflexivity.
  - left. apply same_buf_no_control. reflexivity.
  - left. apply same_buf_no_control. destruct w; reflexivity.
  - left. apply same_buf_no_control. reflexivity.
Qed.

(** The control packets handed to the writer between [s0] and [s']: a
    CloseSend frame of [CloseSend] (then [sendSig] is set), followed by a
    frame of a terminating operation (then [termSig] is set); either may be
    missing. *)
Definition two_frames (s0 s' : Stream) : Prop :=
  exists half_close terminal id1 id2 kind,
    control_packets (appended s0 s') = half_close ++ terminal /\
    Forall (fun p => pkt_ID p = id1 /\ pkt_Kind p = PayloadKind_CloseSend) half_close /\
    Forall (fun p => pkt_ID p = id2 /\ pkt_Kind p = kind) terminal /\
    (half_close <> [] -> Signal_IsSet (sendSig s') = true) /\
    (terminal <> [] -> Signal_IsSet (termSig s') = true).

Lemma two_frames_refl s : two_frames s s.
Proof.
  exists [], [], (result nextPid s), (result nextPid s), PayloadKind_CloseSend.
  rewrite appended_refl. repeat split; try constructor; intros H; contradiction H; reflexivity.
Qed.

Lemma unset_not_IsSet g : g = None -> Signal_IsSet g = true -> False.
Proof. intros ->. discriminate. Qed.

Lemma two_frames_step s0 s' o :
  evolves s0 s' -> sends_messages_only o = true ->
  two_frames s0 s' -> two_frames s0 (step o s').
Proof.
  intros Hev Hm [hc [tm [id1 [id2 [kind [Hctl [Hhc [Htm [Hsend Hterm]]]]]]]]].
  pose proof (step_evolves o s') as Hst.
  assert (Happ : control_packets (appended s0 (step o s'))
                 = (hc ++ tm) ++ control_packets (appended s' (step o s'))).
  { rewrite (appended_trans s0 s' _ Hev Hst), control_packets_app, Hctl. reflexivity. }
  assert (Hsend' : hc <> [] -> Signal_IsSet (sendSig (step o s')) = true).
  { intros H. apply (latched_IsSet (sendSig s')); [apply (ev_sendSig _ _ Hst)|auto]. }
  assert (Hterm' : tm <> [] -> Signal_IsSet (termSig (step o s')) = true).
  { intros H. apply (latched_IsSet (termSig s')); [apply (ev_termSig _ _ Hst)|auto]. }
  destruct (step_control_packets o s' Hm)
    as [Hnone | [[Hs [Ht [Hf Hset]]] | [Ht [[k Hf] Hset]]]].
  - exists hc, tm, id1, id2, kind.
    rewrite Happ, Hnone, app_nil_r. repeat split; assumption.
  - assert (Hhc0 : hc = []).
    { destruct hc as [|p hc]; [reflexivity|]. exfalso.
      apply (unset_not_IsSet _ Hs). apply Hsend. discriminate. }
    assert (Htm0 : tm = []).
    { destruct tm as [|p tm]; [reflexivity|]. exfalso.
      apply (unset_not_IsSet _ Ht). apply Hterm. discriminate. }
    subst hc tm.
    exists (control_packets (appended s' (step o s'))), [],
           (result nextPid s'), id2, kind.
    rewrite Happ. simpl. rewrite app_nil_r.
    split; [reflexivity|]. split; [exact Hf|]. split; [constructor|].
    split; [intros _; exact Hset|]. intros H. contradiction H. reflexivity.
  - assert (Htm0 : tm = []).
    { destruct tm as [|p tm]; [reflexivity|]. exfalso.
      apply (unset_not_IsSet _ Ht). apply Hterm. discriminate. }
    subst tm.
    exists hc, (control_packets (appended s' (step o s'))), id1, (result nextPid s'), k.
    rewrite Happ, app_nil_r.
    split; [reflexivity|]. split; [exact Hhc|]. split; [exact Hf|].
    split; [exact Hsend'|]. intros _. exact Hset.
Qed.

Lemma two_frames_run ops : forall s0 s',
  evolves s0 s' -> forallb sends_messages_only ops = true ->
  two_frames s0 s' -> two_frames s0 (run ops s').
Proof.
  induction ops as [|o ops IH]; intros s0 s' Hev Hm H; simpl in *; [exact H|].
  apply andb_true_iff in Hm. destruct Hm as [Ho Hops].
  apply IH; [|exact Hops|apply two_frames_step; assumption].
  eapply evolves_trans; [exact Hev|apply step_evolves].
Qed.

Lemma nodup_within {A} (dec : forall x y : A, {x = y} + {x <> y}) (l ref : list A) :
  (forall x, In x l -> In x ref) -> (length (nodup dec l) <= length ref)%nat.
Proof.
  intros H. apply NoDup_incl_length; [apply NoDup_nodup|].
  intros x Hx. apply H. apply (nodup_In dec). exact Hx.
Qed.

Lemma filter_error_or_cancel_control l :
  filter is_error_or_cancel (written l) = filter is_error_or_cancel (control_packets l).
Proof.
  unfold control_packets. induction (written l) as [|p w IH]; simpl; [reflexivity|].
  destruct (is_control (pkt_Kind p)) eqn:Hc; simpl.
  - destruct (is_error_or_cancel p); rewrite IH; reflexivity.
  - assert (He : is_error_or_cancel p = false)
      by (unfold is_error_or_cancel; destruct (pkt_Kind p); try discriminate Hc; reflexivity).
    rewrite He. exact IH.
Qed.

Lemma filter_error_or_cancel_CloseSend id l :
  Forall (fun p => pkt_ID p = id /\ pkt_Kind p = PayloadKind_CloseSend) l ->
  filter is_error_or_cancel l = [].
Proof.
  induction 1 as [|p l [_ Hk] _ IH]; simpl; [reflexivity|].
  unfold is_error_or_cancel at 1. rewrite Hk. exact IH.
Qed.

(** Two frames at most, and one Error or Cancel frame at most. *)
Lemma two_frames_count s0 s' :
  two_frames s0 s' ->
  (length (control_frames (appended s0 s')) <= 2)%nat /\
  (length (error_or_cancel_frames (appended s0 s')) <= 1)%nat.
Proof.
  intros [hc [tm [id1 [id2 [kind [Hctl [Hhc [Htm _]]]]]]]]. split.
  - unfold control_frames. fold (control_packets (appended s0 s')). rewrite Hctl.
    apply (nodup_within PacketID_eq_dec _ [id1; id2]).
    intros x Hx. apply in_map_iff in Hx. destruct Hx as [p [<- Hp]].
    apply in_app_or in Hp. destruct Hp as [Hp|Hp].
    + left. symmetry. exact (proj1 (proj1 (Forall_forall _ _) Hhc p Hp)).
    + right. left. symmetry. exact (proj1 (proj1 (Forall_forall _ _) Htm p Hp)).
  - unfold error_or_cancel_frames.
    rewrite filter_error_or_cancel_control, Hctl, filter_app,
      (filter_error_or_cancel_CloseSend id1 hc Hhc). simpl.
    apply (nodup_within PacketID_eq_dec _ [id2]).
    intros x Hx. apply in_map_iff in Hx. destruct Hx as [p [<- Hp]].
    apply filter_In in Hp. destruct Hp as [Hp _].
    left. symmetry. exact (proj1 (proj1 (Forall_forall _ _) Htm p Hp)).
Qed.

End ControlFrames.

(** * The claims *)

Section Claims.

Context {C : Collaborators}.

(** C1 (as amended).  The operations that terminate a stream ([RawError]
    and [RawCancel], either also when the monitor runs it, and [Close]) hand
    the writer at most one frame between them in any run, of the kind Error,
    Cancel and CloseSend respectively, and once one of them has returned no
    later step hands the writer anything.  The CloseSend frame of
    [CloseSend] is not under that guard, so [Close] after [CloseSend] does
    write a second control frame.  Over the writer history: in a run in
    which [RawSend] is given message payloads only, the control packets the
    writer receives are, in order, at most one CloseSend frame (one
    identifier; [sendSig] is set once it is written) followed by at most one
    frame of a single kind and identifier ([termSig] is set once it is
    written).  So the writer gets at most two control frames from a stream,
    and at most one Error or Cancel frame. *)
Theorem terminal_frame_at_most_once (ops : list Op) (s : Stream) :
  (terminal_emissions ops s <= 1)%nat /\
  buf (run ops (exec Close s)) = buf (exec Close s) /\
  buf (run ops (exec RawCancel s)) = buf (exec RawCancel s) /\
  (forall err, buf (run ops (exec (RawError err) s)) = buf (exec (RawError err) s)) /\
  Forall (fun p => pkt_Kind p = PayloadKind_CloseSend)
         (written (appended s (exec Close s))) /\
  Forall (fun p => pkt_Kind p = PayloadKind_Cancel)
         (written (appended s (exec RawCancel s))) /\
  (forall err, Forall (fun p => pkt_Kind p = PayloadKind_Error)
                      (written (appended s (exec (RawError err) s)))) /\
  (forallb sends_messages_only ops = true ->
   let h := appended s (run ops s) in
   (exists half_close terminal id1 id2 kind,
      control_packets h = half_close ++ terminal /\
      Forall (fun p => pkt_ID p = id1 /\ pkt_Kind p = PayloadKind_CloseSend) half_close /\
      Forall (fun p => pkt_ID p = id2 /\ pkt_Kind p = kind) terminal /\
      (half_close <> [] -> Signal_IsSet (sendSig (run ops s)) = true) /\
      (terminal <> [] -> Signal_IsSet (termSig (run ops s)) = true)) /\
   (length (control_frames h) <= 2)%nat /\
   (length (error_or_cancel_frames h) <= 1)%nat).
Proof.
  split; [apply terminal_emissions_le_1|].
  split; [|split; [|split; [|split; [|split; [|split]]]]].
  - destruct (Close_latches s) as [_ [Ht _]]. apply (run_quiet ops _ _ Ht).
  - destruct (terminal_step_latches CallRawCancel s eq_refl) as [Hs | [t Ht]].
    + simpl in Hs. destruct (termSig s) as [t|] eqn:H.
      * assert (Ht : termSig (exec RawCancel s) = Some t) by (rewrite Hs; exact H).
        apply (run_quiet ops _ _ Ht).
      * unfold exec in *. rewrite (RawCancel_emits s H) in *. simpl in *.
        rewrite <- Hs in H. discriminate H.
    + apply (run_quiet ops _ _ Ht).
  - intros err. destruct (termSig s) as [t|] eqn:H.
    + unfold exec. rewrite (RawError_terminated err s t H). simpl.
      apply (run_quiet ops _ _ H).
    + assert (Ht : termSig (exec (RawError err) s) = Some err_stream_terminated).
      { unfold exec. rewrite (RawError_emits err s H). reflexivity. }
      apply (run_quiet ops _ _ Ht).
  - apply Close_kind.
  - apply RawCancel_kind.
  - intros err. apply RawError_kind.
  - intros Hm h.
    assert (T : two_frames s (run ops s))
      by (apply two_frames_run; [apply evolves_refl|exact Hm|apply two_frames_refl]).
    split; [exact T|]. exact (two_frames_count s (run ops s) T).
Qed.

(** C4 (as amended).  After [Close] has returned, whatever steps follow,
    [RawSend] fails with the general error latched in [sig] (the "stream
    closed" marker when [sig] was unset before [Close], the earlier error
    otherwise): the first tier of the policy, not the send-closed one.  The
    writer is not called. *)
Theorem RawSend_after_Close (ops : list Op) (kind : PayloadKind) (data : Data)
        (s : Stream) :
  let s2 := run ops (exec Close s) in
  result (RawSend kind data) s2
    = Some (match sig s with Some e => e | None => err_stream_closed end) /\
  result pollSend s2
    = (Some (match sig s with Some e => e | None => err_stream_closed end), false) /\
  buf (exec (RawSend kind data) s2) = buf s2.
Proof.
  intros s2. destruct (Close_latches s) as [_ [_ Hsig]].
  pose proof (ev_sig _ _ (run_evolves ops (exec Close s)) _ Hsig) as H2.
  fold s2 in H2. pose proof (pollSend_sig s2 _ H2) as Hp.
  unfold result, exec. rewrite (RawSend_denied kind data s2 _) by (rewrite Hp; reflexivity).
  simpl. repeat split. exact Hp.
Qed.

(** C5.  When the policy reports an error that is not the already-closed
    indication (that is, [sig] or [termSig] holds a value), [Close] returns
    nil, draws no identifier and does not call the writer, and still latches
    [sendSig], [termSig] and [sig]. *)
Theorem Close_short_circuit (s : Stream) (e : error) :
  result pollSend s = (Some e, false) ->
  result Close s = None /\
  buf (exec Close s) = buf s /\
  messageID (exec Close s) = messageID s /\
  sendSig (exec Close s) = Signal_Set err_send_after_CloseSend (sendSig s) /\
  termSig (exec Close s) = Signal_Set err_stream_terminated (termSig s) /\
  sig (exec Close s) = Signal_Set err_stream_closed (sig s) /\
  Signal_IsSet (sendSig (exec Close s)) && Signal_IsSet (termSig (exec Close s))
    && Signal_IsSet (sig (exec Close s)) = true.
Proof.
  intros H. unfold result, exec. rewrite (Close_denied s e H). simpl.
  rewrite !Signal_Set_IsSet. repeat split.
Qed.

(** C6.  [pollSend] changes nothing and answers by the first latch that
    holds a value, in the order [sig], [termSig], [sendSig]: the general
    error, else the terminal error, else the send-closed error flagged as
    already closed, else nil.  [RawSend] and [RawFlush] consult it before
    they call the writer: on a denial they return its error and the writer
    is left alone. *)
Theorem pollSend_three_tier (s : Stream) :
  exec pollSend s = s /\
  result pollSend s =
    match sig s, termSig s, sendSig s with
    | Some general, _, _ => (Some general, false)
    | None, Some terminal, _ => (Some terminal, false)
    | None, None, Some send_closed => (Some send_closed, true)
    | None, None, None => (None, false)
    end /\
  match fst (result pollSend s) with
  | Some e =>
      (forall kind data,
         result (RawSend kind data) s = Some e /\
         buf (exec (RawSend kind data) s) = buf s) /\
      RawFlush s = (Some e, s)
  | None => True
  end.
Proof.
  split; [apply pollSend_pure|]. split; [apply pollSend_table|].
  destruct (fst (result pollSend s)) as [e|] eqn:H; [|exact I].
  split; [|apply RawFlush_denied; exact H].
  intros kind data. unfold result, exec.
  rewrite (RawSend_denied kind data s e H). split; reflexivity.
Qed.

(** C3.  [CloseSend] latches [sendSig] whatever happens.  With no general
    and no terminal error set: on a stream whose send half is still open it
    emits one CloseSend frame (one identifier, one or more packets of that
    kind handed to the writer) and latches [sendSig]; on a stream on which
    it has already completed it returns nil and changes nothing, so a second
    call right after the first emits no second frame. *)
Theorem CloseSend_idempotent (s : Stream) :
  Signal_IsSet (sendSig (exec CloseSend s)) = true /\
  (sig s = None -> termSig s = None ->
   match sendSig s with
   | Some _ => CloseSend s = (None, s)
   | None =>
     (exists p l,
        calls (buf (exec CloseSend s)) = calls (buf s) ++ CWrite p :: l /\
        Forall (fun q => pkt_ID q = mkPacketID (streamID s) (uint64_add (messageID s) 1)
                         /\ pkt_Kind q = PayloadKind_CloseSend)
               (written (CWrite p :: l))) /\
     messageID (exec CloseSend s) = uint64_add (messageID s) 1 /\
     sendSig (exec CloseSend s) = Some err_send_after_CloseSend /\
     CloseSend (exec CloseSend s) = (None, exec CloseSend s)
   end).
Proof.
  split.
  - unfold exec. pose proof (pollSend_table s) as Ht.
    destruct (sig s) as [e1|] eqn:H1;
      [rewrite (CloseSend_denied s e1 Ht); simpl; apply Signal_Set_IsSet|].
    destruct (termSig s) as [e2|] eqn:H2;
      [rewrite (CloseSend_denied s e2 Ht); simpl; apply Signal_Set_IsSet|].
    destruct (sendSig s) as [e3|] eqn:H3.
    + rewrite (CloseSend_already_closed s e3 H1 H2 H3). simpl. rewrite H3. reflexivity.
    + rewrite (CloseSend_emits s H1 H2 H3). reflexivity.
  - intros H1 H2. destruct (sendSig s) as [e3|] eqn:H3.
    + apply (CloseSend_already_closed s e3 H1 H2 H3).
    + unfold exec. rewrite (CloseSend_emits s H1 H2 H3). simpl.
      destruct (wireSendFlush_shape PayloadKind_CloseSend [] s) as [p [l [Hs Ht]]].
      rewrite Hs. simpl. split; [exists p, l; split; [reflexivity | exact Ht]|].
      split; [reflexivity|]. split; [reflexivity|].
      apply CloseSend_already_closed with (e := err_send_after_CloseSend);
        simpl; solve [assumption | reflexivity].
Qed.

(** C7.  [RawCancel] always latches [termSig] and latches [sig] with the
    cancellation error (a latch that already holds a value keeps it; an
    error of the emission is never what gets recorded).  With [termSig]
    unset it emits one Cancel frame through [wireSendFlush]; with [termSig]
    set it draws no identifier and does not call the writer.  Hence a
    second [RawCancel], or one after [RawError], emits nothing. *)
Theorem RawCancel_spec (s : Stream) :
  termSig (exec RawCancel s) = Signal_Set err_stream_terminated (termSig s) /\
  sig (exec RawCancel s) = Signal_Set context_Canceled (sig s) /\
  match termSig s with
  | None =>
    buf (exec RawCancel s) = buf (exec (wireSendFlush PayloadKind_Cancel []) s) /\
    messageID (exec RawCancel s) = uint64_add (messageID s) 1 /\
    exists p l,
      calls (buf (exec RawCancel s)) = calls (buf s) ++ CWrite p :: l /\
      Forall (fun q => pkt_ID q = mkPacketID (streamID s) (uint64_add (messageID s) 1)
                       /\ pkt_Kind q = PayloadKind_Cancel)
             (written (CWrite p :: l))
  | Some _ =>
    buf (exec RawCancel s) = buf s /\ messageID (exec RawCancel s) = messageID s
  end /\
  exec RawCancel (exec RawCancel s) = exec RawCancel s /\
  (forall err,
     buf (exec RawCancel (exec (RawError err) s)) = buf (exec (RawError err) s) /\
     messageID (exec RawCancel (exec (RawError err) s))
       = messageID (exec (RawError err) s)).
Proof.
  assert (Hsecond : forall s' t, termSig s' = Some t ->
            buf (exec RawCancel s') = buf s' /\
            messageID (exec RawCancel s') = messageID s').
  { intros s' t H. unfold exec. rewrite (RawCancel_terminated s' t H).
    split; reflexivity. }
  destruct (termSig s) as [t|] eqn:H.
  - unfold exec. rewrite (RawCancel_terminated s t H). simpl. rewrite H.
    repeat split.
    + rewrite RawCancel_terminated with (t := t) by exact H.
      simpl. rewrite Signal_Set_twice. reflexivity.
    + rewrite (RawError_terminated err s t H). simpl.
      rewrite (RawCancel_terminated s t H). reflexivity.
    + rewrite (RawError_terminated err s t H). simpl.
      rewrite (RawCancel_terminated s t H). reflexivity.
  - assert (H1 : termSig (exec RawCancel s) = Some err_stream_terminated).
    { unfold exec. rewrite (RawCancel_emits s H). reflexivity. }
    assert (H2 : forall err, termSig (exec (RawError err) s) = Some err_stream_terminated).
    { intros err. unfold exec. rewrite (RawError_emits err s H). reflexivity. }
    split; [exact H1|].
    split; [unfold exec; rewrite (RawCancel_emits s H); reflexivity|].
    split; [|split].
    + destruct (wireSendFlush_shape PayloadKind_Cancel [] s) as [p [l [Hs Ht]]].
      unfold exec in *. rewrite (RawCancel_emits s H). unfold exec. simpl.
      rewrite Hs. simpl. repeat split. exists p, l. split; [reflexivity | exact Ht].
    + unfold exec at 1. rewrite (RawCancel_terminated _ _ H1).
      unfold exec. rewrite (RawCancel_emits s H). simpl.
      rewrite Signal_Set_twice. reflexivity.
    + intros err. apply (Hsecond _ _ (H2 err)).
Qed.

(** C8.  [RawRecv] returns the recorded error at once when [sig] is set,
    whatever the queue holds.  With [sig] unset it returns the packet at the
    head of the queue, or [io.EOF] when the queue is empty and closed, and
    otherwise blocks: no case of its [select] is ready, and the [select]
    resolves only once [sig] fires (with that error), a packet arrives (with
    that packet) or the queue is closed (with [io.EOF]).  Whenever it
    returns with [sig] unset, it returns by the one ready case of its
    [select]. *)
Theorem RawRecv_spec (s : Stream) :
  (forall e, sig s = Some e -> RawRecv s = (Some (None, Some e), s)) /\
  (sig s = None ->
   forall r s', RawRecv s = (Some r, s') <-> RawRecv_select s r s') /\
  (sig s = None -> forall p rest, items (queue s) = p :: rest ->
     RawRecv s =
       (Some (Some p, None), set_queue (mkChan rest (closed (queue s))) s)) /\
  (sig s = None -> items (queue s) = [] -> closed (queue s) = true ->
     RawRecv s = (Some (None, Some io_EOF), s)) /\
  (sig s = None -> items (queue s) = [] -> closed (queue s) = false ->
     RawRecv s = (None, s) /\
     (forall r s', ~ RawRecv_select s r s') /\
     (forall e,
        RawRecv_select (exec (sig_Set e) s) (None, Some e) (exec (sig_Set e) s) /\
        forall r s', RawRecv_select (exec (sig_Set e) s) r s' -> r = (None, Some e)) /\
     (forall p,
        RawRecv_select (exec (enqueue p) s) (Some p, None)
                       (set_queue (mkChan [] false) s) /\
        forall r s', RawRecv_select (exec (enqueue p) s) r s' -> r = (Some p, None)) /\
     (RawRecv_select (exec close_queue s) (None, Some io_EOF) (exec close_queue s) /\
      forall r s', RawRecv_select (exec close_queue s) r s' -> r = (None, Some io_EOF))).
Proof.
  split; [|split; [|split; [|split]]].
  - intros e H. unfold RawRecv. rewrite H. reflexivity.
  - intros H r s'. apply RawRecv_is_select. exact H.
  - intros H p rest Hq. unfold RawRecv. rewrite H, Hq. reflexivity.
  - intros H Hq Hc. unfold RawRecv. rewrite H, Hq, Hc. reflexivity.
  - intros H Hq Hc. split; [unfold RawRecv; rewrite H, Hq, Hc; reflexivity|].
    split; [intros r s' Hsel; inversion Hsel; congruence|].
    assert (Hcap : closed (queue s) || (queue_capacity <=? length (items (queue s)))%nat
                   = false) by (rewrite Hc, Hq; reflexivity).
    split; [|split].
    + intros e.
      assert (Hs : sig (exec (sig_Set e) s) = Some e) by (simpl; rewrite H; reflexivity).
      split.
      * pose proof (select_sig _ e Hs) as X. unfold Signal_Err in X.
        rewrite Hs in X. exact X.
      * intros r s' Hsel. inversion Hsel; subst; simpl in *; try congruence.
        rewrite H. reflexivity.
    + intros p. unfold exec, enqueue. rewrite Hcap, Hq. simpl. split.
      * apply (select_packet (set_queue (mkChan [p] false) s) p []). reflexivity.
      * intros r s' Hsel. inversion Hsel; subst; simpl in *; congruence.
    + split.
      * apply select_closed; [exact Hq | reflexivity].
      * intros r s' Hsel. inversion Hsel; subst; simpl in *; congruence.
Qed.

(** C9.  A [RawSend] the policy denies returns the denial, records it in
    [sig] and leaves the writer alone.  So on a stream whose send half alone
    is closed (after [CloseSend], [sig] and [termSig] unset) a [RawSend]
    latches the send-closed error into [sig], and from then on, whatever
    steps follow, [RawRecv] fails with that error. *)
Theorem RawSend_denial_poisons_recv (s : Stream) (kind : PayloadKind) (data : Data) :
  (forall e, fst (result pollSend s) = Some e ->
     result (RawSend kind data) s = Some e /\
     sig (exec (RawSend kind data) s) = Signal_Set e (sig s) /\
     buf (exec (RawSend kind data) s) = buf s) /\
  (forall e, sig s = None -> termSig s = None -> sendSig s = Some e ->
     result (RawSend kind data) s = Some e /\
     sig (exec (RawSend kind data) s) = Some e /\
     forall ops,
       result RawRecv (run ops (exec (RawSend kind data) s)) = Some (None, Some e)) /\
  (sig s = None -> termSig s = None -> sendSig s = None ->
     sig (exec CloseSend s) = None /\
     sig (exec (RawSend kind data) (exec CloseSend s)) = Some err_send_after_CloseSend /\
     forall ops,
       result RawRecv (run ops (exec (RawSend kind data) (exec CloseSend s)))
         = Some (None, Some err_send_after_CloseSend)).
Proof.
  assert (Hdenied : forall s' e, fst (result pollSend s') = Some e ->
            result (RawSend kind data) s' = Some e /\
            sig (exec (RawSend kind data) s') = Signal_Set e (sig s') /\
            buf (exec (RawSend kind data) s') = buf s').
  { intros s' e H. unfold result, exec. rewrite (RawSend_denied kind data s' e H).
    repeat split. }
  assert (Hclosed : forall s' e, sig s' = None -> termSig s' = None -> sendSig s' = Some e ->
            result (RawSend kind data) s' = Some e /\
            sig (exec (RawSend kind data) s') = Some e /\
            forall ops,
              result RawRecv (run ops (exec (RawSend kind data) s')) = Some (None, Some e)).
  { intros s' e H1 H2 H3.
    assert (Hp : fst (result pollSend s') = Some e)
      by (rewrite pollSend_table, H1, H2, H3; reflexivity).
    destruct (Hdenied s' e Hp) as [Hr [Hs _]]. rewrite H1 in Hs. simpl in Hs.
    split; [exact Hr|]. split; [exact Hs|].
    intros ops.
    pose proof (ev_sig _ _ (run_evolves ops (exec (RawSend kind data) s')) _ Hs) as Hlate.
    unfold result, RawRecv. rewrite Hlate. reflexivity. }
  split; [apply Hdenied|]. split; [apply Hclosed|].
  intros H1 H2 H3.
  destruct (wireSendFlush_shape PayloadKind_CloseSend [] s) as [p [l [Hs _]]].
  assert (Hc : exec CloseSend s =
               set_sendSig (Some err_send_after_CloseSend)
                 (exec (wireSendFlush PayloadKind_CloseSend []) s))
    by (unfold exec; rewrite (CloseSend_emits s H1 H2 H3); reflexivity).
  rewrite Hs in Hc.
  assert (G1 : sig (exec CloseSend s) = None) by (rewrite Hc; exact H1).
  assert (G2 : termSig (exec CloseSend s) = None) by (rewrite Hc; exact H2).
  assert (G3 : sendSig (exec CloseSend s) = Some err_send_after_CloseSend)
    by (rewrite Hc; reflexivity).
  destruct (Hclosed _ _ G1 G2 G3) as [_ [Ha Hb]].
  split; [exact G1|]. split; [exact Ha | exact Hb].
Qed.

(** C2 (as amended).  Take any sequence of [RawSend] calls on a stream
    that each succeed, short enough not to wrap the 64-bit counter.  Each
    call has a packet identifier of its own: it hands the writer the whole
    frame cut for that identifier, at least one packet, every packet
    carrying it.  The identifiers of the calls, in call order, are strictly
    increasing and without duplicates; packet by packet, the identifiers the
    writer sees never decrease (the packets of one frame repeat the
    identifier of their call). *)
Theorem RawSend_ids_strictly_increasing (msgs : list (PayloadKind * Data)) (s : Stream) :
  0 <= messageID s ->
  messageID s + Z.of_nat (length msgs) < uint64_modulus ->
  Forall (fun t => fst t = None) (RawSend_trace msgs s) ->
  exists ids : list Z,
    StronglySorted Z.lt ids /\ NoDup ids /\
    Forall2 (fun m t =>
               snd t <> [] /\
               Forall (fun p => pkt_ID p = mkPacketID (streamID s) m) (snd t))
            ids (RawSend_trace msgs s) /\
    map snd (RawSend_trace msgs s)
      = map (fun x => frame_packets (fst (snd x))
                        (mkPacketID (streamID s) (fst x)) (snd (snd x)))
            (combine ids msgs) /\
    StronglySorted Z.le (seen_ids (concat (map snd (RawSend_trace msgs s)))).
Proof.
  intros H0 Hb Hok.
  destruct (RawSend_trace_ids msgs s H0 Hb Hok) as [ids [_ [H1 [H2 H3]]]].
  exists ids. split; [exact H1|]. split; [apply StronglySorted_lt_NoDup; exact H1|].
  split; [exact H2|]. split; [exact H3|].
  exact (proj1 (blocks_nondecreasing _ _ _ H2 H1)).
Qed.

(** C10.  The first identifier a stream draws has MessageID 1.  Along any
    run from [New] that is too short to wrap the 64-bit counter, no packet
    handed to the writer carries MessageID 0.  [RawSend] draws exactly one
    identifier per call, and every packet it hands to the writer carries
    it: on success, the whole frame cut for that one identifier. *)
Theorem MessageID_starts_at_one :
  (forall cancelled sid b,
     result nextPid (New cancelled sid b) = mkPacketID sid 1) /\
  (forall ops cancelled sid b,
     Z.of_nat (length ops) < uint64_modulus ->
     Forall (fun p => 1 <= MessageID (pkt_ID p) /\ MessageID (pkt_ID p) <> 0)
            (written (appended (New cancelled sid b)
                               (run ops (New cancelled sid b))))) /\
  (forall s kind data,
     messageID (exec (RawSend kind data) s) = uint64_add (messageID s) 1 /\
     Forall (fun p => pkt_ID p = result nextPid s)
            (written (appended s (exec (RawSend kind data) s))) /\
     match result (RawSend kind data) s with
     | None => written (appended s (exec (RawSend kind data) s))
               = frame_packets kind (result nextPid s) data
     | Some _ => True
     end).
Proof.
  split; [reflexivity|]. split.
  - intros ops cancelled sid b Hlen.
    destruct (run_ids ops (New cancelled sid b)) as [_ [_ [l [Hl Hall]]]];
      [simpl; lia | simpl; exact Hlen |].
    rewrite (appended_app _ _ _ Hl). revert Hall. apply Forall_impl.
    simpl. intros p [_ Hp]. lia.
  - intros s kind data.
    destruct (RawSend_frame kind data s) as [Hm [_ [l [r [Hc [Hf Hr]]]]]].
    split; [exact Hm|].
    rewrite (appended_app _ _ _ Hc), written_map_CWrite.
    pose proof (frame_packets_tagged kind (result nextPid s) data) as Ht.
    split.
    + rewrite Hf in Ht. apply Forall_app in Ht. destruct Ht as [Ht _].
      exact (Forall_tag_only Ht).
    + destruct (result (RawSend kind data) s); [exact I|].
      rewrite Hf, (Hr eq_refl), app_nil_r. reflexivity.
Qed.

(** [Close] does not short-circuit on the already-closed indication: on a
    stream with no latch set, [Close] after [CloseSend] draws the next
    identifier and hands the writer a CloseSend frame of its own, after the
    one [CloseSend] sent. *)
Theorem Close_after_CloseSend_emits (s : Stream) :
  sig s = None -> termSig s = None -> sendSig s = None ->
  let s1 := exec CloseSend s in
  (exists p l,
     calls (buf s1) = calls (buf s) ++ CWrite p :: l /\
     Forall (fun q => pkt_Kind q = PayloadKind_CloseSend) (written (CWrite p :: l))) /\
  (exists p l,
     calls (buf (exec Close s1)) = calls (buf s1) ++ CWrite p :: l /\
     Forall (fun q => pkt_ID q = mkPacketID (streamID s) (uint64_add (messageID s1) 1)
                      /\ pkt_Kind q = PayloadKind_CloseSend)
            (written (CWrite p :: l))) /\
  terminal_emissions [CallCloseSend; CallClose] s = 1%nat.
Proof.
  intros H1 H2 H3 s1.
  destruct (wireSendFlush_shape PayloadKind_CloseSend [] s) as [p [l [Hs Ht]]].
  assert (Hc : s1 = set_sendSig (Some err_send_after_CloseSend)
                      (exec (wireSendFlush PayloadKind_CloseSend []) s))
    by (unfold s1, exec; rewrite (CloseSend_emits s H1 H2 H3); reflexivity).
  rewrite Hs in Hc.
  assert (G1 : sig s1 = None) by (rewrite Hc; exact H1).
  assert (G2 : termSig s1 = None) by (rewrite Hc; exact H2).
  assert (Gi : streamID s1 = streamID s) by (rewrite Hc; reflexivity).
  destruct (wireSendFlush_shape PayloadKind_CloseSend [] s1) as [p' [l' [Hs' Ht']]].
  assert (Hc' : calls (buf (exec Close s1)) = calls (buf s1) ++ CWrite p' :: l').
  { unfold exec at 1. rewrite (Close_emits s1 G1 G2). simpl. rewrite Hs'. reflexivity. }
  split; [|split].
  - exists p, l. split; [rewrite Hc; reflexivity|].
    revert Ht. apply Forall_impl. intros q [_ Hq]. exact Hq.
  - exists p', l'. split; [exact Hc'|]. rewrite <- Gi. exact Ht'.
  - simpl. fold s1. change (exec Close (exec CloseSend s)) with (exec Close s1).
    rewrite (appended_app _ _ _ Hc'). reflexivity.
Qed.

(** The control frames of [RawError] and [RawCancel] are not subject to the
    poll-send policy: with [sig] set and [termSig] unset the policy denies,
    and each of them still hands its frame to the writer (this is how the
    monitor reports a recorded error to the peer). *)
Theorem control_frames_bypass_pollSend (s : Stream) (e err : error) :
  sig s = Some e -> termSig s = None ->
  result pollSend s = (Some e, false) /\
  (exists p l,
     calls (buf (exec (RawError err) s)) = calls (buf s) ++ CWrite p :: l /\
     Forall (fun q => pkt_Kind q = PayloadKind_Error) (written (CWrite p :: l))) /\
  (exists p l,
     calls (buf (exec RawCancel s)) = calls (buf s) ++ CWrite p :: l /\
     Forall (fun q => pkt_Kind q = PayloadKind_Cancel) (written (CWrite p :: l))) /\
  (exists p l,
     calls (buf (exec (monitor case_sig) (set_monitoring true s)))
       = calls (buf s) ++ CWrite p :: l /\
     Forall (fun q => pkt_Kind q = PayloadKind_Error) (written (CWrite p :: l))).
Proof.
  intros H1 H2. split; [apply pollSend_sig; exact H1|].
  assert (Hkind : forall k (l : list Packet),
            Forall (fun q => pkt_ID q = mkPacketID (streamID s) (uint64_add (messageID s) 1)
                             /\ pkt_Kind q = k) l ->
            Forall (fun q => pkt_Kind q = k) l).
  { intros k l. apply Forall_impl. intros q [_ Hq]. exact Hq. }
  split; [|split].
  - destruct (wireSendFlush_shape PayloadKind_Error (Error_text err) s) as [p [l [Hs Ht]]].
    exists p, l. split; [|exact (Hkind _ _ Ht)].
    unfold exec at 1. rewrite (RawError_emits err s H2). simpl. rewrite Hs. reflexivity.
  - destruct (wireSendFlush_shape PayloadKind_Cancel [] s) as [p [l [Hs Ht]]].
    exists p, l. split; [|exact (Hkind _ _ Ht)].
    unfold exec at 1. rewrite (RawCancel_emits s H2). simpl. rewrite Hs. reflexivity.
  - set (s0 := set_monitoring false (set_monitoring true s)).
    destruct (wireSendFlush_shape PayloadKind_Error (Error_text e) s0) as [p [l [Hs Ht]]].
    exists p, l. split; [|exact (Hkind _ _ Ht)].
    unfold exec at 1. simpl. unfold monitor_sig. simpl. rewrite H1. simpl.
    rewrite (RawError_emits e s0 H2). simpl. rewrite Hs. reflexivity.
Qed.

End Claims.

(** C1, as stated, fails: on a fresh stream [Close] after [CloseSend] hands
    the writer a second CloseSend control frame, under the next identifier. *)
Lemma Close_after_CloseSend_writes_a_second_control_frame :
  control_packets (calls (buf (run (C := two_byte_framer) [CallCloseSend; CallClose] fresh)))
    = [mkPacket (mkPacketID 7 1) PayloadKind_CloseSend [];
       mkPacket (mkPacketID 7 2) PayloadKind_CloseSend []] /\
  control_frames (calls (buf (run (C := two_byte_framer) [CallCloseSend; CallClose] fresh)))
    = [mkPacketID 7 1; mkPacketID 7 2] /\
  ~ (length (control_frames
               (calls (buf (run (C := two_byte_framer) [CallCloseSend; CallClose] fresh))))
     <= 1)%nat.
Proof.
  split; [reflexivity|]. split; [reflexivity|].
  vm_compute. intros H. apply le_S_n in H. inversion H.
Qed.

(** A message, a half-close, a close and a cancellation on a fresh stream:
    two control frames reach the writer, none of them an Error or a Cancel. *)
Lemma terminal_frame_at_most_once_witness :
  forallb (sends_messages_only (C := two_byte_framer))
          [CallMsgSend (C := two_byte_framer) [Byte.x01]; CallCloseSend; CallClose;
           CallRawCancel] = true /\
  (length (control_frames
             (appended fresh
                (run (C := two_byte_framer)
                   [CallMsgSend (C := two_byte_framer) [Byte.x01]; CallCloseSend;
                    CallClose; CallRawCancel] fresh))) <= 2)%nat /\
  (length (error_or_cancel_frames
             (appended fresh
                (run (C := two_byte_framer)
                   [CallMsgSend (C := two_byte_framer) [Byte.x01]; CallCloseSend;
                    CallClose; CallRawCancel] fresh))) <= 1)%nat.
Proof.
  split; [reflexivity|].
  destruct (terminal_frame_at_most_once (C := two_byte_framer)
              [CallMsgSend (C := two_byte_framer) [Byte.x01]; CallCloseSend; CallClose;
               CallRawCancel] fresh)
    as [_ [_ [_ [_ [_ [_ [_ W]]]]]]].
  exact (proj2 (W eq_refl)).
Defined.

(** On a fresh stream over a writer that does not fail: the writer ends up
    with two CloseSend frames, the first sent by [CloseSend], the second the
    terminal frame of [Close]. *)
Lemma Close_after_CloseSend_emits_witness :
  written (calls (buf (run (C := two_byte_framer) [CallCloseSend; CallClose] fresh)))
    = [mkPacket (mkPacketID 7 1) PayloadKind_CloseSend [];
       mkPacket (mkPacketID 7 2) PayloadKind_CloseSend []] /\
  length (control_frames
            (calls (buf (run (C := two_byte_framer) [CallCloseSend; CallClose] fresh))))
    = 2%nat /\
  terminal_emissions (C := two_byte_framer) [CallCloseSend; CallClose] fresh = 1%nat.
Proof.
  split; [reflexivity|]. split; [reflexivity|].
  exact (proj2 (proj2 (Close_after_CloseSend_emits (C := two_byte_framer) fresh
                         eq_refl eq_refl eq_refl))).
Defined.

(** C4, as stated, fails: right after [Close] on a fresh stream [RawSend]
    returns the "stream closed" error of [sig], not the send-closed error. *)
Lemma RawSend_after_Close_is_not_send_closed :
  result (RawSend (C := two_byte_framer) PayloadKind_Message [])
         (exec (Close (C := two_byte_framer)) fresh) = Some err_stream_closed /\
  result (RawSend (C := two_byte_framer) PayloadKind_Message [])
         (exec (Close (C := two_byte_framer)) fresh) <> Some err_send_after_CloseSend.
Proof. split; [reflexivity | vm_compute; discriminate]. Qed.

(** A stream whose general error was set by a failed flush. *)
Definition poisoned : Stream := exec (RawFlush (C := broken_writer)) fresh.

Lemma Close_short_circuit_witness :
  result (pollSend) poisoned = (Some (external_error "flush failed"), false) /\
  result (Close (C := broken_writer)) poisoned = None /\
  buf (exec (Close (C := broken_writer)) poisoned) = buf poisoned.
Proof.
  split; [reflexivity|].
  destruct (Close_short_circuit (C := broken_writer) poisoned
              (external_error "flush failed") eq_refl) as [H1 [H2 _]].
  split; [exact H1 | exact H2].
Defined.

Lemma CloseSend_idempotent_witness :
  sig fresh = None /\ termSig fresh = None /\
  CloseSend (C := two_byte_framer) (exec (CloseSend (C := two_byte_framer)) fresh)
    = (None, exec (CloseSend (C := two_byte_framer)) fresh).
Proof.
  split; [reflexivity|]. split; [reflexivity|].
  destruct (CloseSend_idempotent (C := two_byte_framer) fresh) as [_ H].
  exact (proj2 (proj2 (proj2 (H eq_refl eq_refl)))).
Defined.

Lemma RawRecv_spec_witness :
  sig fresh = None /\ items (queue fresh) = [] /\ closed (queue fresh) = false /\
  RawRecv fresh = (None, fresh) /\
  RawRecv_select (exec (sig_Set context_Canceled) fresh) (None, Some context_Canceled)
                 (exec (sig_Set context_Canceled) fresh).
Proof.
  split; [reflexivity|]. split; [reflexivity|]. split; [reflexivity|].
  destruct (RawRecv_spec fresh) as [_ [_ [_ [_ H]]]].
  destruct (H eq_refl eq_refl eq_refl) as [H1 [_ [H2 _]]].
  split; [exact H1 | exact (proj1 (H2 context_Canceled))].
Defined.

Lemma RawSend_denial_poisons_recv_witness :
  sig fresh = None /\ termSig fresh = None /\ sendSig fresh = None /\
  forall ops,
    result RawRecv
      (run (C := two_byte_framer) ops
         (exec (RawSend (C := two_byte_framer) PayloadKind_Message [])
               (exec (CloseSend (C := two_byte_framer)) fresh)))
    = Some (None, Some err_send_after_CloseSend).
Proof.
  split; [reflexivity|]. split; [reflexivity|]. split; [reflexivity|].
  destruct (RawSend_denial_poisons_recv (C := two_byte_framer) fresh
              PayloadKind_Message []) as [_ [_ H]].
  exact (proj2 (proj2 (H eq_refl eq_refl eq_refl))).
Defined.

(** A stream whose general error was set from outside, by the demultiplexer
    say. *)
Definition reset_by_peer : Stream :=
  exec (sig_Set (external_error "connection reset")) fresh.

Lemma control_frames_bypass_pollSend_witness :
  sig reset_by_peer = Some (external_error "connection reset") /\
  termSig reset_by_peer = None /\
  exists p l,
    calls (buf (exec (RawCancel (C := two_byte_framer)) reset_by_peer))
      = calls (buf reset_by_peer) ++ CWrite p :: l /\
    Forall (fun q => pkt_Kind q = PayloadKind_Cancel) (written (CWrite p :: l)).
Proof.
  split; [reflexivity|]. split; [reflexivity|].
  exact (proj1 (proj2 (proj2
           (control_frames_bypass_pollSend (C := two_byte_framer) reset_by_peer
              (external_error "connection reset") context_Canceled eq_refl eq_refl)))).
Defined.

(** Two messages on a fresh stream: three bytes (two packets) and none (one
    packet). *)
Definition two_messages : list (PayloadKind * Data) :=
  [(PayloadKind_Message, [Byte.x01; Byte.x02; Byte.x03]); (PayloadKind_Message, [])].

Lemma RawSend_ids_strictly_increasing_witness :
  0 <= messageID fresh /\
  messageID fresh + Z.of_nat (length two_messages) < uint64_modulus /\
  Forall (fun t => fst t = None) (RawSend_trace (C := two_byte_framer) two_messages fresh) /\
  exists ids : list Z,
    StronglySorted Z.lt ids /\ NoDup ids /\
    Forall2 (fun m t =>
               snd t <> [] /\
               Forall (fun p => pkt_ID p = mkPacketID (streamID fresh) m) (snd t))
            ids (RawSend_trace (C := two_byte_framer) two_messages fresh) /\
    map snd (RawSend_trace (C := two_byte_framer) two_messages fresh)
      = map (fun x => frame_packets (C := two_byte_framer) (fst (snd x))
                        (mkPacketID (streamID fresh) (fst x)) (snd (snd x)))
            (combine ids two_messages) /\
    StronglySorted Z.le
      (seen_ids (concat (map snd (RawSend_trace (C := two_byte_framer) two_messages fresh)))).
Proof.
  assert (H0 : 0 <= messageID fresh) by (simpl; lia).
  assert (Hb : messageID fresh + Z.of_nat (length two_messages) < uint64_modulus)
    by reflexivity.
  assert (Hok : Forall (fun t => fst t = None)
                       (RawSend_trace (C := two_byte_framer) two_messages fresh))
    by (repeat constructor).
  split; [exact H0|]. split; [exact Hb|]. split; [exact Hok|].
  exact (RawSend_ids_strictly_increasing (C := two_byte_framer) two_messages fresh H0 Hb Hok).
Defined.

(** C2, as stated, fails: one successful [RawSend] of three bytes over a
    framer that cuts two-byte packets hands the writer two packets with the
    same identifier, so the identifiers the writer is given are neither
    strictly increasing nor free of duplicates. *)
Lemma RawSend_multi_packet_repeats_id :
  result (RawSend (C := two_byte_framer) PayloadKind_Message [Byte.x01; Byte.x02; Byte.x03])
         fresh = None /\
  map pkt_ID
      (written (calls (buf (exec (RawSend (C := two_byte_framer) PayloadKind_Message
                                          [Byte.x01; Byte.x02; Byte.x03]) fresh))))
    = [mkPacketID 7 1; mkPacketID 7 1] /\
  ~ StronglySorted Z.lt
      (seen_ids
         (written (calls (buf (exec (RawSend (C := two_byte_framer) PayloadKind_Message
                                             [Byte.x01; Byte.x02; Byte.x03]) fresh))))) /\
  ~ NoDup
      (map pkt_ID
         (written (calls (buf (exec (RawSend (C := two_byte_framer) PayloadKind_Message
                                             [Byte.x01; Byte.x02; Byte.x03]) fresh))))).
Proof.
  split; [reflexivity|]. split; [reflexivity|]. split.
  - intros H. vm_compute in H. inversion H as [|? ? _ Hall]; subst.
    inversion Hall as [|? ? Hlt _]; subst. vm_compute in Hlt. discriminate Hlt.
  - intros H. vm_compute in H. inversion H as [|? ? Hnin _]; subst.
    apply Hnin. left. reflexivity.
Qed.

Lemma MessageID_starts_at_one_witness :
  Z.of_nat (length [CallCloseSend (C := two_byte_framer); CallClose]) < uint64_modulus /\
  Forall (fun p => 1 <= MessageID (pkt_ID p) /\ MessageID (pkt_ID p) <> 0)
         (written (appended fresh
                     (run (C := two_byte_framer) [CallCloseSend; CallClose] fresh))).
Proof.
  split; [reflexivity|].
  exact (proj1 (proj2 (MessageID_starts_at_one (C := two_byte_framer)))
           [CallCloseSend; CallClose] false 7 (mkBuffer []) eq_refl).
Defined.

(** * Overlapping calls of RawSend

    [RawSend] evaluates [s.nextPid()] before [Split] runs, and its closure
    takes [sendMu] once per packet.  Two goroutines calling [RawSend] can
    therefore be interleaved between the drawing of the identifier and each
    locked write.  A call is modelled by its program point; one step runs the
    call to its next point. *)

Section Overlap.

Context {C : Collaborators}.

Inductive SendPC : Type :=
| pc_call (kind : PayloadKind) (data : Data)  (* called; [nextPid] not yet run *)
| pc_split (pending : list Packet)            (* in [Split], [pending] not yet emitted *)
| pc_failed (err : error)                     (* [Split] returned [err]; [sig.Set] not yet run *)
| pc_returned (err : goerror).

Definition RawSend_step (pc : SendPC) (s : Stream) : SendPC * Stream :=
  match pc with
  | pc_call kind data =>
    let (id, s1) := nextPid s in (pc_split (frame_packets kind id data), s1)
  | pc_split [] => (pc_returned None, s)
  | pc_split (p :: rest) =>
    let (e, s1) := RawSend_emit p s in
    match e with
    | Some err => (pc_failed err, s1)
    | None => (pc_split rest, s1)
    end
  | pc_failed err => (pc_returned (Some err), exec (sig_Set err) s)
  | pc_returned _ => (pc, s)
  end.

Fixpoint RawSend_steps (n : nat) (pc : SendPC) (s : Stream) : SendPC * Stream :=
  match n with
  | O => (pc, s)
  | S n' => let (pc1, s1) := RawSend_step pc s in RawSend_steps n' pc1 s1
  end.

(** Two calls and the stream they share; a schedule says which call takes the
    next step ([true]: the first). *)
Definition overlap_step (first : bool) (st : SendPC * SendPC * Stream)
  : SendPC * SendPC * Stream :=
  let '(a, b, s) := st in
  if first then let (a1, s1) := RawSend_step a s in (a1, b, s1)
  else let (b1, s1) := RawSend_step b s in (a, b1, s1).

Definition overlap (schedule : list bool) (st : SendPC * SendPC * Stream)
  : SendPC * SendPC * Stream :=
  fold_left (fun st first => overlap_step first st) schedule st.

Lemma RawSend_steps_returned n err s :
  RawSend_steps n (pc_returned err) s = (pc_returned err, s).
Proof. induction n as [|n IH]; simpl; [reflexivity | exact IH]. Qed.

Lemma RawSend_steps_split pkts : forall s,
  RawSend_steps (length pkts + 2) (pc_split pkts) s =
    let (e, s1) := emit_each RawSend_emit pkts s in
    match e with
    | Some err => (pc_returned e, exec (sig_Set err) s1)
    | None => (pc_returned None, s1)
    end.
Proof.
  induction pkts as [|p rest IH]; intros s.
  - reflexivity.
  - change (length (p :: rest) + 2)%nat with (S (length rest + 2)).
    cbn [RawSend_steps RawSend_step emit_each].
    destruct (RawSend_emit p s) as [[err|] s1].
    + destruct (length rest + 2)%nat as [|n] eqn:Hn; [lia|].
      cbn [RawSend_steps RawSend_step]. apply RawSend_steps_returned.
    + apply IH.
Qed.

(** Run alone, the steps of a call amount to [RawSend]. *)
Lemma RawSend_steps_alone kind data s :
  exists n, RawSend_steps n (pc_call kind data) s = (pc_returned (result (RawSend kind data) s),
                                                     exec (RawSend kind data) s).
Proof.
  exists (S (length (frame_packets kind (fst (nextPid s)) data) + 2)).
  cbn [RawSend_steps RawSend_step].
  unfold result, exec, RawSend, bind, Split.
  destruct (nextPid s) as [id s0]. cbn [fst].
  rewrite RawSend_steps_split.
  destruct (emit_each RawSend_emit (frame_packets kind id data) s0) as [[err|] s1];
    reflexivity.
Qed.

Lemma overlap_app sch1 sch2 st :
  overlap (sch1 ++ sch2) st = overlap sch2 (overlap sch1 st).
Proof. unfold overlap. apply fold_left_app. Qed.

Lemma overlap_first n : forall a b s,
  overlap (repeat true n) (a, b, s)
  = (fst (RawSend_steps n a s), b, snd (RawSend_steps n a s)).
Proof.
  induction n as [|n IH]; intros a b s; [reflexivity|].
  change (repeat true (S n)) with ([true] ++ repeat true n).
  rewrite overlap_app. cbn [overlap overlap_step fold_left RawSend_steps].
  destruct (RawSend_step a s) as [a1 s1]. apply IH.
Qed.

Lemma overlap_second n : forall a b s,
  overlap (repeat false n) (a, b, s)
  = (a, fst (RawSend_steps n b s), snd (RawSend_steps n b s)).
Proof.
  induction n as [|n IH]; intros a b s; [reflexivity|].
  change (repeat false (S n)) with ([false] ++ repeat false n).
  rewrite overlap_app. cbn [overlap overlap_step fold_left RawSend_steps].
  destruct (RawSend_step b s) as [b1 s1]. apply IH.
Qed.

(** Over a writer that does not fail, with the policy allowing, [Split] hands
    the whole frame to the writer. *)
Lemma emit_each_all pkts : forall s,
  (forall h p, Write_result h p = None) ->
  fst (result pollSend s) = None ->
  emit_each RawSend_emit pkts s
  = (None, set_buf (mkBuffer (calls (buf s) ++ map CWrite pkts)) s).
Proof.
  intros s Hw Hp. rewrite (emit_each_allowed pkts s Hp). clear Hp. revert s.
  induction pkts as [|p rest IH]; intros s; simpl.
  - unfold ret. rewrite set_buf_same. reflexivity.
  - unfold buf_Write at 1. rewrite Hw, IH. unfold set_buf; simpl.
    rewrite <- app_assoc. reflexivity.
Qed.

Lemma RawSend_steps_split_all pkts s :
  (forall h p, Write_result h p = None) ->
  fst (result pollSend s) = None ->
  RawSend_steps (length pkts + 2) (pc_split pkts) s
  = (pc_returned None, set_buf (mkBuffer (calls (buf s) ++ map CWrite pkts)) s).
Proof.
  intros Hw Hp. rewrite RawSend_steps_split, (emit_each_all pkts s Hw Hp). reflexivity.
Qed.

End Overlap.

Section OverlapClaims.

Context {C : Collaborators}.

(** Two calls of [RawSend] that overlap can reach the writer against the
    order of their identifiers.  On a stream with no latch set, over a
    writer that does not fail: let the first call draw its identifier, then
    let the second call run to its end, then the first.  Both calls succeed,
    and the writer is handed the whole frame of the second call, which
    carries the later identifier, before the frame of the first. *)
Theorem overlapping_RawSend_can_reorder
        (kindA kindB : PayloadKind) (dataA dataB : Data) (s : Stream) :
  (forall h p, Write_result h p = None) ->
  sig s = None -> termSig s = None -> sendSig s = None ->
  exists schedule s',
    overlap schedule (pc_call kindA dataA, pc_call kindB dataB, s)
      = (pc_returned None, pc_returned None, s') /\
    written (appended s s')
      = frame_packets kindB (result nextPid (exec nextPid s)) dataB
        ++ frame_packets kindA (result nextPid s) dataA.
Proof.
  intros Hw H1 H2 H3.
  set (idA := result nextPid s).
  set (idB := result nextPid (exec nextPid s)).
  set (fa := frame_packets kindA idA dataA).
  set (fb := frame_packets kindB idB dataB).
  set (s1 := exec nextPid s).
  set (s2 := exec nextPid s1).
  set (s3 := set_buf (mkBuffer (calls (buf s2) ++ map CWrite fb)) s2).
  set (s4 := set_buf (mkBuffer (calls (buf s3) ++ map CWrite fa)) s3).
  assert (Hp : forall x, sig x = None -> termSig x = None -> sendSig x = None ->
                         fst (result pollSend x) = None).
  { intros x G1 G2 G3. rewrite pollSend_table, G1, G2, G3. reflexivity. }
  exists ([true] ++ [false] ++ repeat false (length fb + 2) ++ repeat true (length fa + 2)), s4.
  split.
  - rewrite !overlap_app.
    change (overlap [true] (pc_call kindA dataA, pc_call kindB dataB, s))
      with (pc_split fa, pc_call kindB dataB, s1).
    change (overlap [false] (pc_split fa, pc_call kindB dataB, s1))
      with (pc_split fa, pc_split fb, s2).
    rewrite overlap_second, (RawSend_steps_split_all fb s2 Hw) by (apply Hp; assumption).
    cbn [fst snd]. fold s3.
    rewrite overlap_first, (RawSend_steps_split_all fa s3 Hw) by (apply Hp; assumption).
    reflexivity.
  - assert (Hc : calls (buf s4) = calls (buf s) ++ (map CWrite fb ++ map CWrite fa)).
    { unfold s4, s3, s2, s1. simpl. rewrite <- app_assoc. reflexivity. }
    rewrite (appended_app _ _ _ Hc), written_app, !written_map_CWrite. reflexivity.
Qed.

(** [RawSend] gives up [sendMu] between the packets of a frame.  On a
    stream with no latch set, over a writer that does not fail: let the
    first call write the first packet of its frame, then let the second call
    run to its end, then the first.  Both calls succeed, and the frame of the
    second call reaches the writer between the first packet of the first
    call's frame and the rest of it. *)
Theorem overlapping_RawSend_can_split_frame
        (kindA kindB : PayloadKind) (dataA dataB : Data) (s : Stream)
        (p1 : Packet) (rest : list Packet) :
  (forall h p, Write_result h p = None) ->
  sig s = None -> termSig s = None -> sendSig s = None ->
  frame_packets kindA (result nextPid s) dataA = p1 :: rest ->
  exists schedule s',
    overlap schedule (pc_call kindA dataA, pc_call kindB dataB, s)
      = (pc_returned None, pc_returned None, s') /\
    written (appended s s')
      = p1 :: frame_packets kindB (result nextPid (exec nextPid s)) dataB ++ rest.
Proof.
  intros Hw H1 H2 H3 Hfa.
  set (idB := result nextPid (exec nextPid s)).
  set (fb := frame_packets kindB idB dataB).
  set (s1 := exec nextPid s).
  set (s2 := set_buf (mkBuffer (calls (buf s1) ++ [CWrite p1])) s1).
  set (s3 := exec nextPid s2).
  set (s4 := set_buf (mkBuffer (calls (buf s3) ++ map CWrite fb)) s3).
  set (s5 := set_buf (mkBuffer (calls (buf s4) ++ map CWrite rest)) s4).
  assert (Hp : forall x, sig x = None -> termSig x = None -> sendSig x = None ->
                         fst (result pollSend x) = None).
  { intros x G1 G2 G3. rewrite pollSend_table, G1, G2, G3. reflexivity. }
  exists ([true] ++ [true] ++ [false] ++ repeat false (length fb + 2)
          ++ repeat true (length rest + 2)), s5.
  split.
  - rewrite !overlap_app.
    assert (E1 : overlap [true] (pc_call kindA dataA, pc_call kindB dataB, s)
                 = (pc_split (p1 :: rest), pc_call kindB dataB, s1)).
    { cbn [overlap fold_left overlap_step RawSend_step]. unfold nextPid at 1.
      unfold result, nextPid in Hfa. cbn [fst] in Hfa. rewrite Hfa. reflexivity. }
    rewrite E1.
    assert (E2 : overlap [true] (pc_split (p1 :: rest), pc_call kindB dataB, s1)
                 = (pc_split rest, pc_call kindB dataB, s2)).
    { cbn [overlap fold_left overlap_step RawSend_step].
      unfold RawSend_emit, bind. rewrite pollSend_eq, (Hp s1) by assumption.
      unfold buf_Write. rewrite Hw. reflexivity. }
    rewrite E2.
    change (overlap [false] (pc_split rest, pc_call kindB dataB, s2))
      with (pc_split rest, pc_split fb, s3).
    rewrite overlap_second, (RawSend_steps_split_all fb s3 Hw) by (apply Hp; assumption).
    cbn [fst snd]. fold s4.
    rewrite overlap_first, (RawSend_steps_split_all rest s4 Hw) by (apply Hp; assumption).
    reflexivity.
  - assert (Hc : calls (buf s5)
                 = calls (buf s) ++ (CWrite p1 :: map CWrite fb ++ map CWrite rest)).
    { unfold s5, s4, s3, s2, s1. simpl. rewrite <- !app_assoc. reflexivity. }
    rewrite (appended_app _ _ _ Hc).
    change (CWrite p1 :: map CWrite fb ++ map CWrite rest)
      with (map CWrite [p1] ++ map CWrite fb ++ map CWrite rest).
    rewrite !written_app, !written_map_CWrite. reflexivity.
Qed.

End OverlapClaims.

Lemma overlapping_RawSend_can_reorder_witness :
  exists schedule s',
    overlap (C := two_byte_framer) schedule
            (pc_call PayloadKind_Message [Byte.x0a], pc_call PayloadKind_Message [Byte.x0b],
             fresh)
      = (pc_returned None, pc_returned None, s') /\
    written (appended fresh s')
      = [mkPacket (mkPacketID 7 2) PayloadKind_Message [Byte.x0b];
         mkPacket (mkPacketID 7 1) PayloadKind_Message [Byte.x0a]].
Proof.
  exact (overlapping_RawSend_can_reorder (C := two_byte_framer)
           PayloadKind_Message PayloadKind_Message [Byte.x0a] [Byte.x0b] fresh
           (fun _ _ => eq_refl) eq_refl eq_refl eq_refl).
Defined.

Lemma overlapping_RawSend_can_split_frame_witness :
  exists schedule s',
    overlap (C := two_byte_framer) schedule
            (pc_call PayloadKind_Message [Byte.x01; Byte.x02; Byte.x03],
             pc_call PayloadKind_Message [Byte.x0b], fresh)
      = (pc_returned None, pc_returned None, s') /\
    written (appended fresh s')
      = [mkPacket (mkPacketID 7 1) PayloadKind_Message [Byte.x01; Byte.x02];
         mkPacket (mkPacketID 7 2) PayloadKind_Message [Byte.x0b];
         mkPacket (mkPacketID 7 1) PayloadKind_Message [Byte.x03]].
Proof.
  exact (overlapping_RawSend_can_split_frame (C := two_byte_framer)
           PayloadKind_Message PayloadKind_Message
           [Byte.x01; Byte.x02; Byte.x03] [Byte.x0b] fresh
           (mkPacket (mkPacketID 7 1) PayloadKind_Message [Byte.x01; Byte.x02])
           [mkPacket (mkPacketID 7 1) PayloadKind_Message [Byte.x03]]
           (fun _ _ => eq_refl) eq_refl eq_refl eq_refl eq_refl).
Defined.

(** The two schedules above, spelled out and run.  Two overlapping calls,
    each of one packet, both successful: the second
    call draws identifier 2 and writes before the first call, which drew 1,
    so the writer is handed identifier 2 and then identifier 1. *)
Example overlapping_RawSend_reorders :
  overlap (C := two_byte_framer) [true; false; false; false; true; true]
          (pc_call PayloadKind_Message [Byte.x0a], pc_call PayloadKind_Message [Byte.x0b],
           fresh)
  = (pc_returned None, pc_returned None,
     set_buf (mkBuffer
                [CWrite (mkPacket (mkPacketID 7 2) PayloadKind_Message [Byte.x0b]);
                 CWrite (mkPacket (mkPacketID 7 1) PayloadKind_Message [Byte.x0a])])
             (set_messageID 2 fresh)).
Proof. reflexivity. Qed.

(** A call that sends two packets, overlapped by a call that sends one: the
    other call's packet reaches the writer between the two packets of the
    first call's frame. *)
Example overlapping_RawSend_splits_frame :
  overlap (C := two_byte_framer) [true; true; false; false; false; true; true]
          (pc_call PayloadKind_Message [Byte.x01; Byte.x02; Byte.x03],
           pc_call PayloadKind_Message [Byte.x0b], fresh)
  = (pc_returned None, pc_returned None,
     set_buf (mkBuffer
                [CWrite (mkPacket (mkPacketID 7 1) PayloadKind_Message [Byte.x01; Byte.x02]);
                 CWrite (mkPacket (mkPacketID 7 2) PayloadKind_Message [Byte.x0b]);
                 CWrite (mkPacket (mkPacketID 7 1) PayloadKind_Message [Byte.x03])])
             (set_messageID 2 fresh)).
Proof. reflexivity. Qed.

(** * The rest of stream.go

    What follows covers the methods the claims above leave aside or touch
    only in passing: [wireSendFlush], [RawFlush], [MsgSend], [MsgRecv],
    [RawError], [Cancel], [monitor] and [New], and how they compose. *)

(** ** What the send path leaves alone *)

Section ReceiveSide.

Context {C : Collaborators}.

(** The fields no send-path method reads or writes: the receive queue,
    [recvSig], the context, and whether the monitor goroutine is waiting. *)
Definition receive_side_kept (s s' : Stream) : Prop :=
  queue s' = queue s /\ recvSig s' = recvSig s /\
  ctx_done s' = ctx_done s /\ monitoring s' = monitoring s.

Definition keeps_receive_side {A} (c : M A) : Prop :=
  forall s, receive_side_kept s (snd (c s)).

Lemma receive_side_kept_refl s : receive_side_kept s s.
Proof. repeat split. Qed.

Lemma receive_side_kept_trans s1 s2 s3 :
  receive_side_kept s1 s2 -> receive_side_kept s2 s3 -> receive_side_kept s1 s3.
Proof.
  intros [a1 [b1 [c1 d1]]] [a2 [b2 [c2 d2]]].
  repeat split; congruence.
Qed.

Lemma keeps_ret {A} (a : A) : keeps_receive_side (ret a).
Proof. intros s. apply receive_side_kept_refl. Qed.

Lemma keeps_bind {A B} (c : M A) (k : A -> M B) :
  keeps_receive_side c -> (forall a, keeps_receive_side (k a)) ->
  keeps_receive_side (bind c k).
Proof.
  intros Hc Hk s. unfold bind. specialize (Hc s).
  destruct (c s) as [a s1]. eapply receive_side_kept_trans; [exact Hc | apply Hk].
Qed.

Lemma keeps_defer {A} (d : M unit) (body : M A) :
  keeps_receive_side d -> keeps_receive_side body -> keeps_receive_side (defer d body).
Proof.
  intros Hd Hb s. unfold defer. specialize (Hb s).
  destruct (body s) as [a s1]. eapply receive_side_kept_trans; [exact Hb | apply Hd].
Qed.

Lemma keeps_emit_each cb pkts :
  (forall p, keeps_receive_side (cb p)) -> keeps_receive_side (emit_each cb pkts).
Proof.
  intros Hcb. induction pkts as [|p rest IH]; intros s; simpl.
  - apply receive_side_kept_refl.
  - specialize (Hcb p s). destruct (cb p s) as [[e|] s1]; [exact Hcb|].
    eapply receive_side_kept_trans; [exact Hcb | apply IH].
Qed.

Lemma keeps_nextPid : keeps_receive_side nextPid.
Proof. intros s. repeat split. Qed.
Lemma keeps_pollSend : keeps_receive_side pollSend.
Proof. intros s. rewrite pollSend_pure. apply receive_side_kept_refl. Qed.
Lemma keeps_buf_Write p : keeps_receive_side (buf_Write p).
Proof. intros s. repeat split. Qed.
Lemma keeps_buf_Flush : keeps_receive_side buf_Flush.
Proof. intros s. repeat split. Qed.
Lemma keeps_sig_Set e : keeps_receive_side (sig_Set e).
Proof. intros s. repeat split. Qed.
Lemma keeps_sendSig_Set e : keeps_receive_side (sendSig_Set e).
Proof. intros s. repeat split. Qed.
Lemma keeps_termSig_Set e : keeps_receive_side (termSig_Set e).
Proof. intros s. repeat split. Qed.
Lemma keeps_get_termSig :
  keeps_receive_side (fun s : Stream => (Signal_Get (termSig s), s)).
Proof. intros s. apply receive_side_kept_refl. Qed.

Create HintDb keeps discriminated.
#[local] Hint Resolve keeps_nextPid keeps_pollSend keeps_buf_Write keeps_buf_Flush
  keeps_sig_Set keeps_sendSig_Set keeps_termSig_Set keeps_get_termSig : keeps.

Ltac keeps :=
  repeat first
    [ apply keeps_ret
    | solve [auto with keeps]
    | apply keeps_defer
    | apply keeps_bind; [|intros ?]
    | apply keeps_emit_each; intros ?
    | match goal with
      | |- keeps_receive_side (match ?x with _ => _ end) => destruct x
      end ].

Lemma keeps_wireSendFlush kind data : keeps_receive_side (wireSendFlush kind data).
Proof. unfold wireSendFlush, Split. keeps. Qed.

Lemma keeps_RawSend kind data : keeps_receive_side (RawSend kind data).
Proof. unfold RawSend, Split, RawSend_emit. keeps. Qed.

Lemma keeps_RawFlush : keeps_receive_side RawFlush.
Proof. unfold RawFlush. keeps. Qed.

#[local] Hint Resolve keeps_wireSendFlush keeps_RawSend keeps_RawFlush : keeps.

Lemma keeps_RawError err : keeps_receive_side (RawError err).
Proof. unfold RawError. keeps. Qed.

Lemma keeps_RawCancel : keeps_receive_side RawCancel.
Proof. unfold RawCancel. keeps. Qed.

Lemma keeps_CloseSend : keeps_receive_side CloseSend.
Proof. unfold CloseSend. keeps. Qed.

Lemma keeps_Close : keeps_receive_side Close.
Proof. unfold Close. keeps. Qed.

Lemma keeps_MsgSend msg : keeps_receive_side (MsgSend msg).
Proof. unfold MsgSend. keeps. Qed.

(** The calls of the send path. *)
Definition is_send_call (o : Op) : bool :=
  match o with
  | CallRawSend _ _ | CallRawFlush | CallRawError _ | CallRawCancel
  | CallMsgSend _ | CallCloseSend | CallClose => true
  | _ => false
  end.

Lemma send_call_keeps o s : is_send_call o = true -> receive_side_kept s (step o s).
Proof.
  destruct o; try discriminate; intros _; simpl; unfold exec;
    solve [ apply keeps_RawSend | apply keeps_RawFlush | apply keeps_RawError
          | apply keeps_RawCancel | apply keeps_MsgSend | apply keeps_CloseSend
          | apply keeps_Close ].
Qed.

(** What a receive returns is decided by [sig] and the queue alone. *)
Lemma RawRecv_result_by_sig_and_queue s s' :
  sig s' = sig s -> queue s' = queue s -> result RawRecv s' = result RawRecv s.
Proof.
  intros H1 H2. unfold result, RawRecv. rewrite H1, H2.
  destruct (sig s); simpl; [reflexivity|].
  destruct (items (queue s)); [destruct (closed (queue s))|]; reflexivity.
Qed.

End ReceiveSide.

(** ** Failures of the writer *)

Section WriterFailures.

Context {C : Collaborators}.

(** Every packet of [pkts], handed in order to a writer whose history is
    [h], is accepted. *)
Definition writes_accepted (h : list Call) (pkts : list Packet) : Prop :=
  forall l p r, pkts = l ++ p :: r -> Write_result (h ++ map CWrite l) p = None.

Lemma writes_accepted_nil h : writes_accepted h [].
Proof. intros l p r H. destruct l; discriminate H. Qed.

Lemma writes_accepted_cons h p rest :
  Write_result h p = None ->
  writes_accepted (h ++ [CWrite p]) rest ->
  writes_accepted h (p :: rest).
Proof.
  intros Hp Hrest l q r H. destruct l as [|p' l]; simpl in H.
  - inversion H; subst. simpl. rewrite app_nil_r. exact Hp.
  - inversion H; subst. simpl.
    specialize (Hrest l q r eq_refl). rewrite <- app_assoc in Hrest. exact Hrest.
Qed.

Lemma emit_each_Write_cons p rest s :
  emit_each buf_Write (p :: rest) s =
    match Write_result (calls (buf s)) p with
    | Some e => (Some e, set_buf (mkBuffer (calls (buf s) ++ [CWrite p])) s)
    | None => emit_each buf_Write rest (set_buf (mkBuffer (calls (buf s) ++ [CWrite p])) s)
    end.
Proof.
  simpl. unfold buf_Write at 1.
  destruct (Write_result (calls (buf s)) p); reflexivity.
Qed.

(** [Split] over [buf.Write]: either every packet is accepted and written,
    or the writer is given the packets up to the first one it refuses, and
    the refusal is the result. *)
Lemma emit_each_Write_trace pkts : forall s,
  (writes_accepted (calls (buf s)) pkts /\
   emit_each buf_Write pkts s
     = (None, set_buf (mkBuffer (calls (buf s) ++ map CWrite pkts)) s))
  \/
  (exists l p r e,
     pkts = l ++ p :: r /\
     writes_accepted (calls (buf s)) l /\
     Write_result (calls (buf s) ++ map CWrite l) p = Some e /\
     emit_each buf_Write pkts s
       = (Some e, set_buf (mkBuffer (calls (buf s) ++ map CWrite (l ++ [p]))) s)).
Proof.
  induction pkts as [|p rest IH]; intros s.
  - left. split; [apply writes_accepted_nil|].
    simpl. unfold ret. rewrite set_buf_same. reflexivity.
  - rewrite emit_each_Write_cons.
    destruct (Write_result (calls (buf s)) p) as [e|] eqn:Hp.
    + right. exists [], p, rest, e. simpl. rewrite app_nil_r.
      split; [reflexivity|]. split; [apply writes_accepted_nil|].
      split; [exact Hp|reflexivity].
    + destruct (IH (set_buf (mkBuffer (calls (buf s) ++ [CWrite p])) s))
        as [[Hacc Heq] | [l [q [r [e [Hl [Hacc [Hq Heq]]]]]]]]; simpl in *.
      * left. split; [apply writes_accepted_cons; assumption|].
        rewrite Heq. unfold set_buf; simpl. rewrite <- app_assoc. reflexivity.
      * right. exists (p :: l), q, r, e. simpl.
        split; [rewrite Hl; reflexivity|].
        split; [apply writes_accepted_cons; assumption|].
        split; [rewrite <- app_assoc in Hq; exact Hq|].
        rewrite Heq. unfold set_buf; simpl. rewrite <- app_assoc. reflexivity.
Qed.

End WriterFailures.

(** ** How a frame reaches the writer *)

Section Emission.

Context {C : Collaborators}.

(** [wireSendFlush] changes the identifier counter and the writer history
    only.  Either the whole frame is written and flushed, or the writer is
    given the packets up to the first one it refuses. *)
Lemma wireSendFlush_trace kind data s :
  let pkts := frame_packets kind (mkPacketID (streamID s) (uint64_add (messageID s) 1)) data in
  let h := calls (buf s) in
  let s0 := set_messageID (uint64_add (messageID s) 1) s in
  (writes_accepted h pkts /\
   wireSendFlush kind data s
     = (Flush_result (h ++ map CWrite pkts),
        set_buf (mkBuffer (h ++ map CWrite pkts ++ [CFlush])) s0))
  \/
  (exists l p r e,
     pkts = l ++ p :: r /\
     writes_accepted h l /\
     Write_result (h ++ map CWrite l) p = Some e /\
     wireSendFlush kind data s
       = (Some e, set_buf (mkBuffer (h ++ map CWrite (l ++ [p]))) s0)).
Proof.
  intros pkts h s0.
  unfold wireSendFlush, bind, nextPid, Split. fold pkts. fold s0.
  destruct (emit_each_Write_trace pkts s0)
    as [[Hacc Heq] | [l [p [r [e [Hl [Hacc [Hp Heq]]]]]]]]; rewrite Heq.
  - left. split; [exact Hacc|]. unfold buf_Flush. simpl. fold h.
    rewrite <- app_assoc. reflexivity.
  - right. exists l, p, r, e. split; [exact Hl|]. split; [exact Hacc|].
    split; [exact Hp|reflexivity].
Qed.

(** [wireSendFlush] touches no signal.  It hands the writer the packets of
    the frame in order and stops at the first call the writer refuses,
    returning that refusal: on success the writer got the whole frame and
    then one flush; on failure either a write was refused (nothing follows
    it, and no flush), or every packet was written and the flush was
    refused. *)
Theorem wireSendFlush_fail_fast (kind : PayloadKind) (data : Data) (s : Stream) :
  let pkts := frame_packets kind (mkPacketID (streamID s) (uint64_add (messageID s) 1)) data in
  let h := calls (buf s) in
  let s' := exec (wireSendFlush kind data) s in
  (sig s' = sig s /\ sendSig s' = sendSig s /\ termSig s' = termSig s /\
   recvSig s' = recvSig s /\ queue s' = queue s) /\
  match result (wireSendFlush kind data) s with
  | None =>
      appended s s' = map CWrite pkts ++ [CFlush] /\
      writes_accepted h pkts /\
      Flush_result (h ++ map CWrite pkts) = None
  | Some e =>
      (exists l p r,
         pkts = l ++ p :: r /\
         writes_accepted h l /\
         Write_result (h ++ map CWrite l) p = Some e /\
         appended s s' = map CWrite (l ++ [p]))
      \/
      (writes_accepted h pkts /\
       Flush_result (h ++ map CWrite pkts) = Some e /\
       appended s s' = map CWrite pkts ++ [CFlush])
  end.
Proof.
  intros pkts h s'. subst s'. unfold exec, result.
  destruct (wireSendFlush_trace kind data s)
    as [[Hacc Heq] | [l [p [r [e [Hl [Hacc [Hp Heq]]]]]]]];
    fold pkts in Hacc, Heq; fold h in Hacc, Heq; rewrite Heq; simpl.
  - split; [repeat split|].
    assert (Happ : appended s
              (set_buf (mkBuffer (h ++ map CWrite pkts ++ [CFlush]))
                 (set_messageID (uint64_add (messageID s) 1) s))
              = map CWrite pkts ++ [CFlush])
      by (apply appended_app; reflexivity).
    rewrite Happ.
    destruct (Flush_result (h ++ map CWrite pkts)) as [e|] eqn:Hf.
    + right. split; [exact Hacc|]. split; reflexivity.
    + split; [reflexivity|]. split; [exact Hacc|reflexivity].
  - fold pkts in Hl. fold h in Hp. split; [repeat split|].
    left. exists l, p, r. split; [exact Hl|]. split; [exact Hacc|].
    split; [exact Hp|]. apply appended_app. reflexivity.
Qed.

Lemma pollSend_allows s :
  fst (result pollSend s) = None ->
  sig s = None /\ termSig s = None /\ sendSig s = None.
Proof.
  rewrite pollSend_table.
  destruct (sig s), (termSig s), (sendSig s); simpl; intros H;
    try discriminate H; repeat split.
Qed.

Lemma pollSend_allowed s :
  sig s = None -> termSig s = None -> sendSig s = None ->
  result pollSend s = (None, false).
Proof. intros H1 H2 H3. rewrite pollSend_table, H1, H2, H3. reflexivity. Qed.

(** [RawSend] on a stream the policy allows: the whole frame is written, or
    the packets up to the first refused one, whose refusal is returned and
    recorded in [sig]. *)
Lemma RawSend_allowed_trace kind data s :
  fst (result pollSend s) = None ->
  let pkts := frame_packets kind (mkPacketID (streamID s) (uint64_add (messageID s) 1)) data in
  let h := calls (buf s) in
  let s0 := set_messageID (uint64_add (messageID s) 1) s in
  (writes_accepted h pkts /\
   RawSend kind data s = (None, set_buf (mkBuffer (h ++ map CWrite pkts)) s0))
  \/
  (exists l p r e,
     pkts = l ++ p :: r /\
     writes_accepted h l /\
     Write_result (h ++ map CWrite l) p = Some e /\
     RawSend kind data s
       = (Some e, set_sig (Some e) (set_buf (mkBuffer (h ++ map CWrite (l ++ [p]))) s0))).
Proof.
  intros H pkts h s0.
  destruct (pollSend_allows s H) as [Hsig _].
  unfold RawSend, bind, nextPid, Split. fold pkts. fold s0.
  rewrite emit_each_allowed by (unfold s0; rewrite pollSend_set_messageID; exact H).
  destruct (emit_each_Write_trace pkts s0)
    as [[Hacc Heq] | [l [p [r [e [Hl [Hacc [Hp Heq]]]]]]]]; rewrite Heq.
  - left. split; [exact Hacc|reflexivity].
  - right. exists l, p, r, e. split; [exact Hl|]. split; [exact Hacc|].
    split; [exact Hp|]. unfold sig_Set, ret. simpl. rewrite Hsig. reflexivity.
Qed.



Lemma RawFlush_allowed s :
  fst (result pollSend s) = None ->
  RawFlush s =
    match Flush_result (calls (buf s)) with
    | Some e => (Some e, set_sig (Some e) (set_buf (mkBuffer (calls (buf s) ++ [CFlush])) s))
    | None => (None, set_buf (mkBuffer (calls (buf s) ++ [CFlush])) s)
    end.
Proof.
  intros H. destruct (pollSend_allows s H) as [Hsig _].
  unfold RawFlush, bind. rewrite pollSend_eq, H.
  unfold buf_Flush. destruct (Flush_result (calls (buf s))) as [e|]; [|reflexivity].
  unfold sig_Set, ret. simpl. rewrite Hsig. reflexivity.
Qed.

(** [MsgSend] returns a marshalling error before it touches the stream.
    Past marshalling, for a call no other call overlaps, a nil result means that no signal was set, that the
    writer got the whole frame of the message followed by one flush, and
    that no signal is set afterwards; an error result is always recorded as
    the general error (unless one was recorded before, which is then the
    error returned), and a call the policy denies does not reach the
    writer. *)
Theorem MsgSend_spec (msg : Message) (s : Stream) :
  let pkts := frame_packets PayloadKind_Message
                (mkPacketID (streamID s) (uint64_add (messageID s) 1))
                (fst (proto_Marshal msg)) in
  let s' := exec (MsgSend msg) s in
  match snd (proto_Marshal msg) with
  | Some e => MsgSend msg s = (Some e, s)
  | None =>
    match result (MsgSend msg) s with
    | None =>
        (sig s = None /\ termSig s = None /\ sendSig s = None) /\
        appended s s' = map CWrite pkts ++ [CFlush] /\
        writes_accepted (calls (buf s)) pkts /\
        Flush_result (calls (buf s) ++ map CWrite pkts) = None /\
        sig s' = None /\ termSig s' = None /\ sendSig s' = None
    | Some e =>
        sig s' = Some (match sig s with Some e0 => e0 | None => e end) /\
        (forall e0, fst (result pollSend s) = Some e0 -> e = e0 /\ buf s' = buf s)
    end
  end.
Proof.
  intros pkts s'. subst s'. unfold MsgSend.
  destruct (proto_Marshal msg) as [data [me|]] eqn:Hm; simpl in pkts |- *;
    [reflexivity|].
  destruct (fst (result pollSend s)) as [e0|] eqn:Hpoll; unfold exec, result, bind.
  - rewrite (RawSend_denied _ data s e0 Hpoll). unfold ret. simpl.
    split.
    + destruct (sig s); reflexivity.
    + intros e1 He1. inversion He1; subst. split; reflexivity.
  - destruct (pollSend_allows s Hpoll) as [Hsig [Hterm Hsend]].
    destruct (RawSend_allowed_trace PayloadKind_Message data s Hpoll)
      as [[Hacc Heq] | [l [p [r [e [Hl [Hacc [Hp Heq]]]]]]]];
      fold pkts in Hacc, Heq; rewrite Heq.
    + rewrite RawFlush_allowed
        by (rewrite pollSend_set_buf, pollSend_set_messageID; exact Hpoll).
      simpl.
      destruct (Flush_result (calls (buf s) ++ map CWrite pkts)) as [e|] eqn:Hf; simpl.
      * rewrite Hsig. split; [reflexivity|]. intros e0 He0. discriminate He0.
      * split; [repeat split; assumption|].
        split; [apply appended_app; simpl; rewrite <- app_assoc; reflexivity|].
        split; [exact Hacc|]. split; [reflexivity|].
        repeat split; assumption.
    + unfold ret. simpl. rewrite Hsig.
      split; [reflexivity|]. intros e0 He0. discriminate He0.
Qed.

(** A [CloseSend] whose frame the writer refuses returns the writer's
    error, but records nothing as the general error and still marks the send
    half closed: the next [CloseSend] returns nil without calling the writer
    again, and receiving is not affected. *)
Theorem CloseSend_failure_is_not_recorded (s : Stream) (e : error) :
  sig s = None -> termSig s = None -> sendSig s = None ->
  result CloseSend s = Some e ->
  let s' := exec CloseSend s in
  sig s' = None /\ termSig s' = None /\
  sendSig s' = Some err_send_after_CloseSend /\
  CloseSend s' = (None, s') /\
  result RawRecv s' = result RawRecv s /\
  ((exists l p r,
      frame_packets PayloadKind_CloseSend
        (mkPacketID (streamID s) (uint64_add (messageID s) 1)) [] = l ++ p :: r /\
      Write_result (calls (buf s) ++ map CWrite l) p = Some e /\
      appended s s' = map CWrite (l ++ [p]))
   \/
   (Flush_result
      (calls (buf s) ++
       map CWrite (frame_packets PayloadKind_CloseSend
                     (mkPacketID (streamID s) (uint64_add (messageID s) 1)) []))
      = Some e)).
Proof.
  intros Hsig Hterm Hsend Hres s'.
  assert (Hst : s' = set_sendSig (Some err_send_after_CloseSend)
                       (exec (wireSendFlush PayloadKind_CloseSend []) s))
    by (unfold s', exec at 1; rewrite (CloseSend_emits s Hsig Hterm Hsend); reflexivity).
  assert (Hr : result (wireSendFlush PayloadKind_CloseSend []) s = Some e)
    by (unfold result in Hres |- *;
        rewrite (CloseSend_emits s Hsig Hterm Hsend) in Hres; exact Hres).
  destruct (wireSendFlush_shape PayloadKind_CloseSend [] s) as [p0 [l0 [Hw _]]].
  assert (Hsig' : sig s' = None) by (rewrite Hst, Hw; exact Hsig).
  assert (Hterm' : termSig s' = None) by (rewrite Hst, Hw; exact Hterm).
  assert (Hsend' : sendSig s' = Some err_send_after_CloseSend)
    by (rewrite Hst; reflexivity).
  split; [exact Hsig'|]. split; [exact Hterm'|]. split; [exact Hsend'|].
  split; [exact (CloseSend_already_closed s' _ Hsig' Hterm' Hsend')|].
  split.
  { apply RawRecv_result_by_sig_and_queue.
    - congruence.
    - apply (keeps_CloseSend s). }
  assert (Hbuf : buf s' = buf (exec (wireSendFlush PayloadKind_CloseSend []) s))
    by (rewrite Hst; reflexivity).
  unfold result in Hr. unfold exec in Hbuf.
  destruct (wireSendFlush_trace PayloadKind_CloseSend [] s)
    as [[Hacc Heq] | [l [p [r [e1 [Hl [Hacc [Hp Heq]]]]]]]];
    rewrite Heq in Hr, Hbuf; simpl in Hr, Hbuf.
  - right. exact Hr.
  - left. inversion Hr; subst e1. exists l, p, r.
    split; [exact Hl|]. split; [exact Hp|].
    apply appended_app. rewrite Hbuf. reflexivity.
Qed.

End Emission.

(** Over a writer whose every call fails, on a fresh stream. *)
Lemma CloseSend_failure_is_not_recorded_witness :
  result (CloseSend (C := broken_writer)) fresh = Some (external_error "write failed") /\
  sig (exec (CloseSend (C := broken_writer)) fresh) = None /\
  CloseSend (C := broken_writer) (exec (CloseSend (C := broken_writer)) fresh)
    = (None, exec (CloseSend (C := broken_writer)) fresh).
Proof.
  assert (H : result (CloseSend (C := broken_writer)) fresh
              = Some (external_error "write failed")) by reflexivity.
  split; [exact H|].
  pose proof (CloseSend_failure_is_not_recorded (C := broken_writer) fresh _
                eq_refl eq_refl eq_refl H) as W.
  split; [exact (proj1 W)|]. exact (proj1 (proj2 (proj2 (proj2 W)))).
Defined.


(** ** What is final *)

Section Finality.

Context {C : Collaborators}.

Lemma Close_all_set s a b c :
  sig s = Some a -> termSig s = Some b -> sendSig s = Some c -> Close s = (None, s).
Proof.
  intros H1 H2 H3. rewrite (Close_denied s a (pollSend_sig s a H1)).
  destruct s; simpl in *; subst; reflexivity.
Qed.

Lemma wireSendFlush_signals kind data s :
  sig (exec (wireSendFlush kind data) s) = sig s /\
  termSig (exec (wireSendFlush kind data) s) = termSig s /\
  sendSig (exec (wireSendFlush kind data) s) = sendSig s.
Proof.
  destruct (wireSendFlush_shape kind data s) as [p [l [H _]]].
  rewrite H. repeat split.
Qed.

Lemma RawRecv_failed s e : sig s = Some e -> RawRecv s = (Some (None, Some e), s).
Proof. intros H. unfold RawRecv. rewrite H. reflexivity. Qed.

(** Along any run a signal that holds a value keeps that value (first set
    wins, whoever sets it), the stream keeps its identifier, and the writer
    history only grows: no step removes or rewrites a call. *)
Theorem signals_keep_their_first_value (ops : list Op) (s : Stream) :
  let s' := run ops s in
  (forall e, sig s = Some e -> sig s' = Some e) /\
  (forall e, sendSig s = Some e -> sendSig s' = Some e) /\
  (forall e, termSig s = Some e -> termSig s' = Some e) /\
  streamID s' = streamID s /\
  firstn (length (calls (buf s))) (calls (buf s')) = calls (buf s).
Proof.
  intros s'. destruct (run_evolves ops s) as [H1 H2 H3 H4 [l H5]]. fold s' in H1, H2, H3, H4, H5.
  split; [exact H1|]. split; [exact H2|]. split; [exact H3|]. split; [exact H4|].
  rewrite H5, firstn_app, Nat.sub_diag, firstn_all. simpl. apply app_nil_r.
Qed.

(** Once the general error is recorded it is final: whatever steps follow,
    it stays recorded, every send-side call but [Close] fails with it
    without calling the writer, [Close] returns nil without calling the
    writer, and every receive fails with it at once, so that packets still in
    the queue are never delivered. *)
Theorem general_error_is_final (e : error) (ops : list Op) (s : Stream) :
  sig s = Some e ->
  let s' := run ops s in
  sig s' = Some e /\
  (forall kind data,
     result (RawSend kind data) s' = Some e /\
     buf (exec (RawSend kind data) s') = buf s') /\
  RawFlush s' = (Some e, s') /\
  (forall msg, snd (proto_Marshal msg) = None ->
     result (MsgSend msg) s' = Some e /\ buf (exec (MsgSend msg) s') = buf s') /\
  (result CloseSend s' = Some e /\ buf (exec CloseSend s') = buf s') /\
  (result Close s' = None /\ buf (exec Close s') = buf s') /\
  RawRecv s' = (Some (None, Some e), s') /\
  MsgRecv s' = (Some (Some e), s').
Proof.
  intros H s'.
  assert (Hs : sig s' = Some e) by (apply (ev_sig _ _ (run_evolves ops s)); exact H).
  pose proof (pollSend_sig s' e Hs) as Hp.
  assert (Hd : fst (result pollSend s') = Some e) by (rewrite Hp; reflexivity).
  split; [exact Hs|].
  split.
  { intros kind data. unfold result, exec.
    rewrite (RawSend_denied kind data s' e Hd). split; reflexivity. }
  split; [exact (RawFlush_denied s' e Hd)|].
  split.
  { intros msg Hm. unfold result, exec, MsgSend.
    destruct (proto_Marshal msg) as [data me]. simpl in Hm. subst me.
    unfold bind. rewrite (RawSend_denied _ data s' e Hd). split; reflexivity. }
  split.
  { unfold result, exec. rewrite (CloseSend_denied s' e Hp). split; reflexivity. }
  split.
  { unfold result, exec. rewrite (Close_denied s' e Hp). split; reflexivity. }
  split; [exact (RawRecv_failed s' e Hs)|].
  unfold MsgRecv, bind. rewrite (RawRecv_failed s' e Hs). reflexivity.
Qed.

(** [Close] is final and idempotent.  A second [Close] returns nil and
    changes nothing.  Whatever steps follow a [Close], the three signals and
    the writer history stay as [Close] left them; receiving fails with the
    general error ("stream closed" unless an error was recorded earlier)
    even while packets are queued, and [CloseSend] fails with that error
    too instead of returning nil. *)
Theorem Close_is_final (ops : list Op) (s : Stream) :
  let e := match sig s with Some e0 => e0 | None => err_stream_closed end in
  let s1 := exec Close s in
  let s2 := run ops s1 in
  Close s1 = (None, s1) /\
  (sig s2 = sig s1 /\ sendSig s2 = sendSig s1 /\ termSig s2 = termSig s1 /\
   buf s2 = buf s1) /\
  sig s1 = Some e /\
  Close s2 = (None, s2) /\
  RawRecv s2 = (Some (None, Some e), s2) /\
  MsgRecv s2 = (Some (Some e), s2) /\
  result CloseSend s2 = Some e.
Proof.
  intros e s1 s2.
  destruct (Close_latches s) as [Ha [Hb Hc]]. fold s1 in Ha, Hb, Hc. fold e in Hc.
  pose proof (run_evolves ops s1) as Hev. fold s2 in Hev.
  pose proof (ev_sig _ _ Hev _ Hc) as Hc2.
  pose proof (ev_sendSig _ _ Hev _ Ha) as Ha2.
  pose proof (ev_termSig _ _ Hev _ Hb) as Hb2.
  split; [exact (Close_all_set s1 _ _ _ Hc Hb Ha)|].
  split.
  { split; [congruence|]. split; [congruence|]. split; [congruence|].
    exact (proj1 (run_quiet ops s1 _ Hb)). }
  split; [exact Hc|].
  split; [exact (Close_all_set s2 _ _ _ Hc2 Hb2 Ha2)|].
  split; [exact (RawRecv_failed s2 e Hc2)|].
  split.
  { unfold MsgRecv, bind. rewrite (RawRecv_failed s2 e Hc2). reflexivity. }
  unfold result. rewrite (CloseSend_denied s2 e (pollSend_sig s2 e Hc2)). reflexivity.
Qed.

(** [RawError] sends the error to the peer and records nothing but the
    termination: the general error, [sendSig] and the receive queue stay as
    they were, so [RawRecv] answers as before.  With [termSig] unset it hands
    the writer what [wireSendFlush] hands it for an Error frame holding the
    error's text; with [termSig] set it does nothing at all.  Afterwards
    [termSig] is set, a second [RawError] does nothing, and on a stream with
    no general error [RawSend] is denied with the terminal error. *)
Theorem RawError_spec (err : error) (s : Stream) :
  let s' := exec (RawError err) s in
  let t := match termSig s with Some t0 => t0 | None => err_stream_terminated end in
  sig s' = sig s /\ sendSig s' = sendSig s /\ termSig s' = Some t /\
  queue s' = queue s /\
  result RawRecv s' = result RawRecv s /\
  match termSig s with
  | Some _ => s' = s
  | None =>
      buf s' = buf (exec (wireSendFlush PayloadKind_Error (Error_text err)) s) /\
      messageID s' = uint64_add (messageID s) 1
  end /\
  (forall err', RawError err' s' = (tt, s')) /\
  (sig s = None -> forall kind data,
     result (RawSend kind data) s' = Some t /\
     buf (exec (RawSend kind data) s') = buf s').
Proof.
  intros s' t.
  assert (Hsig : sig s' = sig s /\ sendSig s' = sendSig s /\ termSig s' = Some t).
  { unfold s', t, exec. destruct (termSig s) as [t0|] eqn:Ht.
    - rewrite (RawError_terminated err s t0 Ht). simpl. repeat split. exact Ht.
    - rewrite (RawError_emits err s Ht). simpl.
      destruct (wireSendFlush_signals PayloadKind_Error (Error_text err) s)
        as [H1 [_ H3]].
      repeat split; assumption. }
  destruct Hsig as [H1 [H2 H3]].
  assert (Hq : queue s' = queue s) by (apply (keeps_RawError err s)).
  split; [exact H1|]. split; [exact H2|]. split; [exact H3|]. split; [exact Hq|].
  split; [apply RawRecv_result_by_sig_and_queue; assumption|].
  split.
  { unfold s', exec. destruct (termSig s) as [t0|] eqn:Ht.
    - rewrite (RawError_terminated err s t0 Ht). reflexivity.
    - rewrite (RawError_emits err s Ht). simpl.
      destruct (wireSendFlush_shape PayloadKind_Error (Error_text err) s)
        as [p [l [Hw _]]].
      split; [reflexivity|]. rewrite Hw. reflexivity. }
  split; [intros err'; exact (RawError_terminated err' s' t H3)|].
  intros Hs kind data.
  assert (Hd : fst (result pollSend s') = Some t).
  { rewrite pollSend_table, H1, Hs, H3. reflexivity. }
  unfold result, exec. rewrite (RawSend_denied kind data s' t Hd). split; reflexivity.
Qed.

End Finality.

(** The stream whose general error was set by the demultiplexer, after a
    packet arrived and the user went on calling. *)
Lemma general_error_is_final_witness :
  sig reset_by_peer = Some (external_error "connection reset") /\
  RawRecv
    (run (C := two_byte_framer)
       [Enqueue (mkPacket (mkPacketID 7 1) PayloadKind_Message []); CallCloseSend]
       reset_by_peer)
  = (Some (None, Some (external_error "connection reset")),
     run (C := two_byte_framer)
       [Enqueue (mkPacket (mkPacketID 7 1) PayloadKind_Message []); CallCloseSend]
       reset_by_peer).
Proof.
  split; [reflexivity|].
  pose proof (general_error_is_final (C := two_byte_framer)
                (external_error "connection reset")
                [Enqueue (mkPacket (mkPacketID 7 1) PayloadKind_Message []); CallCloseSend]
                reset_by_peer eq_refl) as W.
  exact (proj1 (proj2 (proj2 (proj2 (proj2 (proj2 (proj2 W))))))).
Defined.

(** After [RawError] on a fresh stream a send is denied as terminated. *)
Lemma RawError_spec_witness :
  sig fresh = None /\
  result (RawSend (C := two_byte_framer) PayloadKind_Message [])
         (exec (RawError (C := two_byte_framer) io_EOF) fresh)
    = Some err_stream_terminated.
Proof.
  split; [reflexivity|].
  pose proof (RawError_spec (C := two_byte_framer) io_EOF fresh) as W.
  exact (proj1 (proj2 (proj2 (proj2 (proj2 (proj2 (proj2 (proj2 W))))))
                 eq_refl PayloadKind_Message [])).
Defined.

(** ** Receiving *)

Section Receiving.

Context {C : Collaborators}.

(** [n] calls of [RawRecv], one after the other, with their outcomes in call
    order. *)
Fixpoint RawRecv_times (n : nat) : M (list RecvOutcome) :=
  match n with
  | O => ret []
  | S k => r <- RawRecv ;; rs <- RawRecv_times k ;; ret (r :: rs)
  end.

(** The same for [MsgRecv]. *)
Fixpoint MsgRecv_times (n : nat) : M (list (option goerror)) :=
  match n with
  | O => ret []
  | S k => r <- MsgRecv ;; rs <- MsgRecv_times k ;; ret (r :: rs)
  end.

(** The outcome of a receive that returns the packet [p]. *)
Definition delivered (p : Packet) : RecvOutcome := Some (Some p, None).

Lemma set_queue_same s : set_queue (mkChan (items (queue s)) (closed (queue s))) s = s.
Proof. destruct s as [? ? ? ? ? ? ? ? [? ?] ?]. reflexivity. Qed.

Lemma RawRecv_head s p rest :
  sig s = None -> items (queue s) = p :: rest ->
  RawRecv s = (delivered p, set_queue (mkChan rest (closed (queue s))) s).
Proof. intros H1 H2. unfold RawRecv. rewrite H1, H2. reflexivity. Qed.

Lemma RawRecv_blocks s :
  sig s = None -> items (queue s) = [] -> closed (queue s) = false ->
  RawRecv s = (None, s).
Proof. intros H1 H2 H3. unfold RawRecv. rewrite H1, H2, H3. reflexivity. Qed.

Lemma RawRecv_times_delivers n : forall s,
  sig s = None -> (n <= length (items (queue s)))%nat ->
  RawRecv_times n s =
    (map delivered (firstn n (items (queue s))),
     set_queue (mkChan (skipn n (items (queue s))) (closed (queue s))) s).
Proof.
  induction n as [|n IH]; intros s Hs Hn; simpl.
  - unfold ret. rewrite set_queue_same. reflexivity.
  - destruct (items (queue s)) as [|p rest] eqn:Hi; [simpl in Hn; lia|].
    unfold bind. rewrite (RawRecv_head s p rest Hs Hi).
    rewrite IH; [reflexivity | exact Hs | simpl in *; lia].
Qed.

Lemma MsgRecv_times_delivers n : forall s,
  sig s = None -> (n <= length (items (queue s)))%nat ->
  MsgRecv_times n s =
    (map (fun p => Some (proto_Unmarshal (pkt_Data p))) (firstn n (items (queue s))),
     set_queue (mkChan (skipn n (items (queue s))) (closed (queue s))) s).
Proof.
  induction n as [|n IH]; intros s Hs Hn; simpl.
  - unfold ret. rewrite set_queue_same. reflexivity.
  - destruct (items (queue s)) as [|p rest] eqn:Hi; [simpl in Hn; lia|].
    unfold bind, MsgRecv at 1, bind. rewrite (RawRecv_head s p rest Hs Hi).
    unfold delivered, ret.
    rewrite IH; [reflexivity | exact Hs | simpl in *; lia].
Qed.

Lemma RawRecv_times_app n k s :
  RawRecv_times (n + k) s =
    (result (RawRecv_times n) s ++ result (RawRecv_times k) (exec (RawRecv_times n) s),
     exec (RawRecv_times k) (exec (RawRecv_times n) s)).
Proof.
  revert s. induction n as [|n IH]; intros s; simpl.
  - unfold result, exec, ret. simpl. destruct (RawRecv_times k s); reflexivity.
  - unfold result, exec, bind, ret in *.
    destruct (RawRecv s) as [r s1]. rewrite IH.
    destruct (RawRecv_times n s1) as [rs s2]. simpl. reflexivity.
Qed.

Lemma RawRecv_times_EOF k s :
  sig s = None -> items (queue s) = [] -> closed (queue s) = true ->
  RawRecv_times k s = (repeat (Some (None, Some io_EOF)) k, s).
Proof.
  intros H1 H2 H3. induction k as [|k IH]; simpl; [reflexivity|].
  unfold bind, RawRecv at 1. rewrite H1, H2, H3. simpl. rewrite IH. reflexivity.
Qed.

Lemma run_Enqueue pkts : forall s,
  closed (queue s) = false ->
  (length (items (queue s)) + length pkts <= queue_capacity)%nat ->
  run (map Enqueue pkts) s
    = set_queue (mkChan (items (queue s) ++ pkts) false) s.
Proof.
  induction pkts as [|p pkts IH]; intros s Hc Hn; simpl.
  - rewrite app_nil_r, <- Hc. symmetry. apply set_queue_same.
  - unfold exec, enqueue. rewrite Hc. simpl in Hn.
    assert (Hfull : (queue_capacity <=? length (items (queue s)))%nat = false)
      by (apply Nat.leb_gt; lia).
    rewrite Hfull. simpl.
    rewrite IH; simpl.
    + rewrite <- app_assoc. reflexivity.
    + reflexivity.
    + rewrite length_app. simpl. lia.
Qed.

(** The queue is first in, first out.  While the buffer has room (100
    packets) and no general error is set, packets the demultiplexer puts on
    the queue come back from as many [RawRecv] calls, after the packets
    that were already waiting, in the order they were put; the calls touch
    neither the writer nor a signal, and the next [RawRecv] blocks. *)
Theorem queue_is_first_in_first_out (pkts : list Packet) (s : Stream) :
  sig s = None -> closed (queue s) = false ->
  (length (items (queue s)) + length pkts <= queue_capacity)%nat ->
  let s1 := run (map Enqueue pkts) s in
  let n := (length (items (queue s)) + length pkts)%nat in
  let s2 := exec (RawRecv_times n) s1 in
  items (queue s1) = items (queue s) ++ pkts /\
  result (RawRecv_times n) s1 = map delivered (items (queue s) ++ pkts) /\
  items (queue s2) = [] /\
  buf s2 = buf s /\ sig s2 = None /\
  RawRecv s2 = (None, s2).
Proof.
  intros Hs Hc Hn s1 n s2.
  assert (H1 : s1 = set_queue (mkChan (items (queue s) ++ pkts) false) s)
    by (apply run_Enqueue; assumption).
  assert (Hi : items (queue s1) = items (queue s) ++ pkts) by (rewrite H1; reflexivity).
  assert (Hs1 : sig s1 = None) by (rewrite H1; exact Hs).
  assert (Hlen : n = length (items (queue s1)))
    by (rewrite Hi, length_app; reflexivity).
  assert (Hall : RawRecv_times n s1 =
                 (map delivered (items (queue s1)),
                  set_queue (mkChan [] (closed (queue s1))) s1)).
  { rewrite RawRecv_times_delivers; [|exact Hs1|lia].
    rewrite Hlen, firstn_all, skipn_all. reflexivity. }
  split; [exact Hi|].
  split; [unfold result; rewrite Hall, Hi; reflexivity|].
  assert (H2 : s2 = set_queue (mkChan [] (closed (queue s1))) s1)
    by (unfold s2, exec; rewrite Hall; reflexivity).
  split; [rewrite H2; reflexivity|].
  split; [rewrite H2, H1; reflexivity|].
  split; [rewrite H2; exact Hs1|].
  apply RawRecv_blocks.
  - rewrite H2; exact Hs1.
  - rewrite H2; reflexivity.
  - rewrite H2, H1; reflexivity.
Qed.

(** A closed queue is read to its end: with no general error set, the
    packets still buffered are delivered in order, and from then on every
    [RawRecv] returns [io.EOF].  [io.EOF] is not recorded: the general error
    stays unset. *)
Theorem closed_queue_drains_then_EOF (k : nat) (s : Stream) :
  sig s = None -> closed (queue s) = true ->
  let n := (length (items (queue s)) + k)%nat in
  result (RawRecv_times n) s
    = map delivered (items (queue s)) ++ repeat (Some (None, Some io_EOF)) k /\
  sig (exec (RawRecv_times n) s) = None /\
  items (queue (exec (RawRecv_times n) s)) = [] /\
  buf (exec (RawRecv_times n) s) = buf s.
Proof.
  intros Hs Hc n. unfold n.
  set (m := length (items (queue s))).
  assert (Hall : RawRecv_times m s =
                 (map delivered (items (queue s)),
                  set_queue (mkChan [] (closed (queue s))) s)).
  { rewrite RawRecv_times_delivers; [|exact Hs|unfold m; lia].
    unfold m. rewrite firstn_all, skipn_all. reflexivity. }
  unfold result, exec. rewrite RawRecv_times_app.
  unfold result, exec. rewrite Hall. simpl.
  rewrite RawRecv_times_EOF; [|exact Hs|reflexivity|exact Hc].
  simpl. repeat split; assumption.
Qed.

(** [MsgRecv] hands each queued packet's data to [proto.Unmarshal] in queue
    order and returns what it returns, whatever the kind and the identifier
    of the packet.  An unmarshalling error consumes the packet and is not
    recorded: the general error stays unset and the next call gets the next
    packet. *)
Theorem MsgRecv_in_queue_order (n : nat) (s : Stream) :
  sig s = None -> (n <= length (items (queue s)))%nat ->
  let s' := exec (MsgRecv_times n) s in
  result (MsgRecv_times n) s
    = map (fun p => Some (proto_Unmarshal (pkt_Data p))) (firstn n (items (queue s))) /\
  items (queue s') = skipn n (items (queue s)) /\
  closed (queue s') = closed (queue s) /\
  sig s' = None /\ buf s' = buf s.
Proof.
  intros Hs Hn s'. unfold s', result, exec.
  rewrite (MsgRecv_times_delivers n s Hs Hn). simpl.
  repeat split. exact Hs.
Qed.

End Receiving.

(** Two packets as the demultiplexer would queue them. *)
Definition first_packet : Packet :=
  mkPacket (mkPacketID 7 1) PayloadKind_Message [Byte.x68; Byte.x69].
Definition second_packet : Packet :=
  mkPacket (mkPacketID 7 2) PayloadKind_Message [].

Lemma queue_is_first_in_first_out_witness :
  sig fresh = None /\ closed (queue fresh) = false /\
  result (RawRecv_times 2)
         (run (C := two_byte_framer) (map Enqueue [first_packet; second_packet]) fresh)
    = [delivered first_packet; delivered second_packet].
Proof.
  split; [reflexivity|]. split; [reflexivity|].
  assert (Hn : (length (items (queue fresh)) + length [first_packet; second_packet]
                <= queue_capacity)%nat) by (apply Nat.leb_le; reflexivity).
  exact (proj1 (proj2 (queue_is_first_in_first_out (C := two_byte_framer)
                         [first_packet; second_packet] fresh eq_refl eq_refl Hn))).
Defined.

(** A stream whose queue holds one packet and was then closed. *)
Definition half_read : Stream :=
  exec close_queue (exec (enqueue first_packet) fresh).

Lemma closed_queue_drains_then_EOF_witness :
  sig half_read = None /\ closed (queue half_read) = true /\
  result (RawRecv_times 3) half_read
    = [delivered first_packet; Some (None, Some io_EOF); Some (None, Some io_EOF)].
Proof.
  split; [reflexivity|]. split; [reflexivity|].
  exact (proj1 (closed_queue_drains_then_EOF 2 half_read eq_refl eq_refl)).
Defined.

Lemma MsgRecv_in_queue_order_witness :
  sig half_read = None /\
  result (MsgRecv_times (C := two_byte_framer) 1) half_read = [Some None].
Proof.
  split; [reflexivity|].
  assert (Hn : (1 <= length (items (queue half_read)))%nat)
    by (apply Nat.leb_le; reflexivity).
  exact (proj1 (MsgRecv_in_queue_order (C := two_byte_framer) 1 half_read eq_refl Hn)).
Defined.

(** ** Cancellation and the monitor *)

Section Cancellation.

Context {C : Collaborators}.

(** A computation that neither reads nor writes the context: it runs the
    same whether or not the context is cancelled. *)
Definition ctx_blind {A} (c : M A) : Prop :=
  forall b s, c (set_ctx_done b s) = (fst (c s), set_ctx_done b (snd (c s))).

Lemma blind_ret {A} (a : A) : ctx_blind (ret a).
Proof. intros b s. reflexivity. Qed.

Lemma blind_bind {A B} (c : M A) (k : A -> M B) :
  ctx_blind c -> (forall a, ctx_blind (k a)) -> ctx_blind (bind c k).
Proof.
  intros Hc Hk b s. unfold bind. rewrite Hc.
  destruct (c s) as [a s1]. simpl. rewrite Hk. reflexivity.
Qed.

Lemma blind_defer {A} (d : M unit) (body : M A) :
  ctx_blind d -> ctx_blind body -> ctx_blind (defer d body).
Proof.
  intros Hd Hb b s. unfold defer. rewrite Hb.
  destruct (body s) as [a s1]. simpl. rewrite Hd. reflexivity.
Qed.

Lemma blind_emit_each cb pkts :
  (forall p, ctx_blind (cb p)) -> ctx_blind (emit_each cb pkts).
Proof.
  intros Hcb. induction pkts as [|p rest IH]; intros b s; simpl; [reflexivity|].
  rewrite Hcb. destruct (cb p s) as [[e|] s1]; simpl; [reflexivity|apply IH].
Qed.

Lemma blind_nextPid : ctx_blind nextPid.
Proof. intros b s. reflexivity. Qed.
Lemma blind_pollSend : ctx_blind pollSend.
Proof.
  intros b s. unfold pollSend. simpl.
  destruct (sig s), (termSig s), (sendSig s); reflexivity.
Qed.
Lemma blind_buf_Write p : ctx_blind (buf_Write p).
Proof. intros b s. reflexivity. Qed.
Lemma blind_buf_Flush : ctx_blind buf_Flush.
Proof. intros b s. reflexivity. Qed.
Lemma blind_sig_Set e : ctx_blind (sig_Set e).
Proof. intros b s. reflexivity. Qed.
Lemma blind_sendSig_Set e : ctx_blind (sendSig_Set e).
Proof. intros b s. reflexivity. Qed.
Lemma blind_termSig_Set e : ctx_blind (termSig_Set e).
Proof. intros b s. reflexivity. Qed.
Lemma blind_get_termSig : ctx_blind (fun s : Stream => (Signal_Get (termSig s), s)).
Proof. intros b s. reflexivity. Qed.
Lemma blind_RawRecv : ctx_blind RawRecv.
Proof.
  intros b s. unfold RawRecv. simpl. destruct (sig s); simpl; [reflexivity|].
  destruct (items (queue s)); [destruct (closed (queue s))|]; reflexivity.
Qed.

Create HintDb blind discriminated.
#[local] Hint Resolve blind_nextPid blind_pollSend blind_buf_Write blind_buf_Flush
  blind_sig_Set blind_sendSig_Set blind_termSig_Set blind_get_termSig
  blind_RawRecv : blind.

Ltac blind :=
  repeat first
    [ apply blind_ret
    | solve [auto with blind]
    | apply blind_defer
    | apply blind_bind; [|intros ?]
    | apply blind_emit_each; intros ?
    | match goal with
      | |- ctx_blind (match ?x with _ => _ end) => destruct x
      | |- ctx_blind (let (_, _) := ?x in _) => destruct x
      end ].

Lemma blind_wireSendFlush kind data : ctx_blind (wireSendFlush kind data).
Proof. unfold wireSendFlush, Split. blind. Qed.

Lemma blind_RawSend kind data : ctx_blind (RawSend kind data).
Proof. unfold RawSend, Split, RawSend_emit. blind. Qed.

Lemma blind_RawFlush : ctx_blind RawFlush.
Proof. unfold RawFlush. blind. Qed.

#[local] Hint Resolve blind_wireSendFlush blind_RawSend blind_RawFlush : blind.

Lemma blind_RawError err : ctx_blind (RawError err).
Proof. unfold RawError. blind. Qed.

Lemma blind_RawCancel : ctx_blind RawCancel.
Proof. unfold RawCancel. blind. Qed.

Lemma blind_CloseSend : ctx_blind CloseSend.
Proof. unfold CloseSend. blind. Qed.

Lemma blind_Close : ctx_blind Close.
Proof. unfold Close. blind. Qed.

Lemma blind_MsgSend msg : ctx_blind (MsgSend msg).
Proof. unfold MsgSend. blind. Qed.

Lemma blind_MsgRecv : ctx_blind MsgRecv.
Proof. unfold MsgRecv. blind. Qed.

Lemma blind_monitor_sig : ctx_blind monitor_sig.
Proof.
  intros b s. unfold monitor_sig. simpl.
  destruct (monitoring s); [|reflexivity].
  destruct (sig s) as [e|]; simpl; [|reflexivity].
  change (set_monitoring false (set_ctx_done b s))
    with (set_ctx_done b (set_monitoring false s)).
  apply blind_RawError.
Qed.

(** No method of the stream reads the context; only the second case of the
    monitor's [select] does.  Cancelling the context therefore fails and
    stops no call by itself: every method, and the first case of the
    monitor, returns the same result and leaves the same state as on the
    stream that was not cancelled. *)
Theorem only_the_monitor_reads_the_context (s : Stream) :
  let same {A} (c : M A) := c (exec Cancel s) = (result c s, exec Cancel (exec c s)) in
  (forall kind data, same (RawSend kind data)) /\
  same RawFlush /\ same RawRecv /\
  (forall msg, same (MsgSend msg)) /\
  same MsgRecv /\ same CloseSend /\ same Close /\
  (forall err, same (RawError err)) /\
  same RawCancel /\
  same (monitor case_sig).
Proof.
  intros same. unfold same, exec, result, Cancel. simpl.
  split; [intros kind data; apply blind_RawSend|].
  split; [apply blind_RawFlush|].
  split; [apply blind_RawRecv|].
  split; [intros msg; apply blind_MsgSend|].
  split; [apply blind_MsgRecv|].
  split; [apply blind_CloseSend|].
  split; [apply blind_Close|].
  split; [intros err; apply blind_RawError|].
  split; [apply blind_RawCancel|].
  apply blind_monitor_sig.
Qed.

Lemma MsgRecv_state s : exec MsgRecv s = exec RawRecv s.
Proof.
  unfold exec, MsgRecv, bind.
  destruct (RawRecv s) as [[[[p|] [e|]]|] s1]; reflexivity.
Qed.

Lemma RawRecv_monitoring s : monitoring (exec RawRecv s) = monitoring s.
Proof.
  unfold exec, RawRecv. destruct (sig s); simpl; [reflexivity|].
  destruct (items (queue s)); [destruct (closed (queue s))|]; reflexivity.
Qed.

(** The steps of the monitor goroutine. *)
Definition is_monitor_step (o : Op) : bool :=
  match o with
  | MonitorSig | MonitorCtx => true
  | _ => false
  end.

Lemma step_monitoring_kept o s :
  is_monitor_step o = false -> monitoring (step o s) = monitoring s.
Proof.
  intros H.
  destruct (is_send_call o) eqn:Hsend.
  - apply (send_call_keeps o s Hsend).
  - destruct o; try discriminate; simpl.
    + apply RawRecv_monitoring.
    + rewrite MsgRecv_state. apply RawRecv_monitoring.
    + reflexivity.
    + unfold exec, enqueue.
      destruct (closed (queue s) || (queue_capacity <=? length (items (queue s)))%nat);
        reflexivity.
    + reflexivity.
    + destruct w; reflexivity.
    + reflexivity.
Qed.

Lemma monitor_ended c s : monitoring s = false -> monitor c s = (tt, s).
Proof.
  intros H. destruct c; simpl; unfold monitor_sig, monitor_ctx; rewrite H; reflexivity.
Qed.

Lemma RawError_latches err s : Signal_IsSet (termSig (exec (RawError err) s)) = true.
Proof.
  unfold exec. destruct (termSig s) as [t|] eqn:Ht.
  - rewrite (RawError_terminated err s t Ht). simpl. rewrite Ht. reflexivity.
  - rewrite (RawError_emits err s Ht). reflexivity.
Qed.

Lemma RawCancel_latches s : Signal_IsSet (termSig (exec RawCancel s)) = true.
Proof.
  unfold exec. destruct (termSig s) as [t|] eqn:Ht.
  - rewrite (RawCancel_terminated s t Ht). simpl. rewrite Ht. reflexivity.
  - rewrite (RawCancel_emits s Ht). reflexivity.
Qed.

Lemma RawError_monitoring err s : monitoring (exec (RawError err) s) = monitoring s.
Proof. apply (keeps_RawError err s). Qed.

Lemma RawCancel_monitoring s : monitoring (exec RawCancel s) = monitoring s.
Proof. apply (keeps_RawCancel s). Qed.

Lemma monitor_step_monitoring o s :
  monitoring s = false -> monitoring (step o s) = false.
Proof.
  intros H. destruct (is_monitor_step o) eqn:Hm.
  - destruct o; try discriminate; unfold step, exec.
    + rewrite (monitor_ended case_sig s H). exact H.
    + rewrite (monitor_ended case_ctx s H). exact H.
  - rewrite step_monitoring_kept; assumption.
Qed.

(** The monitor has ended only after it terminated the stream. *)
Definition monitor_invariant (s : Stream) : Prop :=
  monitoring s = false -> Signal_IsSet (termSig s) = true.

Lemma step_monitor_invariant o s : monitor_invariant s -> monitor_invariant (step o s).
Proof.
  intros I H'. destruct (monitoring s) eqn:Hm.
  - destruct (is_monitor_step o) eqn:Ho.
    + destruct o; try discriminate; simpl in *; unfold exec in *.
      * unfold monitor_sig in *. rewrite Hm in *.
        destruct (Signal_Err (sig s)) as [e|]; [|simpl in H'; congruence].
        apply RawError_latches.
      * unfold monitor_ctx in *. rewrite Hm in *. simpl in *.
        destruct (ctx_done s); [|simpl in H'; congruence].
        apply RawCancel_latches.
    + rewrite step_monitoring_kept in H' by exact Ho. congruence.
  - apply (latched_IsSet (termSig s)); [apply (ev_termSig _ _ (step_evolves o s))|].
    apply I. exact Hm.
Qed.

(** The monitor acts at most once.  Once it has ended it stays ended and
    its steps do nothing, whatever happens to the stream; and on a stream
    made by [New] it has ended only when the terminal signal is set, so from
    then on nothing more is handed to the writer. *)
Theorem monitor_acts_at_most_once (ops : list Op) :
  (forall s, monitoring s = false ->
     monitoring (run ops s) = false /\
     forall c, monitor c (run ops s) = (tt, run ops s)) /\
  (forall cancelled sid b,
     let s := run ops (New cancelled sid b) in
     monitoring s = false ->
     Signal_IsSet (termSig s) = true /\
     forall more, buf (run more s) = buf s).
Proof.
  split.
  - assert (H : forall s, monitoring s = false -> monitoring (run ops s) = false).
    { induction ops as [|o ops IH]; intros s Hm; simpl; [exact Hm|].
      apply IH. apply monitor_step_monitoring. exact Hm. }
    intros s Hm. split; [apply H; exact Hm|].
    intros c. apply monitor_ended. apply H. exact Hm.
  - intros cancelled sid b s Hm.
    assert (I : forall l s0, monitor_invariant s0 -> monitor_invariant (run l s0)).
    { induction l as [|o l IH]; intros s0 I0; simpl; [exact I0|].
      apply IH. apply step_monitor_invariant. exact I0. }
    assert (Hset : Signal_IsSet (termSig s) = true).
    { apply (I ops (New cancelled sid b)); [|exact Hm]. intros H0. discriminate H0. }
    split; [exact Hset|].
    intros more. destruct (termSig s) as [t|] eqn:Ht; [|discriminate Hset].
    exact (proj1 (run_quiet more s t Ht)).
Qed.

Lemma monitor_ctx_fires s :
  monitoring s = true -> ctx_done s = true ->
  monitor case_ctx s = RawCancel (set_monitoring false s).
Proof. intros H1 H2. simpl. unfold monitor_ctx. rewrite H1, H2. reflexivity. Qed.

Lemma monitor_sig_fires s e :
  monitoring s = true -> sig s = Some e ->
  monitor case_sig s = RawError e (set_monitoring false s).
Proof.
  intros H1 H2. simpl. unfold monitor_sig, Signal_Err. rewrite H1, H2. reflexivity.
Qed.

(** [Cancel] only cancels the context; the stream is cancelled when the
    monitor wakes up on it.  On a stream whose monitor is still waiting,
    [Cancel] leaves the signals and the writer as they are; the monitor's
    step then runs [RawCancel] and ends: [termSig] is latched, the general
    error becomes [context.Canceled] unless one was recorded before, a
    Cancel frame with the next identifier goes to the writer if [termSig]
    was unset (nothing otherwise), and later steps of the monitor do
    nothing.  With no general error recorded before, receives and sends fail
    with [context.Canceled] from then on. *)
Theorem Cancel_takes_effect_through_monitor (s : Stream) :
  monitoring s = true ->
  let s1 := exec Cancel s in
  let s2 := exec (monitor case_ctx) s1 in
  (sig s1 = sig s /\ termSig s1 = termSig s /\ sendSig s1 = sendSig s /\
   buf s1 = buf s /\ monitoring s1 = true) /\
  monitoring s2 = false /\
  sig s2 = Signal_Set context_Canceled (sig s) /\
  termSig s2 = Signal_Set err_stream_terminated (termSig s) /\
  match termSig s with
  | None =>
      messageID s2 = uint64_add (messageID s) 1 /\
      exists p l,
        calls (buf s2) = calls (buf s) ++ CWrite p :: l /\
        Forall (fun q => pkt_ID q = mkPacketID (streamID s) (uint64_add (messageID s) 1)
                         /\ pkt_Kind q = PayloadKind_Cancel)
               (written (CWrite p :: l))
  | Some _ => buf s2 = buf s /\ messageID s2 = messageID s
  end /\
  (forall c, monitor c s2 = (tt, s2)) /\
  (sig s = None ->
   RawRecv s2 = (Some (None, Some context_Canceled), s2) /\
   forall kind data,
     result (RawSend kind data) s2 = Some context_Canceled /\
     buf (exec (RawSend kind data) s2) = buf s2).
Proof.
  intros Hm s1 s2.
  assert (H2 : monitor case_ctx s1 = RawCancel (set_monitoring false s1))
    by (apply monitor_ctx_fires; [exact Hm|reflexivity]).
  set (s0 := set_monitoring false s1) in *.
  assert (Hs2 : s2 = exec RawCancel s0) by (unfold s2, exec; rewrite H2; reflexivity).
  assert (Hmon : monitoring s2 = false)
    by (rewrite Hs2, RawCancel_monitoring; reflexivity).
  assert (Hsig : sig s2 = Signal_Set context_Canceled (sig s)).
  { rewrite Hs2. unfold exec. destruct (termSig s0) as [t|] eqn:Ht.
    - rewrite (RawCancel_terminated s0 t Ht). reflexivity.
    - rewrite (RawCancel_emits s0 Ht). reflexivity. }
  split; [repeat split; exact Hm|].
  split; [exact Hmon|].
  split; [exact Hsig|].
  split.
  { rewrite Hs2. unfold exec. destruct (termSig s0) as [t|] eqn:Ht.
    - rewrite (RawCancel_terminated s0 t Ht). simpl.
      change (termSig s) with (termSig s0). rewrite Ht. reflexivity.
    - rewrite (RawCancel_emits s0 Ht). simpl.
      change (termSig s) with (termSig s0). rewrite Ht. reflexivity. }
  split.
  { change (termSig s) with (termSig s0).
    rewrite Hs2. unfold exec. destruct (termSig s0) as [t|] eqn:Ht.
    - rewrite (RawCancel_terminated s0 t Ht). split; reflexivity.
    - rewrite (RawCancel_emits s0 Ht).
      destruct (wireSendFlush_shape PayloadKind_Cancel [] s0) as [p [l [Hw Hf]]].
      rewrite Hw. simpl.
      split; [reflexivity|]. exists p, l. split; [reflexivity|exact Hf]. }
  split; [intros c; apply monitor_ended; exact Hmon|].
  intros Hnone.
  assert (Hc : sig s2 = Some context_Canceled) by (rewrite Hsig, Hnone; reflexivity).
  split; [exact (RawRecv_failed s2 _ Hc)|].
  intros kind data.
  assert (Hd : fst (result pollSend s2) = Some context_Canceled)
    by (rewrite (pollSend_sig s2 _ Hc); reflexivity).
  unfold result, exec. rewrite (RawSend_denied kind data s2 _ Hd). split; reflexivity.
Qed.

(** A failed send is reported to the peer by the monitor.  On a stream whose
    monitor is waiting, with no general error and [termSig] unset, a
    [RawSend] that fails (denied after [CloseSend], or refused by the writer)
    records its error; the monitor then wakes up on [sig], hands the writer
    an Error frame cut from the text of that error, under the identifier
    after the one the failed send drew, and terminates the stream. *)
Theorem failed_send_is_reported (kind : PayloadKind) (data : Data) (e : error)
        (s : Stream) :
  monitoring s = true -> sig s = None -> termSig s = None ->
  result (RawSend kind data) s = Some e ->
  let s1 := exec (RawSend kind data) s in
  let s2 := exec (monitor case_sig) s1 in
  let id := mkPacketID (streamID s) (uint64_add (uint64_add (messageID s) 1) 1) in
  sig s1 = Some e /\ termSig s1 = None /\
  sig s2 = Some e /\ termSig s2 = Some err_stream_terminated /\
  monitoring s2 = false /\
  written (appended s1 s2) <> [] /\
  exists rest,
    frame_packets PayloadKind_Error id (Error_text e) = written (appended s1 s2) ++ rest.
Proof.
  intros Hm Hsig Hterm Hres s1 s2 id.
  assert (H1 : sig s1 = Some e /\ termSig s1 = None /\
               messageID s1 = uint64_add (messageID s) 1 /\ streamID s1 = streamID s).
  { unfold s1, exec. unfold result in Hres.
    destruct (fst (result pollSend s)) as [e0|] eqn:Hpoll.
    - rewrite (RawSend_denied kind data s e0 Hpoll) in Hres |- *. simpl in *.
      inversion Hres; subst e0. rewrite Hsig. repeat split. exact Hterm.
    - destruct (RawSend_allowed_trace kind data s Hpoll)
        as [[_ Heq] | [l [p [r [e1 [_ [_ [_ Heq]]]]]]]];
        rewrite Heq in Hres |- *; simpl in *; [discriminate Hres|].
      inversion Hres; subst e1. repeat split. exact Hterm. }
  destruct H1 as [Hs1 [Ht1 [Hid1 Hsid1]]].
  assert (Hm1 : monitoring s1 = true)
    by (unfold s1; rewrite <- Hm; apply (keeps_RawSend kind data s)).
  set (s0 := set_monitoring false s1).
  assert (Hs2 : s2 = set_termSig (Some err_stream_terminated)
                       (exec (wireSendFlush PayloadKind_Error (Error_text e)) s0)).
  { unfold s2, exec at 1. rewrite (monitor_sig_fires s1 e Hm1 Hs1). fold s0.
    rewrite (RawError_emits e s0 Ht1). reflexivity. }
  destruct (wireSendFlush_signals PayloadKind_Error (Error_text e) s0) as [Hw1 _].
  split; [exact Hs1|]. split; [exact Ht1|].
  split; [rewrite Hs2; simpl; rewrite Hw1; exact Hs1|].
  split; [rewrite Hs2; reflexivity|].
  split.
  { rewrite Hs2.
    exact (proj2 (proj2 (proj2 (keeps_wireSendFlush PayloadKind_Error
                                  (Error_text e) s0)))). }
  assert (Hfp : frame_packets PayloadKind_Error
                  (mkPacketID (streamID s0) (uint64_add (messageID s0) 1)) (Error_text e)
                = frame_packets PayloadKind_Error id (Error_text e)).
  { unfold id. simpl. rewrite Hid1, Hsid1. reflexivity. }
  assert (Hbuf : buf s2 = buf (exec (wireSendFlush PayloadKind_Error (Error_text e)) s0))
    by (rewrite Hs2; reflexivity).
  unfold exec in Hbuf.
  pose proof (wireSendFlush_trace PayloadKind_Error (Error_text e) s0) as W.
  cbv zeta in W. rewrite Hfp in W.
  destruct W as [[_ Heq] | [l [p [r [e1 [Hl [_ [_ Heq]]]]]]]]; rewrite Heq in Hbuf.
  - assert (Happ : appended s1 s2
                   = map CWrite (frame_packets PayloadKind_Error id (Error_text e)) ++ [CFlush])
      by (apply appended_app; rewrite Hbuf; reflexivity).
    rewrite Happ, written_app, written_map_CWrite. simpl. rewrite app_nil_r.
    split.
    + destruct (frame_packets_cons PayloadKind_Error id (Error_text e)) as [d [ds ->]].
      discriminate.
    + exists []. rewrite app_nil_r. reflexivity.
  - assert (Happ : appended s1 s2 = map CWrite (l ++ [p]))
      by (apply appended_app; rewrite Hbuf; reflexivity).
    rewrite Happ, written_map_CWrite.
    split.
    + destruct l; discriminate.
    + exists r. rewrite Hl, <- app_assoc. reflexivity.
Qed.

End Cancellation.

(** On a fresh stream: [Cancel], then the monitor. *)
Lemma Cancel_takes_effect_through_monitor_witness :
  monitoring fresh = true /\
  sig (exec (monitor (C := two_byte_framer) case_ctx) (exec Cancel fresh))
    = Some context_Canceled /\
  termSig (exec (monitor (C := two_byte_framer) case_ctx) (exec Cancel fresh))
    = Some err_stream_terminated.
Proof.
  split; [reflexivity|].
  pose proof (Cancel_takes_effect_through_monitor (C := two_byte_framer) fresh eq_refl)
    as W.
  split; [exact (proj1 (proj2 (proj2 W)))|exact (proj1 (proj2 (proj2 (proj2 W))))].
Defined.

(** A fresh stream after [CloseSend]: the send half is closed, nothing else
    is set and the monitor still waits. *)
Definition half_closed : Stream := exec (CloseSend (C := two_byte_framer)) fresh.

Lemma failed_send_is_reported_witness :
  result (RawSend (C := two_byte_framer) PayloadKind_Message []) half_closed
    = Some err_send_after_CloseSend /\
  termSig (exec (monitor (C := two_byte_framer) case_sig)
             (exec (RawSend (C := two_byte_framer) PayloadKind_Message []) half_closed))
    = Some err_stream_terminated /\
  exists rest,
    frame_packets (C := two_byte_framer) PayloadKind_Error (mkPacketID 7 3)
      (Error_text (Collaborators := two_byte_framer) err_send_after_CloseSend)
    = written
        (appended
           (exec (RawSend (C := two_byte_framer) PayloadKind_Message []) half_closed)
           (exec (monitor (C := two_byte_framer) case_sig)
              (exec (RawSend (C := two_byte_framer) PayloadKind_Message []) half_closed)))
      ++ rest.
Proof.
  assert (H : result (RawSend (C := two_byte_framer) PayloadKind_Message []) half_closed
              = Some err_send_after_CloseSend) by reflexivity.
  split; [exact H|].
  pose proof (failed_send_is_reported (C := two_byte_framer) PayloadKind_Message []
                err_send_after_CloseSend half_closed eq_refl eq_refl eq_refl H) as W.
  split; [exact (proj1 (proj2 (proj2 (proj2 W))))|].
  exact (proj2 (proj2 (proj2 (proj2 (proj2 (proj2 W)))))).
Defined.

(** After [Cancel] and the monitor's step on a fresh stream the monitor has
    ended and the stream is terminated. *)
Lemma monitor_acts_at_most_once_witness :
  monitoring (run (C := two_byte_framer) [CallCancel; MonitorCtx] (New false 7 (mkBuffer [])))
    = false /\
  Signal_IsSet
    (termSig (run (C := two_byte_framer) [CallCancel; MonitorCtx]
                (New false 7 (mkBuffer [])))) = true.
Proof.
  split; [reflexivity|].
  exact (proj1 (proj2 (monitor_acts_at_most_once (C := two_byte_framer)
                         [CallCancel; MonitorCtx]) false 7 (mkBuffer []) eq_refl)).
Defined.

(** One message of three bytes on a fresh stream: two packets and a flush. *)
Lemma MsgSend_spec_witness :
  appended fresh (exec (MsgSend (C := two_byte_framer) [Byte.x01; Byte.x02; Byte.x03]) fresh)
    = map CWrite
        (frame_packets (C := two_byte_framer) PayloadKind_Message (mkPacketID 7 1)
           [Byte.x01; Byte.x02; Byte.x03]) ++ [CFlush].
Proof.
  exact (proj1 (proj2 (MsgSend_spec (C := two_byte_framer)
                         [Byte.x01; Byte.x02; Byte.x03] fresh))).
Defined.

(** ** Overlapping calls keep their frames apart *)

Section OverlapInvariant.

Context {C : Collaborators}.

(** The packets of a writer trace that carry the message identifier [x]. *)
Definition has_id (x : Z) (p : Packet) : bool := MessageID (pkt_ID p) =? x.

(** How far a call of [RawSend kind data] has come at program point [pc]:
    whether it has drawn its identifier, and, with [id] the identifier under
    stream [sid], that the packets [mine] it has handed to the writer so far
    are the part of its frame that is no longer pending. *)
Definition call_progress (sid : Z) (kind : PayloadKind) (data : Data)
           (pc : SendPC) (drawn : bool) (id : Z) (mine : list Packet) : Prop :=
  match pc with
  | pc_call k d => k = kind /\ d = data /\ drawn = false /\ mine = []
  | pc_split pending =>
      drawn = true /\ frame_packets kind (mkPacketID sid id) data = mine ++ pending
  | pc_returned None =>
      drawn = true /\ frame_packets kind (mkPacketID sid id) data = mine
  | pc_failed _ | pc_returned (Some _) =>
      drawn = true /\ exists r, frame_packets kind (mkPacketID sid id) data = mine ++ r
  end.

Lemma filter_has_id_all sid id l :
  Forall (fun p => pkt_ID p = mkPacketID sid id) l -> filter (has_id id) l = l.
Proof.
  induction 1 as [|p l Hp _ IH]; simpl; [reflexivity|].
  unfold has_id at 1. rewrite Hp. simpl. rewrite Z.eqb_refl, IH. reflexivity.
Qed.

Lemma filter_has_id_none sid id id' l :
  id <> id' ->
  Forall (fun p => pkt_ID p = mkPacketID sid id) l -> filter (has_id id') l = [].
Proof.
  intros Hne. induction 1 as [|p l Hp _ IH]; simpl; [reflexivity|].
  unfold has_id at 1. rewrite Hp. simpl.
  destruct (Z.eqb_spec id id') as [E|_]; [contradiction|exact IH].
Qed.

(** One step of a call: it hands the writer at most one packet, tagged with
    the call's identifier, and advances in its own frame. *)
Lemma call_step_progress sid kind data pc drawn id h0 w s :
  streamID s = sid ->
  calls (buf s) = h0 ++ map CWrite w ->
  (drawn = false -> uint64_add (messageID s) 1 = id) ->
  call_progress sid kind data pc drawn id (filter (has_id id) w) ->
  exists wnew,
    streamID (snd (RawSend_step pc s)) = sid /\
    calls (buf (snd (RawSend_step pc s))) = h0 ++ map CWrite (w ++ wnew) /\
    Forall (fun p => pkt_ID p = mkPacketID sid id) wnew /\
    call_progress sid kind data (fst (RawSend_step pc s)) true id
                  (filter (has_id id) (w ++ wnew)) /\
    messageID (snd (RawSend_step pc s))
      = (if drawn then messageID s else uint64_add (messageID s) 1).
Proof.
  intros Hsid Hcalls Hnext Hp.
  destruct pc as [k d | [|p rest] | err | [err|]]; simpl in Hp.
  - destruct Hp as [-> [-> [-> Hmine]]]. exists [].
    simpl. rewrite app_nil_r, Hsid, (Hnext eq_refl), Hmine.
    repeat split; try assumption. constructor.
  - destruct Hp as [-> Hf]. exists []. simpl. rewrite app_nil_r in *.
    repeat split; try assumption. constructor.
  - destruct Hp as [-> Hf].
    assert (Hid : pkt_ID p = mkPacketID sid id).
    { pose proof (frame_packets_tagged kind (mkPacketID sid id) data) as Ht.
      rewrite Hf in Ht. apply Forall_app in Ht. destruct Ht as [_ Ht].
      inversion Ht; subst. tauto. }
    cbn [RawSend_step]. unfold RawSend_emit, bind. rewrite pollSend_eq.
    destruct (fst (result pollSend s)) as [e|].
    + exists []. simpl. rewrite app_nil_r.
      repeat split; try assumption; [constructor|].
      exists (p :: rest). exact Hf.
    + exists [p]. unfold buf_Write.
      assert (Hfil : filter (has_id id) (w ++ [p]) = filter (has_id id) w ++ [p]).
      { rewrite filter_app. f_equal.
        apply (filter_has_id_all sid). constructor; [exact Hid|constructor]. }
      destruct (Write_result (calls (buf s)) p) as [e|]; simpl;
        rewrite Hfil, Hcalls, map_app, <- !app_assoc; simpl;
        (split; [exact Hsid|]); (split; [reflexivity|]);
        (split; [constructor; [exact Hid|constructor]|]);
        (split; [|reflexivity]); (split; [reflexivity|]).
      * exists rest. rewrite Hf, <- app_assoc. reflexivity.
      * rewrite Hf. reflexivity.
  - destruct Hp as [-> Hf]. exists []. simpl. rewrite app_nil_r.
    repeat split; try assumption. constructor.
  - destruct Hp as [-> Hf]. exists []. simpl. rewrite app_nil_r.
    repeat split; try assumption. constructor.
  - destruct Hp as [-> Hf]. exists []. simpl. rewrite app_nil_r.
    repeat split; try assumption. constructor.
Qed.

(** A step of the other call does not disturb a call's progress. *)
Lemma call_progress_other sid kind data pc drawn id id' w wnew :
  id' <> id ->
  Forall (fun p => pkt_ID p = mkPacketID sid id') wnew ->
  call_progress sid kind data pc drawn id (filter (has_id id) w) ->
  call_progress sid kind data pc drawn id (filter (has_id id) (w ++ wnew)).
Proof.
  intros Hne Hnew Hp.
  rewrite filter_app, (filter_has_id_none sid id' id wnew Hne Hnew), app_nil_r.
  exact Hp.
Qed.

Lemma call_progress_prefix sid kind data pc drawn id mine :
  call_progress sid kind data pc drawn id mine ->
  exists r,
    frame_packets kind (mkPacketID sid id) data = mine ++ r /\
    (pc = pc_returned None -> r = []).
Proof.
  destruct pc as [k d | pending | err | [err|]]; simpl.
  - intros [_ [_ [_ ->]]]. eexists. split; [reflexivity|discriminate].
  - intros [_ H]. exists pending. split; [exact H|discriminate].
  - intros [_ [r H]]. exists r. split; [exact H|discriminate].
  - intros [_ [r H]]. exists r. split; [exact H|discriminate].
  - intros [_ H]. exists []. rewrite app_nil_r. split; [exact H|reflexivity].
Qed.

(** What holds of two overlapping calls and their stream at every point of
    every schedule: either neither call has taken a step, or the calls hold
    the two identifiers after the counter's initial value (the first to draw
    holds the smaller), the writer got packets only, each tagged with one of
    the two, and each call has progressed in its own frame by exactly the
    packets that carry its identifier. *)
Definition overlap_invariant (kA kB : PayloadKind) (dA dB : Data) (s0 : Stream)
           (st : SendPC * SendPC * Stream) : Prop :=
  st = (pc_call kA dA, pc_call kB dB, s0) \/
  exists ia ib da db w,
    streamID (snd st) = streamID s0 /\
    calls (buf (snd st)) = calls (buf s0) ++ map CWrite w /\
    call_progress (streamID s0) kA dA (fst (fst st)) da ia (filter (has_id ia) w) /\
    call_progress (streamID s0) kB dB (snd (fst st)) db ib (filter (has_id ib) w) /\
    Forall (fun p => pkt_ID p = mkPacketID (streamID s0) ia \/
                     pkt_ID p = mkPacketID (streamID s0) ib) w /\
    ((da = true /\ ia = messageID s0 + 1 /\ ib = messageID s0 + 2 /\
      messageID (snd st) = messageID s0 + (if db then 2 else 1))
     \/
     (db = true /\ ib = messageID s0 + 1 /\ ia = messageID s0 + 2 /\
      messageID (snd st) = messageID s0 + (if da then 2 else 1))).

Lemma overlap_step_invariant kA kB dA dB s0 first st :
  0 <= messageID s0 -> messageID s0 + 2 < uint64_modulus ->
  overlap_invariant kA kB dA dB s0 st ->
  overlap_invariant kA kB dA dB s0 (overlap_step first st).
Proof.
  intros Hlo Hhi [-> | [ia [ib [da [db [w [Hsid [Hcalls [Ha [Hb [Hall Hids]]]]]]]]]]].
  - right.
    assert (Hn : uint64_add (messageID s0) 1 = messageID s0 + 1)
      by (apply uint64_add_small; lia).
    destruct first; cbn [overlap_step RawSend_step nextPid fst snd].
    + exists (messageID s0 + 1), (messageID s0 + 2), true, false, [].
      simpl. rewrite app_nil_r, Hn.
      repeat split; try reflexivity; [constructor|].
      left. repeat split; reflexivity.
    + exists (messageID s0 + 2), (messageID s0 + 1), false, true, [].
      simpl. rewrite app_nil_r, Hn.
      repeat split; try reflexivity; [constructor|].
      right. repeat split; reflexivity.
  - right. destruct st as [[a b] s]. cbn [fst snd] in *.
    assert (Hne : ia <> ib) by (destruct Hids as [[_ [-> [-> _]]]|[_ [-> [-> _]]]]; lia).
    destruct first; cbn [overlap_step].
    + assert (Hnext : da = false -> uint64_add (messageID s) 1 = ia).
      { intros ->. destruct Hids as [[Hda _]|[_ [_ [-> Hm]]]]; [discriminate Hda|].
        rewrite Hm, uint64_add_small by lia. lia. }
      destruct (call_step_progress (streamID s0) kA dA a da ia (calls (buf s0)) w s
                  Hsid Hcalls Hnext Ha)
        as [wnew [Hsid' [Hcalls' [Hnew [Ha' Hm']]]]].
      destruct (RawSend_step a s) as [a1 s1]. cbn [fst snd] in *.
      exists ia, ib, true, db, (w ++ wnew).
      split; [exact Hsid'|]. split; [exact Hcalls'|]. split; [exact Ha'|].
      split; [apply (call_progress_other _ _ _ _ _ _ ia); auto|].
      split.
      { apply Forall_app. split; [exact Hall|].
        eapply Forall_impl; [|exact Hnew]. intros p Hp. left. exact Hp. }
      destruct Hids as [[-> [-> [-> Hm]]]|[-> [-> [-> Hm]]]].
      * left. repeat split. rewrite Hm'. exact Hm.
      * right. repeat split. rewrite Hm'.
        destruct da; [exact Hm|]. rewrite Hm, uint64_add_small by lia. lia.
    + assert (Hnext : db = false -> uint64_add (messageID s) 1 = ib).
      { intros ->. destruct Hids as [[_ [_ [-> Hm]]]|[Hdb _]]; [|discriminate Hdb].
        rewrite Hm, uint64_add_small by lia. lia. }
      destruct (call_step_progress (streamID s0) kB dB b db ib (calls (buf s0)) w s
                  Hsid Hcalls Hnext Hb)
        as [wnew [Hsid' [Hcalls' [Hnew [Hb' Hm']]]]].
      destruct (RawSend_step b s) as [b1 s1]. cbn [fst snd] in *.
      exists ia, ib, da, true, (w ++ wnew).
      split; [exact Hsid'|]. split; [exact Hcalls'|].
      split; [apply (call_progress_other _ _ _ _ _ _ ib); auto|].
      split; [exact Hb'|].
      split.
      { apply Forall_app. split; [exact Hall|].
        eapply Forall_impl; [|exact Hnew]. intros p Hp. right. exact Hp. }
      destruct Hids as [[-> [-> [-> Hm]]]|[-> [-> [-> Hm]]]].
      * left. repeat split. rewrite Hm'.
        destruct db; [exact Hm|]. rewrite Hm, uint64_add_small by lia. lia.
      * right. repeat split. rewrite Hm'. exact Hm.
Qed.

Lemma overlap_keeps_invariant kA kB dA dB s0 schedule : forall st,
  0 <= messageID s0 -> messageID s0 + 2 < uint64_modulus ->
  overlap_invariant kA kB dA dB s0 st ->
  overlap_invariant kA kB dA dB s0 (overlap schedule st).
Proof.
  induction schedule as [|first schedule IH]; intros st Hlo Hhi I; [exact I|].
  change (overlap (first :: schedule) st) with (overlap schedule (overlap_step first st)).
  apply IH; try assumption. apply overlap_step_invariant; assumption.
Qed.

(** However two calls of [RawSend] on one stream are interleaved, their
    frames stay apart.  The calls hold different identifiers (the next two
    of the counter, the smaller with the call that drew first), the writer
    is handed packets only, each carrying one of the two identifiers, and
    the packets that carry a call's identifier are, in the order the writer
    got them, a prefix of that call's frame: the whole frame once the call
    has returned nil.  The counter must not wrap. *)
Theorem overlapping_RawSend_keeps_frames_apart
        (kA kB : PayloadKind) (dA dB : Data) (s : Stream) (schedule : list bool) :
  0 <= messageID s -> messageID s + 2 < uint64_modulus ->
  let st := overlap schedule (pc_call kA dA, pc_call kB dB, s) in
  let w := written (appended s (snd st)) in
  exists ia ib,
    ia <> ib /\
    ((ia = messageID s + 1 /\ ib = messageID s + 2) \/
     (ia = messageID s + 2 /\ ib = messageID s + 1)) /\
    appended s (snd st) = map CWrite w /\
    Forall (fun p => pkt_ID p = mkPacketID (streamID s) ia \/
                     pkt_ID p = mkPacketID (streamID s) ib) w /\
    (exists r,
       frame_packets kA (mkPacketID (streamID s) ia) dA = filter (has_id ia) w ++ r /\
       (fst (fst st) = pc_returned None -> r = [])) /\
    (exists r,
       frame_packets kB (mkPacketID (streamID s) ib) dB = filter (has_id ib) w ++ r /\
       (snd (fst st) = pc_returned None -> r = [])).
Proof.
  intros Hlo Hhi st w.
  assert (I : overlap_invariant kA kB dA dB s st).
  { apply overlap_keeps_invariant; try assumption. left. reflexivity. }
  destruct I as [E | [ia [ib [da [db [w0 [Hsid [Hcalls [Ha [Hb [Hall Hids]]]]]]]]]]].
  - assert (Hw : appended s (snd st) = []) by (rewrite E; apply appended_refl).
    exists (messageID s + 1), (messageID s + 2).
    unfold w. rewrite Hw, E. simpl.
    split; [lia|]. split; [left; split; reflexivity|]. split; [reflexivity|].
    split; [constructor|].
    split; eexists; (split; [reflexivity|discriminate]).
  - assert (Hw : appended s (snd st) = map CWrite w0) by (apply appended_app; exact Hcalls).
    assert (Hw0 : w = w0) by (unfold w; rewrite Hw; apply written_map_CWrite).
    rewrite Hw0. exists ia, ib.
    split; [destruct Hids as [[_ [-> [-> _]]]|[_ [-> [-> _]]]]; lia|].
    split; [destruct Hids as [[_ [-> [-> _]]]|[_ [-> [-> _]]]]; [left|right]; split; reflexivity|].
    split; [exact Hw|]. split; [exact Hall|].
    split; [exact (call_progress_prefix _ _ _ _ _ _ _ Ha)
           |exact (call_progress_prefix _ _ _ _ _ _ _ Hb)].
Qed.

End OverlapInvariant.

(** The schedule that splits the first call's frame: the packets of each
    identifier still are that call's frame, in order. *)
Lemma overlapping_RawSend_keeps_frames_apart_witness :
  0 <= messageID fresh /\ messageID fresh + 2 < uint64_modulus /\
  exists ia ib,
    ia <> ib /\
    exists r,
      frame_packets (C := two_byte_framer) PayloadKind_Message
        (mkPacketID (streamID fresh) ia) [Byte.x01; Byte.x02; Byte.x03]
      = filter (has_id ia)
          (written
             (appended fresh
                (snd (overlap (C := two_byte_framer)
                        [true; true; false; false; false; true; true]
                        (pc_call PayloadKind_Message [Byte.x01; Byte.x02; Byte.x03],
                         pc_call PayloadKind_Message [Byte.x0b], fresh))))) ++ r.
Proof.
  assert (H1 : 0 <= messageID fresh) by (vm_compute; discriminate).
  assert (H2 : messageID fresh + 2 < uint64_modulus) by reflexivity.
  split; [exact H1|]. split; [exact H2|].
  destruct (overlapping_RawSend_keeps_frames_apart (C := two_byte_framer)
              PayloadKind_Message PayloadKind_Message
              [Byte.x01; Byte.x02; Byte.x03] [Byte.x0b] fresh
              [true; true; false; false; false; true; true] H1 H2)
    as [ia [ib [Hne [_ [_ [_ [[r [Hr _]] _]]]]]]].
  exists ia, ib. split; [exact Hne|]. exists r. exact Hr.
Defined.

(** ** Flushing, and the end of the counter *)

Section Edges.

Context {C : Collaborators}.

(** [RawFlush] on a stream the policy allows calls [Flush] once and nothing
    else, draws no identifier and returns what the writer returns.  A
    refusal is recorded as the general error, so every later [RawSend] and
    [RawFlush] fails with it without calling the writer. *)
Theorem RawFlush_failure_is_recorded (s : Stream) :
  fst (result pollSend s) = None ->
  let s' := exec RawFlush s in
  appended s s' = [CFlush] /\
  messageID s' = messageID s /\
  result RawFlush s = Flush_result (calls (buf s)) /\
  match result RawFlush s with
  | None => sig s' = None /\ fst (result pollSend s') = None
  | Some e =>
      sig s' = Some e /\
      RawFlush s' = (Some e, s') /\
      forall kind data,
        result (RawSend kind data) s' = Some e /\
        buf (exec (RawSend kind data) s') = buf s'
  end.
Proof.
  intros Hp s'.
  destruct (pollSend_allows s Hp) as [Hsig [Hterm Hsend]].
  pose proof (RawFlush_allowed s Hp) as Heq.
  destruct (Flush_result (calls (buf s))) as [e|] eqn:Hf.
  - assert (Hs' : s' = set_sig (Some e)
                         (set_buf (mkBuffer (calls (buf s) ++ [CFlush])) s))
      by (unfold s', exec; rewrite Heq; reflexivity).
    assert (Hr : result RawFlush s = Some e) by (unfold result; rewrite Heq; reflexivity).
    rewrite Hr.
    assert (Hs : sig s' = Some e) by (rewrite Hs'; reflexivity).
    assert (Hd : fst (result pollSend s') = Some e)
      by (rewrite (pollSend_sig s' e Hs); reflexivity).
    split; [apply appended_app; rewrite Hs'; reflexivity|].
    split; [rewrite Hs'; reflexivity|]. split; [reflexivity|].
    split; [exact Hs|].
    split; [exact (RawFlush_denied s' e Hd)|].
    intros kind data. unfold result, exec.
    rewrite (RawSend_denied kind data s' e Hd). split; reflexivity.
  - assert (Hs' : s' = set_buf (mkBuffer (calls (buf s) ++ [CFlush])) s)
      by (unfold s', exec; rewrite Heq; reflexivity).
    assert (Hr : result RawFlush s = None) by (unfold result; rewrite Heq; reflexivity).
    rewrite Hr.
    split; [apply appended_app; rewrite Hs'; reflexivity|].
    split; [rewrite Hs'; reflexivity|]. split; [reflexivity|].
    split; [rewrite Hs'; exact Hsig|].
    rewrite Hs', pollSend_set_buf. exact Hp.
Qed.

(** The identifier counter is a 64-bit unsigned integer and wraps: every
    identifier drawn lies in the 64-bit range, and on a stream that has
    drawn [2^64 - 1] identifiers the next one has MessageID 0 and the one
    after it MessageID 1, the identifier of the stream's first frame. *)
Theorem nextPid_wraps_around (s : Stream) :
  (0 <= MessageID (result nextPid s) < uint64_modulus) /\
  StreamID (result nextPid s) = streamID s /\
  (messageID s = uint64_modulus - 1 ->
   forall cancelled b,
     result nextPid s = mkPacketID (streamID s) 0 /\
     result nextPid (exec nextPid s)
       = result nextPid (New cancelled (streamID s) b)).
Proof.
  split; [|split].
  - unfold result, nextPid, uint64_add. simpl.
    apply Z.mod_pos_bound. reflexivity.
  - reflexivity.
  - intros Hm cancelled b. unfold result, exec, nextPid. simpl. rewrite Hm.
    split; reflexivity.
Qed.

End Edges.

Lemma RawFlush_failure_is_recorded_witness :
  fst (result pollSend fresh) = None /\
  sig (exec (RawFlush (C := broken_writer)) fresh)
    = Some (external_error "flush failed").
Proof.
  split; [reflexivity|].
  exact (proj1 (proj2 (proj2 (proj2 (RawFlush_failure_is_recorded (C := broken_writer)
                                       fresh eq_refl))))).
Defined.

(** A stream that has drawn every identifier but the last one before the
    counter wraps. *)
Definition worn_out : Stream := set_messageID (uint64_modulus - 1) fresh.

Lemma nextPid_wraps_around_witness :
  messageID worn_out = uint64_modulus - 1 /\
  result nextPid worn_out = mkPacketID 7 0.
Proof.
  split; [reflexivity|].
  exact (proj1 (proj2 (proj2 (nextPid_wraps_around worn_out)) eq_refl false (mkBuffer []))).
Defined.

(** ** The send side and the receive side *)

Section Sides.

Context {C : Collaborators}.

Lemma MsgRecv_result s :
  result MsgRecv s =
    match result RawRecv s with
    | None => None
    | Some (Some p, None) => Some (proto_Unmarshal (pkt_Data p))
    | Some (_, err) => Some err
    end.
Proof.
  unfold result, MsgRecv, bind.
  destruct (RawRecv s) as [[[[p|] [e|]]|] s1]; reflexivity.
Qed.

Lemma run_send_calls_keep ops : forall s,
  forallb is_send_call ops = true -> receive_side_kept s (run ops s).
Proof.
  induction ops as [|o ops IH]; intros s H; simpl in *.
  - apply receive_side_kept_refl.
  - apply andb_true_iff in H. destruct H as [Ho Hops].
    eapply receive_side_kept_trans; [apply send_call_keeps; exact Ho|apply IH; exact Hops].
Qed.

(** The send-path methods ([RawSend], [RawFlush], [MsgSend], [CloseSend],
    [Close], [RawError], [RawCancel]) never touch the receive queue,
    [recvSig], the context or the monitor.  They reach the receive side
    through the general error only: as long as it is unset after any
    sequence of such calls, [RawRecv] and [MsgRecv] answer exactly as they
    would have before. *)
Theorem send_calls_leave_the_receive_side (ops : list Op) (s : Stream) :
  forallb is_send_call ops = true ->
  let s' := run ops s in
  queue s' = queue s /\ recvSig s' = recvSig s /\
  ctx_done s' = ctx_done s /\ monitoring s' = monitoring s /\
  (sig s' = None ->
   result RawRecv s' = result RawRecv s /\ result MsgRecv s' = result MsgRecv s).
Proof.
  intros H s'. destruct (run_send_calls_keep ops s H) as [Hq [Hr [Hc Hm]]].
  fold s' in Hq, Hr, Hc, Hm.
  split; [exact Hq|]. split; [exact Hr|]. split; [exact Hc|]. split; [exact Hm|].
  intros Hnone.
  assert (Hs : sig s' = sig s).
  { destruct (sig s) as [e|] eqn:He; [|exact Hnone].
    pose proof (ev_sig _ _ (run_evolves ops s) e He) as H1. fold s' in H1.
    rewrite H1 in Hnone. discriminate Hnone. }
  assert (HR : result RawRecv s' = result RawRecv s)
    by (apply RawRecv_result_by_sig_and_queue; assumption).
  split; [exact HR|]. rewrite !MsgRecv_result, HR. reflexivity.
Qed.

(** The steps that do not set [recvSig] from outside. *)
Definition leaves_recvSig (o : Op) : bool :=
  match o with
  | ExternalSet TheRecvSig _ => false
  | _ => true
  end.

Lemma RawRecv_recvSig s : recvSig (exec RawRecv s) = recvSig s.
Proof.
  unfold exec, RawRecv. destruct (sig s); simpl; [reflexivity|].
  destruct (items (queue s)); [destruct (closed (queue s))|]; reflexivity.
Qed.

Lemma step_recvSig o s : leaves_recvSig o = true -> recvSig (step o s) = recvSig s.
Proof.
  intros H. destruct (is_send_call o) eqn:Hsend.
  - apply (send_call_keeps o s Hsend).
  - destruct o; try discriminate; unfold step, exec.
    + apply RawRecv_recvSig.
    + change (snd (MsgRecv s)) with (exec MsgRecv s).
      rewrite MsgRecv_state. apply RawRecv_recvSig.
    + reflexivity.
    + simpl. unfold monitor_sig. destruct (monitoring s); [|reflexivity].
      destruct (Signal_Err (sig s)) as [e|]; [|reflexivity].
      apply (keeps_RawError e (set_monitoring false s)).
    + simpl. unfold monitor_ctx. destruct (monitoring s && ctx_done s); [|reflexivity].
      apply (keeps_RawCancel (set_monitoring false s)).
    + unfold enqueue.
      destruct (closed (queue s) || (queue_capacity <=? length (items (queue s)))%nat);
        reflexivity.
    + reflexivity.
    + destruct w; try reflexivity. discriminate H.
    + reflexivity.
Qed.

(** No method of the stream, and no step of its monitor, ever sets
    [recvSig]: along any run it changes only when a holder of [RecvSig()]
    sets it. *)
Theorem recvSig_is_never_set (ops : list Op) (s : Stream) :
  forallb leaves_recvSig ops = true -> recvSig (run ops s) = recvSig s.
Proof.
  revert s. induction ops as [|o ops IH]; intros s H; simpl in *; [reflexivity|].
  apply andb_true_iff in H. destruct H as [Ho Hops].
  rewrite (IH _ Hops). apply step_recvSig. exact Ho.
Qed.

End Sides.

(** A message, a half-close and a close on a stream with one packet
    queued: the packet is still there, but the general error is set. *)
Lemma send_calls_leave_the_receive_side_witness :
  queue (run (C := two_byte_framer)
           [CallMsgSend (C := two_byte_framer) [Byte.x01]; CallCloseSend; CallClose]
           (exec (enqueue first_packet) fresh))
    = mkChan [first_packet] false.
Proof.
  exact (proj1 (send_calls_leave_the_receive_side (C := two_byte_framer)
                  [CallMsgSend (C := two_byte_framer) [Byte.x01]; CallCloseSend; CallClose]
                  (exec (enqueue first_packet) fresh) eq_refl)).
Defined.

Lemma recvSig_is_never_set_witness :
  recvSig (run (C := two_byte_framer)
             [CallClose; CallRawRecv; MonitorSig; ExternalSet TheSig io_EOF] fresh)
    = None.
Proof.
  exact (recvSig_is_never_set (C := two_byte_framer)
           [CallClose; CallRawRecv; MonitorSig; ExternalSet TheSig io_EOF] fresh eq_refl).
Defined.
